(** * Ultimate Tracker server: carrier detection, tracking cache, presence

    A shallow embedding of the two revisions of the Node.js server that the
    repository keeps:

    - [Server]    the revision of [server.js];
    - [Enhanced]  the later revision, headed "ENHANCED AMAZON SCRAPING
                  CONCEPT", which adds the Amazon login flow, pushes a
                  [tracking_update] to the sockets and gives three of the
                  detection patterns the flag [i].

    Code that is textually the same in both revisions is embedded once,
    before the two modules. *)

From Stdlib Require Import ZArith QArith Ascii String List Bool Lia.
From stdpp Require Import base option list gmap strings pretty.

Local Open Scope string_scope.
Local Open Scope Z_scope.

(** ** JavaScript strings

    A string is a sequence of code units; the embedding uses Rocq's
    [string].  Every literal of the source is ASCII; case mapping is
    written out for the ASCII letters. *)

Module Js.

Definition code (c : ascii) : N := N_of_ascii c.

Definition between (lo hi c : ascii) : bool :=
  (code lo <=? code c)%N && (code c <=? code hi)%N.

Definition isUpper (c : ascii) : bool := between "A" "Z" c.
Definition isLower (c : ascii) : bool := between "a" "z" c.
Definition isDigit (c : ascii) : bool := between "0" "9" c.
Definition isAlnum (c : ascii) : bool := isDigit c || isUpper c || isLower c.

Definition upperChar (c : ascii) : ascii :=
  if isLower c then ascii_of_N (code c - 32) else c.
Definition lowerChar (c : ascii) : ascii :=
  if isUpper c then ascii_of_N (code c + 32) else c.

Fixpoint mapChars (f : ascii -> ascii) (s : string) : string :=
  match s with
  | EmptyString => EmptyString
  | String c s' => String (f c) (mapChars f s')
  end.

(** [String.prototype.toUpperCase] and [toLowerCase]. *)
Definition toUpperCase : string -> string := mapChars upperChar.
Definition toLowerCase : string -> string := mapChars lowerChar.

(** [!s] for a string: only the empty string is falsy. *)
Definition falsy (s : string) : bool :=
  match s with EmptyString => true | _ => false end.

(** [a || b] on strings. *)
Definition orElse (a b : string) : string := if falsy a then b else a.

Fixpoint prefixOf (p s : string) : bool :=
  match p, s with
  | EmptyString, _ => true
  | String a p', String b s' => Ascii.eqb a b && prefixOf p' s'
  | String _ _, EmptyString => false
  end.

(** [String.prototype.includes]. *)
Fixpoint includes (s needle : string) : bool :=
  prefixOf needle s ||
  match s with
  | EmptyString => false
  | String _ s' => includes s' needle
  end.

(** White space among the code units below 256. *)
Definition isSpace (c : ascii) : bool :=
  existsb (N.eqb (code c)) [9; 10; 11; 12; 13; 32; 160]%N.

Fixpoint trimStart (s : string) : string :=
  match s with
  | EmptyString => EmptyString
  | String c s' => if isSpace c then trimStart s' else s
  end.

Fixpoint trimEnd (s : string) : string :=
  match s with
  | EmptyString => EmptyString
  | String c s' =>
      let t := trimEnd s' in
      if isSpace c && falsy t then EmptyString else String c t
  end.

(** [String.prototype.trim]. *)
Definition trim (s : string) : string := trimEnd (trimStart s).

(** The double-quote character, for messages that quote their argument. *)
Definition dquote : string := String "034"%char EmptyString.

End Js.

(** ** Regular expressions

    The fragment of JavaScript regular expressions that [detectCarrier]
    uses: literals, character classes given by ranges, groups with
    alternation, counted repetition, the assertions [^] and [$], and the
    flag [i].  Matching is by backtracking with continuations, as the
    language specification describes it. *)

Module Regex.

Inductive re : Type :=
| Bol                               (* ^ *)
| Eol                               (* $ *)
| Lit (c : ascii)                   (* a literal character *)
| Cls (rs : list (ascii * ascii))   (* [a-bc-d...] *)
| Cat (a b : re)                    (* ab *)
| Alt (a b : re)                    (* a|b *)
| Times (n : nat) (a : re)          (* a{n} *)
| Between (lo hi : nat) (a : re).   (* a{lo,hi} *)

Record regex : Type := RegExp { source : re; ignoreCase : bool }.

(** A position in the subject: the index reached and what is left. *)
Definition subject : Type := (nat * list ascii)%type.
Definition cont : Type := subject -> bool.

Definition inRanges (rs : list (ascii * ascii)) (c : ascii) : bool :=
  existsb (fun r => Js.between (fst r) (snd r) c) rs.

(** Without the flag [i] a character matches itself; with it two
    characters match when they canonicalize (upper-case) to the same
    character. *)
Definition sameChar (i : bool) (c x : ascii) : bool :=
  if i then Ascii.eqb (Js.upperChar c) (Js.upperChar x) else Ascii.eqb c x.

Definition inClass (i : bool) (rs : list (ascii * ascii)) (x : ascii) : bool :=
  inRanges rs x || (i && (inRanges rs (Js.upperChar x) || inRanges rs (Js.lowerChar x))).

Definition eat (p : ascii -> bool) (k : cont) : cont :=
  fun sub =>
    match snd sub with
    | [] => false
    | x :: s' => p x && k (S (fst sub), s')
    end.

Fixpoint rep (step : cont -> cont) (n : nat) (k : cont) : cont :=
  match n with
  | O => k
  | S n' => step (rep step n' k)
  end.

Fixpoint run (i : bool) (r : re) (k : cont) {struct r} : cont :=
  match r with
  | Bol => fun sub => Nat.eqb (fst sub) 0 && k sub
  | Eol => fun sub => match snd sub with [] => k sub | _ :: _ => false end
  | Lit c => eat (sameChar i c) k
  | Cls rs => eat (inClass i rs) k
  | Cat a b => run i a (run i b k)
  | Alt a b => fun sub => run i a k sub || run i b k sub
  | Times n a => rep (run i a) n k
  | Between lo hi a =>
      fun sub => existsb (fun j => rep (run i a) j k sub) (seq lo (S hi - lo))
  end.

(** [RegExp.prototype.test]: is there a match starting at some index. *)
Definition test (r : regex) (s : string) : bool :=
  let cs := list_ascii_of_string s in
  existsb (fun j => run (ignoreCase r) (source r) (fun _ => true) (j, drop j cs))
          (seq 0 (S (length cs))).

(** Least and greatest number of characters a match of [r] consumes. *)
Fixpoint wmin (r : re) : nat :=
  match r with
  | Bol | Eol => 0
  | Lit _ | Cls _ => 1
  | Cat a b => wmin a + wmin b
  | Alt a b => Nat.min (wmin a) (wmin b)
  | Times n a => n * wmin a
  | Between lo _ a => lo * wmin a
  end.

Fixpoint wmax (r : re) : nat :=
  match r with
  | Bol | Eol => 0
  | Lit _ | Cls _ => 1
  | Cat a b => wmax a + wmax b
  | Alt a b => Nat.max (wmax a) (wmax b)
  | Times n a => n * wmax a
  | Between _ hi a => hi * wmax a
  end.

(** Every match of [r] ends at the end of the subject. *)
Fixpoint endsEol (r : re) : bool :=
  match r with
  | Eol => true
  | Cat _ b => endsEol b
  | Alt a b => endsEol a && endsEol b
  | _ => false
  end.

(** Every match of [r] starts at index 0. *)
Fixpoint startsBol (r : re) : bool :=
  match r with
  | Bol => true
  | Cat a _ => startsBol a
  | Alt a b => startsBol a && startsBol b
  | _ => false
  end.

End Regex.

(** ** Data model *)

(** A number written as a decimal literal, [mant * 10 ^ expo]. *)
Record decimal : Type := Dec { mant : Z; expo : Z }.

(** A value received in an event payload. *)
Inductive jsval : Type :=
| Undefined
| Null
| Number (d : decimal)
| Text (s : string).

Record Geo : Type := { lat : decimal; lon : decimal }.

(** The [timestamp] of an activity event is either the ISO-8601 rendering
    of an instant ([new Date(t).toISOString()], [t] in milliseconds since
    the epoch) or text taken from a page as it stands. *)
Inductive Timestamp : Type :=
| Iso (t : Z)
| Scraped (s : string).

Record ActivityEvent : Type := {
  ev_status : string;
  ev_description : option string;
  ev_location : string;
  ev_timestamp : Timestamp;
  ev_geo : option Geo
}.

Record TrackingResult : Type := {
  carrier : string;
  trackingNumber : string;
  status : string;
  estimatedDelivery : string;
  activity : list ActivityEvent
}.

Record CacheEntry : Type := { data : TrackingResult; expiry : Z }.

Record LiveUser : Type := {
  id : string;
  username : string;
  avatar : string;
  latitude : jsval;
  longitude : jsval
}.

(** [sender || { username: 'Unknown', avatar: '' }] *)
Inductive ChatUser : Type :=
| Registered (u : LiveUser)
| Placeholder (name picture : string).

Record ChatMessage : Type := {
  user : ChatUser;
  message : string;
  timestamp : Z
}.

Inductive ServerEvent : Type :=
| current_users (us : list LiveUser)
| user_joined (u : option LiveUser)   (* the value of liveUsers.get *)
| receive_location (u : LiveUser)
| receive_chat_message (m : ChatMessage)
| user_disconnected (sid : string)
| tracking_update (payload : TrackingResult).

(** Whom an emission addresses: [socket.emit], [socket.broadcast.emit],
    [io.emit]. *)
Inductive Target : Type :=
| ToSocket (sid : string)
| ToOthers (sid : string)
| ToAll.

Inductive Method : Type := GET | POST.

Record Request : Type := {
  method : Method;
  url : string;
  form : list (string * string)
}.

(** What [client.get] and [client.post] come back with: a response body or
    a thrown error with its message. *)
Inductive HttpOutcome : Type :=
| Body (text : string)
| Failed (reason : string).

(** The selectors the server queries pages with. *)
Inductive Selector : Type :=
| SignInForm      (* form[name=signIn] *)
| HiddenInputs    (* input[type=hidden] *)
| StatusText      (* .pt-status-main-status-text, span[data-testid=delivery-phase-text], ... *)
| Estimate        (* .pt-promise-main-slot .a-text-bold, ... *)
| CarrierInfo     (* .pt-shipping-card-mover-name, ... *)
| EventCardOld    (* .a-spacing-top-medium.pt-event-card *)
| EventCardNew    (* div[data-component=TrackingEventHistory] div[data-component=TrackingEvent] *)
| EventCardById   (* div[id^=tracking-event-] *)
| EventMessage    (* .pt-event-card-body-secondaryMessage, ... *)
| EventLocation   (* .pt-event-card-body-primaryMessage, ... *)
| EventTimestamp. (* .pt-event-card-body-tertiaryMessage, ... *)

(** A DOM node, seen through the queries the server makes. *)
#[local] Unset Elimination Schemes.
Inductive Element : Type :=
  Node (textContent name value : string)
       (querySelector : Selector -> option Element)
       (querySelectorAll : Selector -> list Element).

Definition textContent (e : Element) : string :=
  match e with Node t _ _ _ _ => t end.
Definition name (e : Element) : string :=
  match e with Node _ n _ _ _ => n end.
Definition value (e : Element) : string :=
  match e with Node _ _ v _ _ => v end.
Definition querySelector (e : Element) (sel : Selector) : option Element :=
  match e with Node _ _ _ q _ => q sel end.
Definition querySelectorAll (e : Element) (sel : Selector) : list Element :=
  match e with Node _ _ _ _ q => q sel end.
#[local] Set Elimination Schemes.

(** The [response] of the HTTP handler. *)
Inductive Response : Type :=
| Json (r : TrackingResult)             (* res.json(...), status 200 *)
| Error (code : Z) (error : string).    (* res.status(code).json({ error }) *)

(** ** The host

    What the server takes from its surroundings: the locale and time zone
    behind [toLocaleDateString] and [setDate], the environment variables,
    the remote site and the HTML parser. *)

Record Host : Type := {
  toLocaleDateString : Z -> string;
  (** the time value after [d.setDate(d.getDate() + 1)] *)
  setNextDate : Z -> Z;
  AMZ_USER : option string;
  AMZ_PASS : option string;
  (** the outcome of the [n]-th request the server sends *)
  http : nat -> Request -> HttpOutcome;
  (** [new JSDOM(text).window.document] *)
  JSDOM : string -> Element
}.

(** What one run of the tracking handler reads from the clock and the
    random source. *)
Record Inputs : Type := {
  random : Q;       (* Math.random() *)
  t_check : Z;      (* Date.now() in the cache test *)
  t_now : Z;        (* the strategy's first new Date() *)
  t_later : Z;      (* the strategy's second new Date() *)
  t_store : Z       (* Date.now() when the entry is stored *)
}.

(** ** The state of the server

    The three module-level variables of the source ([trackingCache],
    [liveUsers], and [amazonSessionActive], which only the later revision
    declares and which [server.js] never touches), the sockets socket.io
    holds, and three logs of what the server did: the requests it sent,
    the events it emitted, and the calls of a carrier strategy by the
    tracking handler, as (carrier, identifier). *)

Record World : Type := {
  trackingCache : gmap string CacheEntry;
  liveUsers : list (string * LiveUser);   (* a Map, in insertion order *)
  amazonSessionActive : bool;
  connected : list string;                (* the sockets socket.io holds *)
  sent : list Request;                    (* requests issued, oldest first *)
  emitted : list (Target * ServerEvent);  (* emissions, oldest first *)
  fetches : list (string * string)        (* strategy calls, oldest first *)
}.

Definition withCache (c : gmap string CacheEntry) (w : World) : World :=
  {| trackingCache := c; liveUsers := liveUsers w;
     amazonSessionActive := amazonSessionActive w; connected := connected w;
     sent := sent w; emitted := emitted w; fetches := fetches w |}.

Definition withUsers (us : list (string * LiveUser)) (w : World) : World :=
  {| trackingCache := trackingCache w; liveUsers := us;
     amazonSessionActive := amazonSessionActive w; connected := connected w;
     sent := sent w; emitted := emitted w; fetches := fetches w |}.

Definition withSession (b : bool) (w : World) : World :=
  {| trackingCache := trackingCache w; liveUsers := liveUsers w;
     amazonSessionActive := b; connected := connected w;
     sent := sent w; emitted := emitted w; fetches := fetches w |}.

Definition withConnected (cs : list string) (w : World) : World :=
  {| trackingCache := trackingCache w; liveUsers := liveUsers w;
     amazonSessionActive := amazonSessionActive w; connected := cs;
     sent := sent w; emitted := emitted w; fetches := fetches w |}.

Definition withSent (rs : list Request) (w : World) : World :=
  {| trackingCache := trackingCache w; liveUsers := liveUsers w;
     amazonSessionActive := amazonSessionActive w; connected := connected w;
     sent := rs; emitted := emitted w; fetches := fetches w |}.

Definition withEmitted (es : list (Target * ServerEvent)) (w : World) : World :=
  {| trackingCache := trackingCache w; liveUsers := liveUsers w;
     amazonSessionActive := amazonSessionActive w; connected := connected w;
     sent := sent w; emitted := es; fetches := fetches w |}.

Definition withFetches (fs : list (string * string)) (w : World) : World :=
  {| trackingCache := trackingCache w; liveUsers := liveUsers w;
     amazonSessionActive := amazonSessionActive w; connected := connected w;
     sent := sent w; emitted := emitted w; fetches := fs |}.

(** The server as it starts. *)
Definition boot : World :=
  {| trackingCache := ∅; liveUsers := []; amazonSessionActive := false;
     connected := []; sent := []; emitted := []; fetches := [] |}.

(** ** [Map], in insertion order *)

Module JsMap.
Section Ops.
Context {V : Type}.

Fixpoint get (k : string) (m : list (string * V)) : option V :=
  match m with
  | [] => None
  | (k', v) :: m' => if String.eqb k k' then Some v else get k m'
  end.

Definition has (k : string) (m : list (string * V)) : bool :=
  match get k m with Some _ => true | None => false end.

(** A key that is present keeps its place; a new key goes last. *)
Fixpoint set (k : string) (v : V) (m : list (string * V)) : list (string * V) :=
  match m with
  | [] => [(k, v)]
  | (k', v') :: m' =>
      if String.eqb k k' then (k', v) :: m' else (k', v') :: set k v m'
  end.

Fixpoint delete (k : string) (m : list (string * V)) : list (string * V) :=
  match m with
  | [] => []
  | (k', v') :: m' =>
      if String.eqb k k' then m' else (k', v') :: delete k m'
  end.

Definition values (m : list (string * V)) : list V := map snd m.

End Ops.
End JsMap.

(** ** Plain objects with string values

    The own properties of an object made from [{}] by assignments of
    strings, in the order in which the language lists them: the keys that
    are array indices first, in ascending numeric order, then the other
    keys in the order of their creation. *)

Module JsObject.

(** The number a key stands for when the key is an array index: a
    decimal numeral with no leading zero, below 2^32 - 1. *)
Definition arrayIndex (k : string) : option N :=
  match list_ascii_of_string k with
  | [] => None
  | c :: cs =>
      if forallb Js.isDigit (c :: cs)
         && (negb (Ascii.eqb c "0") || match cs with [] => true | _ :: _ => false end)
      then let n := fold_left (fun a d => (10 * a + (Js.code d - 48))%N) (c :: cs) 0%N in
           if (n <? 4294967295)%N then Some n else None
      else None
  end.

(** A new array index goes before the first key that is a greater index
    or no index. *)
Fixpoint place (n : N) (k v : string) (m : list (string * string))
    : list (string * string) :=
  match m with
  | [] => [(k, v)]
  | (k', v') :: m' =>
      match arrayIndex k' with
      | Some n' => if (n <? n')%N then (k, v) :: m else (k', v') :: place n k v m'
      | None => (k, v) :: m
      end
  end.

(** [o[k] = v] for a string [v].  The key [__proto__] reaches the setter
    of [Object.prototype], which ignores a value that is no object: no
    property is made.  A key that is present keeps its place. *)
Definition set (k v : string) (m : list (string * string)) : list (string * string) :=
  if String.eqb k "__proto__" then m
  else match arrayIndex k with
       | Some n => if JsMap.has k m then JsMap.set k v m else place n k v m
       | None => JsMap.set k v m
       end.

End JsObject.

(** ** Computations of a handler: state and exceptions

    A handler runs from its start to its end on the state of the server;
    what it writes to the console is left out. *)

Inductive Res (A : Type) : Type :=
| Return (a : A)
| Throw (message : string).
Arguments Return {A} a.
Arguments Throw {A} message.

Definition M (A : Type) : Type := World -> Res A * World.

#[global] Instance M_ret : MRet M := fun A a w => (Return a, w).
#[global] Instance M_bind : MBind M := fun A B f m w =>
  match m w with
  | (Return a, w') => f a w'
  | (Throw e, w') => (Throw e, w')
  end.

Definition throw {A : Type} (message : string) : M A :=
  fun w => (Throw message, w).

(** [try { m } catch (error) { handler(error.message) }] *)
Definition tryCatch {A : Type} (m : M A) (handler : string -> M A) : M A :=
  fun w =>
    match m w with
    | (Return a, w') => (Return a, w')
    | (Throw e, w') => handler e w'
    end.

Definition gets {A : Type} (f : World -> A) : M A := fun w => (Return (f w), w).
Definition modify (f : World -> World) : M unit := fun w => (Return tt, f w).

Definition emit (t : Target) (e : ServerEvent) : M unit :=
  modify (fun w => withEmitted (emitted w ++ [(t, e)])%list w).

(** [client.get] and [client.post]: the request goes out, the host
    answers. *)
Definition request (h : Host) (r : Request) : M string :=
  fun w =>
    let w' := withSent (sent w ++ [r])%list w in
    match http h (length (sent w)) r with
    | Body text => (Return text, w')
    | Failed reason => (Throw reason, w')
    end.

(** Which sockets an emission reaches, given the sockets connected. *)
Definition recipients (conns : list string) (t : Target) : list string :=
  match t with
  | ToSocket sid => filter (fun s => s = sid) conns
  | ToOthers sid => filter (fun s => s ≠ sid) conns
  | ToAll => conns
  end.

(** The events socket [sid] receives from a log of emissions. *)
Definition received (conns : list string) (sid : string)
    (log : list (Target * ServerEvent)) : list ServerEvent :=
  omap (fun te => if decide (sid ∈ recipients conns (fst te))
                  then Some (snd te) else None) log.

(** ** The simulated strategy

    [getGenericTracking] has the same text in both revisions. *)

Definition item (l : list string) (i : nat) : string := nth i l EmptyString.

Definition locations : list string :=
  ["Los Angeles, CA"; "Denver, CO"; "Chicago, IL"; "New York, NY"].

Definition geoCoords : list (string * Geo) :=
  [ ("Los Angeles, CA", {| lat := Dec 3405 (-2); lon := Dec (-11824) (-2) |});
    ("Denver, CO", {| lat := Dec 3973 (-2); lon := Dec (-10499) (-2) |});
    ("Chicago, IL", {| lat := Dec 4187 (-2); lon := Dec (-8762) (-2) |});
    ("New York, NY", {| lat := Dec 4071 (-2); lon := Dec (-7400) (-2) |}) ].

Definition finalLocation : string := item locations (length locations - 1)%nat.

(** [Math.random() > 0.5] *)
Definition drawDelivered (inp : Inputs) : bool :=
  negb (Qle_bool (random inp) (1 # 2)).

Definition getGenericTracking (h : Host) (inp : Inputs)
    (carrier trackingNumber : string) : TrackingResult :=
  let delivered := drawDelivered inp in
  let now := t_now inp in
  let activity :=
    [ {| ev_status := "Package received by carrier"; ev_description := None;
         ev_location := item locations 0;
         ev_timestamp := Iso (now - 3 * 24 * 3600 * 1000);
         ev_geo := JsMap.get (item locations 0) geoCoords |};
      {| ev_status := "Departed from facility"; ev_description := None;
         ev_location := item locations 1;
         ev_timestamp := Iso (now - 2 * 24 * 3600 * 1000);
         ev_geo := JsMap.get (item locations 1) geoCoords |};
      {| ev_status := "Arrived at destination hub"; ev_description := None;
         ev_location := item locations 2;
         ev_timestamp := Iso (now - 1 * 24 * 3600 * 1000);
         ev_geo := JsMap.get (item locations 2) geoCoords |} ] in
  let activity :=
    if delivered
    then (activity ++ [ {| ev_status := "Delivered"; ev_description := None;
                           ev_location := finalLocation;
                           ev_timestamp := Iso now;
                           ev_geo := JsMap.get finalLocation geoCoords |} ])%list
    else (activity ++ [ {| ev_status := "Out for delivery"; ev_description := None;
                           ev_location := finalLocation;
                           ev_timestamp := Iso now;
                           ev_geo := JsMap.get finalLocation geoCoords |} ])%list in
  {| carrier := Js.toUpperCase carrier;
     trackingNumber := trackingNumber;
     status := if delivered then "Delivered" else "In Transit";
     estimatedDelivery :=
       if delivered
       then toLocaleDateString h (t_later inp)
       else toLocaleDateString h (setNextDate h now);
     activity := rev activity |}.

(** [const CACHE_TTL = 10 * 60 * 1000] *)
Definition CACHE_TTL : Z := 10 * 60 * 1000.

(** [!process.env.X]: the variable is unset or empty. *)
Definition unset (v : option string) : bool :=
  match v with
  | None => true
  | Some s => Js.falsy s
  end.

(** The handler is about to call a carrier strategy. *)
Definition calling (carrier trackingNumber : string) : M unit :=
  modify (fun w => withFetches (fetches w ++ [(carrier, trackingNumber)])%list w).

(** ** Socket handlers that both revisions share

    [io.on('connection')] registers the handlers below for the new
    socket; each runs to its end before the next event is taken. *)

Record LocationData : Type := { data_latitude : jsval; data_longitude : jsval }.

Definition send_location (sid : string) (data : LocationData) : M unit :=
  users ← gets liveUsers;
  match JsMap.get sid users with
  | Some userData =>
      let userData :=
        {| id := id userData; username := username userData;
           avatar := avatar userData;
           latitude := data_latitude data;
           longitude := data_longitude data |} in
      _ ← modify (withUsers (JsMap.set sid userData users));
      emit (ToOthers sid) (receive_location userData)
  | None => mret tt
  end.

Definition send_chat_message (sid : string) (message : string) (now : Z) : M unit :=
  users ← gets liveUsers;
  let sender := JsMap.get sid users in
  emit ToAll (receive_chat_message
    {| user := match sender with
               | Some u => Registered u
               | None => Placeholder "Unknown" EmptyString
               end;
       message := message;
       timestamp := now |}).

(** socket.io has let go of the socket when the handler runs. *)
Definition disconnect (sid : string) : M unit :=
  _ ← modify (fun w => withConnected (filter (fun s => s ≠ sid) (connected w)) w);
  users ← gets liveUsers;
  if JsMap.has sid users
  then _ ← emit ToAll (user_disconnected sid);
       modify (withUsers (JsMap.delete sid users))
  else mret tt.

Declare Scope re_scope.
Delimit Scope re_scope with re.
Infix ">>" := Regex.Cat (at level 41, right associativity) : re_scope.

(** A range [a-b] of a character class. *)
Definition rg (a b : ascii) : ascii * ascii := (a, b).

(** * The revision of [server.js] *)

Module Server.
Import Regex.

Definition reUPS : regex :=
  RegExp (Bol >> Alt (Lit "1" >> Lit "Z") (Lit "1" >> Lit "z")
              >> Times 16 (Cls [rg "A" "Z"; rg "a" "z"; rg "0" "9"]) >> Eol)%re false.
Definition reFEDEX : regex :=
  RegExp (Bol >> Alt (Times 12 (Cls [rg "0" "9"])) (Times 15 (Cls [rg "0" "9"]))
              >> Eol)%re false.
Definition reDHL : regex :=
  RegExp (Bol >> Times 2 (Cls [rg "A" "Z"; rg "a" "z"]) >> Times 9 (Cls [rg "0" "9"])
              >> Times 2 (Cls [rg "A" "Z"; rg "a" "z"]) >> Eol)%re false.
Definition reUSPS : regex :=
  RegExp (Bol >> Lit "9" >> Cls [rg "2" "5"] >> Between 20 22 (Cls [rg "0" "9"])
              >> Eol)%re false.
Definition reAMAZON : regex :=
  RegExp (Bol >> Times 3 (Cls [rg "0" "9"; rg "A" "Z"]) >> Lit "-"
              >> Times 7 (Cls [rg "0" "9"; rg "A" "Z"]) >> Lit "-"
              >> Times 7 (Cls [rg "0" "9"; rg "A" "Z"]) >> Eol)%re false.

Definition detectCarrier (trackingNumber : string) : option string :=
  if test reUPS trackingNumber then Some "ups"
  else if test reFEDEX trackingNumber then Some "fedex"
  else if test reDHL trackingNumber then Some "dhl"
  else if test reUSPS trackingNumber then Some "usps"
  else if test reAMAZON trackingNumber then Some "amazon"
  else None.

Definition getAmazonTracking (h : Host) (inp : Inputs) (orderId : string)
    : M TrackingResult :=
  if unset (AMZ_USER h)
  then throw "Server is not configured for Amazon tracking."
  else mret (getGenericTracking h inp "amazon" orderId).

(** The choice of strategy inside the [try] block of the handler. *)
Definition dispatch (h : Host) (inp : Inputs) (carrier trackingNumber : string)
    : M TrackingResult :=
  if String.eqb carrier "amazon"
  then getAmazonTracking h inp trackingNumber
  else mret (getGenericTracking h inp carrier trackingNumber).

(** [app.post('/api/track')]; [body] is [req.body.trackingNumber]. *)
Definition track (h : Host) (inp : Inputs) (body : option string) : M Response :=
  match body with
  | None => mret (Error 400 "Tracking number is required.")
  | Some trackingNumber =>
    if Js.falsy trackingNumber
    then mret (Error 400 "Tracking number is required.")
    else
      match detectCarrier trackingNumber with
      | None =>
          mret (Error 400 ("Could not detect carrier for " ++ Js.dquote
                           ++ trackingNumber ++ Js.dquote ++ "."))
      | Some carrier =>
          let cacheKey := carrier ++ ":" ++ trackingNumber in
          let fresh : M Response :=
            tryCatch
              (_ ← calling carrier trackingNumber;
               trackingData ← dispatch h inp carrier trackingNumber;
               _ ← modify (fun w =>
                     withCache (<[cacheKey :=
                                   {| data := trackingData;
                                      expiry := t_store inp + CACHE_TTL |}]>
                                  (trackingCache w)) w);
               mret (Json trackingData))
              (fun message =>
                 mret (Error 500 (Js.orElse message
                                    "An error occurred while tracking."))) in
          cache ← gets trackingCache;
          match cache !! cacheKey with
          | Some entry =>
              if expiry entry >? t_check inp
              then mret (Json (data entry))
              else fresh
          | None => fresh
          end
      end
  end.

(** [io.on('connection')]: the socket is held from now on. *)
Definition connection (sid : string) : M unit :=
  modify (fun w => withConnected (connected w ++ [sid])%list w).

Definition join (sid username : string) : M unit :=
  let userAvatar := "https://i.pravatar.cc/40?u=" ++ sid in
  _ ← modify (fun w =>
        withUsers (JsMap.set sid {| id := sid; username := username;
                                    avatar := userAvatar;
                                    latitude := Undefined;
                                    longitude := Undefined |}
                             (liveUsers w)) w);
  users ← gets liveUsers;
  _ ← emit (ToSocket sid) (current_users (JsMap.values users));
  users ← gets liveUsers;
  emit (ToOthers sid) (user_joined (JsMap.get sid users)).

End Server.

(** * The revision with the Amazon login flow *)

Module Enhanced.
Import Regex.

Definition reUPS : regex :=
  RegExp (Bol >> Alt (Lit "1" >> Lit "Z") (Lit "1" >> Lit "z")
              >> Times 16 (Cls [rg "A" "Z"; rg "a" "z"; rg "0" "9"]) >> Eol)%re true.
Definition reFEDEX : regex :=
  RegExp (Bol >> Alt (Times 12 (Cls [rg "0" "9"])) (Times 15 (Cls [rg "0" "9"]))
              >> Eol)%re false.
Definition reDHL : regex :=
  RegExp (Bol >> Times 2 (Cls [rg "A" "Z"; rg "a" "z"]) >> Times 9 (Cls [rg "0" "9"])
              >> Times 2 (Cls [rg "A" "Z"; rg "a" "z"]) >> Eol)%re true.
Definition reUSPS : regex :=
  RegExp (Bol >> (Lit "9" >> Cls [rg "2" "5"] >> Between 20 22 (Cls [rg "0" "9"]))
              >> Eol)%re false.
Definition reAMAZON : regex :=
  RegExp (Bol >> Times 3 (Cls [rg "0" "9"; rg "A" "Z"]) >> Lit "-"
              >> Times 7 (Cls [rg "0" "9"; rg "A" "Z"]) >> Lit "-"
              >> Times 7 (Cls [rg "0" "9"; rg "A" "Z"]) >> Eol)%re true.

Definition detectCarrier (trackingNumber : string) : option string :=
  if test reUPS trackingNumber then Some "ups"
  else if test reFEDEX trackingNumber then Some "fedex"
  else if test reDHL trackingNumber then Some "dhl"
  else if test reUSPS trackingNumber then Some "usps"
  else if test reAMAZON trackingNumber then Some "amazon"
  else None.

Definition signInUrl : string := "https://www.amazon.com/ap/signin".
Definition orderHistoryUrl : string := "https://www.amazon.com/gp/css/order-history".
Definition orderDetailsUrl : string :=
  "https://www.amazon.com/gp/your-account/order-details/ref=ppx_yo_dt_b_order_details?orderID=".

Definition httpGet (u : string) : Request :=
  {| method := GET; url := u; form := [] |}.
Definition httpPost (u : string) (formData : list (string * string)) : Request :=
  {| method := POST; url := u; form := formData |}.

Definition mfaMessage : string :=
  "Amazon MFA/OTP required. Automated login with OTP is complex and not implemented in this demo. Please resolve on Amazon's website.".
Definition captchaMessage : string :=
  "Amazon Captcha challenge. Please resolve on Amazon's website.".

(** [extractHiddenInputs]; on [null] the property access throws a
    [TypeError], here with the message of V8.  [data] is a plain object,
    and so are the form data made from it: their fields are set as the
    properties of an object are. *)
Definition extractHiddenInputs (currentForm : option Element)
    : M (list (string * string)) :=
  match currentForm with
  | None => throw "Cannot read properties of null (reading 'querySelectorAll')"
  | Some f =>
      mret (fold_left
              (fun data input =>
                 if Js.falsy (name input) then data
                 else JsObject.set (name input) (value input) data)
              (querySelectorAll f HiddenInputs) [])
  end.

(** Step 1 of the login: the sign-in form, looked for on the sign-in
    page and then on the order history page. *)
Definition loginForm (h : Host) : M (option Element) :=
  response ← request h (httpGet signInUrl);
  match querySelector (JSDOM h response) SignInForm with
  | Some f => mret (Some f)
  | None =>
      response ← request h (httpGet orderHistoryUrl);
      match querySelector (JSDOM h response) SignInForm with
      | Some f => mret (Some f)
      | None => throw "Could not find Amazon login form (initial attempt)."
      end
  end.

(** What the answer to the email says when it carries no sign-in form. *)
Definition intermediatePage (response : string) : M unit :=
  if Js.includes response "Enter your password" then mret tt
  else if Js.includes response "auth-mfa-otpcode" then throw mfaMessage
  else if Js.includes response "/errors/validateCaptcha" then throw captchaMessage
  else throw "Amazon login flow changed or encountered an unexpected page after email submission.".

Definition emailForm (h : Host) (form : option Element) : M (list (string * string)) :=
  formData ← extractHiddenInputs form;
  let formData := JsObject.set "email" (default EmptyString (AMZ_USER h)) formData in
  mret (JsObject.set "create" "0" formData).

Definition passwordForm (h : Host) (form : option Element) : M (list (string * string)) :=
  formData ← extractHiddenInputs form;
  let formData := JsObject.set "password" (default EmptyString (AMZ_PASS h)) formData in
  mret (JsObject.set "rememberMe" "true" formData).

(** Steps 2 and 3 of the login: the email, the password, and the check
    that an authenticated page opens. *)
Definition submit (h : Host) (form : option Element) : M bool :=
  formData ← emailForm h form;
  response ← request h (httpPost signInUrl formData);
  let form := querySelector (JSDOM h response) SignInForm in
  _ ← match form with
      | Some _ => mret tt
      | None => intermediatePage response
      end;
  formData ← passwordForm h form;
  _ ← request h (httpPost signInUrl formData);
  response ← request h (httpGet orderHistoryUrl);
  if Js.includes response "redirectGet" || Js.includes response "/ap/signin"
  then _ ← modify (withSession false);
       throw "Amazon login failed. Check credentials or solve potential Captcha/MFA on Amazon's website."
  else _ ← modify (withSession true);
       mret true.

(** The body of the [try] block of [ensureAmazonSession]. *)
Definition login (h : Host) : M bool :=
  form ← loginForm h;
  submit h form.

(** The process-wide [amazonSessionActive] is the field of that name of
    the state. *)
Definition ensureAmazonSession (h : Host) : M bool :=
  active ← gets amazonSessionActive;
  if active : bool then mret true
  else if unset (AMZ_USER h) || unset (AMZ_PASS h)
  then throw "Amazon credentials (AMZ_USER, AMZ_PASS) not configured in .env file."
  else
    tryCatch (login h)
      (fun message =>
         _ ← modify (withSession false);
         throw ("Amazon login process failed: " ++ message)).

Definition geocodeLocation (locationString : string) : option Geo :=
  if Js.falsy locationString then None
  else if Js.includes (Js.toLowerCase locationString) "los angeles"
  then Some {| lat := Dec 3405 (-2); lon := Dec (-11824) (-2) |}
  else if Js.includes (Js.toLowerCase locationString) "chicago"
  then Some {| lat := Dec 4187 (-2); lon := Dec (-8762) (-2) |}
  else if Js.includes (Js.toLowerCase locationString) "new york"
  then Some {| lat := Dec 4071 (-2); lon := Dec (-7400) (-2) |}
  else if Js.includes (Js.toLowerCase locationString) "memphis"
  then Some {| lat := Dec 351495 (-4); lon := Dec (-900490) (-4) |}
  else None.

(** [e?.textContent.trim() || fallback] *)
Definition textOr (e : option Element) (fallback : string) : string :=
  match e with
  | Some x => Js.orElse (Js.trim (textContent x)) fallback
  | None => fallback
  end.

Definition eventSelectors : list Selector :=
  [EventCardOld; EventCardNew; EventCardById].

(** The loop over [eventSelectors]: the first selector that finds nodes
    wins. *)
Fixpoint findEventNodes (document : Element) (selectors : list Selector)
    : list Element :=
  match selectors with
  | [] => []
  | selector :: more =>
      match querySelectorAll document selector with
      | [] => findEventNodes document more
      | eventNodes => eventNodes
      end
  end.

Definition readEvent (eventCard : Element) : ActivityEvent :=
  let description :=
    textOr (querySelector eventCard EventMessage) "Event details missing" in
  let location := textOr (querySelector eventCard EventLocation) EmptyString in
  let timestamp := textOr (querySelector eventCard EventTimestamp) EmptyString in
  {| ev_status := Js.orElse location description;
     ev_description := Some description;
     ev_location := location;
     ev_timestamp := Scraped timestamp;
     ev_geo := geocodeLocation location |}.

Definition getAmazonTrackingWithLogin (h : Host) (inp : Inputs) (orderId : string)
    : M TrackingResult :=
  _ ← ensureAmazonSession h;
  response ← request h (httpGet (orderDetailsUrl ++ orderId));
  let document := JSDOM h response in
  let statusText :=
    match querySelector document StatusText with
    | Some statusElement => Js.trim (textContent statusElement)
    | None => "Status not found"
    end in
  let deliveryEstimate :=
    match querySelector document Estimate with
    | Some estimateElement => Js.trim (textContent estimateElement)
    | None => "N/A"
    end in
  let carrierName :=
    match querySelector document CarrierInfo with
    | Some carrierInfoElement => Js.trim (textContent carrierInfoElement)
    | None => "Amazon Logistics"
    end in
  let eventNodes := findEventNodes document eventSelectors in
  let activity := map readEvent eventNodes in
  mret {| carrier := carrierName;
          trackingNumber := orderId;
          status := statusText;
          estimatedDelivery := deliveryEstimate;
          activity :=
            if (0 <? length activity)%nat
            then rev activity
            else [ {| ev_status := statusText;
                      ev_description := Some ("Current status: " ++ statusText);
                      ev_location := EmptyString;
                      ev_timestamp := Iso (t_now inp);
                      ev_geo := None |} ] |}.

(** The choice of strategy inside the [try] block of the handler. *)
Definition dispatch (h : Host) (inp : Inputs) (carrier trackingNumber : string)
    : M TrackingResult :=
  if String.eqb carrier "amazon"
  then getAmazonTrackingWithLogin h inp trackingNumber
  else mret (getGenericTracking h inp carrier trackingNumber).

(** [app.post('/api/track')]; [body] is [req.body.trackingNumber].  The
    payload of [tracking_update] spreads the result after the two leading
    keys, so the result's own [trackingNumber] and [carrier] are the ones
    sent: the payload has the fields of the result. *)
Definition track (h : Host) (inp : Inputs) (body : option string) : M Response :=
  match body with
  | None => mret (Error 400 "Tracking number is required.")
  | Some trackingNumber =>
    if Js.falsy trackingNumber
    then mret (Error 400 "Tracking number is required.")
    else
      match detectCarrier trackingNumber with
      | None =>
          mret (Error 400 ("Could not detect carrier for " ++ Js.dquote
                           ++ trackingNumber ++ Js.dquote ++ "."))
      | Some carrier =>
          let cacheKey := carrier ++ ":" ++ trackingNumber in
          let fresh : M Response :=
            tryCatch
              (_ ← calling carrier trackingNumber;
               trackingData ← dispatch h inp carrier trackingNumber;
               _ ← modify (fun w =>
                     withCache (<[cacheKey :=
                                   {| data := trackingData;
                                      expiry := t_store inp + CACHE_TTL |}]>
                                  (trackingCache w)) w);
               _ ← emit ToAll (tracking_update trackingData);
               mret (Json trackingData))
              (fun message =>
                 mret (Error 500 (Js.orElse message
                                    "An error occurred while tracking."))) in
          cache ← gets trackingCache;
          match cache !! cacheKey with
          | Some entry =>
              if expiry entry >? t_check inp
              then mret (Json (data entry))
              else fresh
          | None => fresh
          end
      end
  end.

(** [io.on('connection')]: the socket is held from now on and is sent
    the users registered so far. *)
Definition connection (sid : string) : M unit :=
  _ ← modify (fun w => withConnected (connected w ++ [sid])%list w);
  users ← gets liveUsers;
  emit (ToSocket sid) (current_users (JsMap.values users)).

Definition join (sid username : string) : M unit :=
  let userAvatar := "https://i.pravatar.cc/40?u=" ++ sid in
  _ ← modify (fun w =>
        withUsers (JsMap.set sid {| id := sid; username := username;
                                    avatar := userAvatar;
                                    latitude := Null;
                                    longitude := Null |}
                             (liveUsers w)) w);
  users ← gets liveUsers;
  emit (ToOthers sid) (user_joined (JsMap.get sid users)).

End Enhanced.

(** * Notions the statements use *)

(** The rules of [detectCarrier], in the order of its tests. *)
Definition serverRules : list (Regex.regex * string) :=
  [ (Server.reUPS, "ups"); (Server.reFEDEX, "fedex"); (Server.reDHL, "dhl");
    (Server.reUSPS, "usps"); (Server.reAMAZON, "amazon") ].

Definition enhancedRules : list (Regex.regex * string) :=
  [ (Enhanced.reUPS, "ups"); (Enhanced.reFEDEX, "fedex"); (Enhanced.reDHL, "dhl");
    (Enhanced.reUSPS, "usps"); (Enhanced.reAMAZON, "amazon") ].

(** The pattern is of the form [^...$]. *)
Definition anchored (r : Regex.regex) : bool :=
  Regex.startsBol (Regex.source r) && Regex.endsEol (Regex.source r).

(** The pattern has a match that starts at index 0 of [s] and leaves
    nothing of it. *)
Definition matchesWhole (r : Regex.regex) (s : string) : bool :=
  Regex.run (Regex.ignoreCase r) (Regex.source r)
    (fun sub => match snd sub with [] => true | _ :: _ => false end)
    (0%nat, list_ascii_of_string s).

(** The tag of the first rule, in order, whose pattern matches. *)
Definition firstMatch (rules : list (Regex.regex * string)) (s : string)
    : option string :=
  snd <$> List.find (fun rt => Regex.test (fst rt) s) rules.

(** [i] is the first rule of [rules] that matches [s], and its tag is [t]. *)
Definition firstRule (rules : list (Regex.regex * string)) (s : string)
    (i : nat) (t : string) : Prop :=
  (∃ r, rules !! i = Some (r, t) ∧ Regex.test r s = true) ∧
  ∀ j r' t', (j < i)%nat → rules !! j = Some (r', t') → Regex.test r' s = false.

Definition chars (s : string) : list ascii := list_ascii_of_string s.

(** [n] decimal digits. *)
Definition digits (n : nat) (s : string) : bool :=
  Nat.eqb (length (chars s)) n && forallb Js.isDigit (chars s).

(** The shape XXX-XXXXXXX-XXXXXXX, where X is a character that [p] admits:
    nineteen characters, hyphens at the indices 3 and 11. *)
Definition dashed (p : ascii -> bool) (cs : list ascii) : bool :=
  Nat.eqb (length cs) 19 &&
  forallb (fun ic => if Nat.eqb (fst ic) 3 || Nat.eqb (fst ic) 11
                     then Ascii.eqb (snd ic) "-"
                     else p (snd ic))
          (imap pair cs).

(** The shape with X a letter of either case or a digit. *)
Definition amazonShape (s : string) : bool := dashed Js.isAlnum (chars s).

(** What a successful run of the matcher consumed. *)
Definition spans (lo hi : nat) (k : Regex.cont) (sub : Regex.subject) (m : nat) : Prop :=
  (lo ≤ m ≤ hi)%nat ∧ (m ≤ length (snd sub))%nat ∧
  k ((fst sub + m)%nat, drop m (snd sub)) = true.

(** Detection by ordered rules, as the specification words it: the five
    rules in their order, each a pattern for the whole identifier; the tag
    of the first rule that matches, nothing when none does; and the six
    examples. *)
Definition detectsByFirstMatch (detect : string -> option string)
    (rules : list (Regex.regex * string)) : Prop :=
  snd <$> rules = ["ups"; "fedex"; "dhl"; "usps"; "amazon"] ∧
  (∀ r t, (r, t) ∈ rules → ∀ s, Regex.test r s = matchesWhole r s) ∧
  (∀ s t, detect s = Some t ↔ ∃ i, firstRule rules s i t) ∧
  (∀ s, detect s = None ↔ ∀ r t, (r, t) ∈ rules → Regex.test r s = false) ∧
  detect "1Z12345678901234AB" = Some "ups" ∧
  (∀ s, digits 12 s = true → detect s = Some "fedex") ∧
  detect "AB123456789CD" = Some "dhl" ∧
  (∀ s, digits 22 s = true → Js.prefixOf "92" s = true → detect s = Some "usps") ∧
  detect "ABC-1234567-1234567" = Some "amazon" ∧
  detect "not-a-code" = None.

Definition hasLower (s : string) : bool := existsb Js.isLower (chars s).

(** A letter of either case. *)
Definition isLetter (c : ascii) : bool := Js.isUpper c || Js.isLower c.

(** The five rules as the specification words them (4.1), each a test on
    the characters of the identifier. *)

(** UPS: "1Z", the Z in either case, then exactly 16 alphanumeric
    characters. *)
Definition upsRule (s : string) : bool :=
  match chars s with
  | c1 :: c2 :: rest =>
      Ascii.eqb c1 "1" && (Ascii.eqb c2 "Z" || Ascii.eqb c2 "z")
      && Nat.eqb (length rest) 16 && forallb Js.isAlnum rest
  | _ => false
  end.

(** FEDEX: exactly 12 or exactly 15 decimal digits. *)
Definition fedexRule (s : string) : bool := digits 12 s || digits 15 s.

(** DHL: 2 letters, 9 digits, 2 letters. *)
Definition dhlRule (s : string) : bool :=
  let cs := chars s in
  Nat.eqb (length cs) 13 && forallb isLetter (take 2 cs)
  && forallb Js.isDigit (take 9 (drop 2 cs)) && forallb isLetter (drop 11 cs).

(** USPS: the digit 9, a digit from 2 to 5, then 20 to 22 more digits. *)
Definition uspsRule (s : string) : bool :=
  match chars s with
  | c1 :: c2 :: rest =>
      Ascii.eqb c1 "9" && Js.between "2" "5" c2
      && (20 <=? length rest)%nat && (length rest <=? 22)%nat
      && forallb Js.isDigit rest
  | _ => false
  end.

(** AMAZON: the shape XXX-XXXXXXX-XXXXXXX; [anyCase] says whether X may be
    a lower-case letter. *)
Definition amazonRule (anyCase : bool) (s : string) : bool :=
  amazonShape s && (anyCase || negb (hasLower s)).

Definition wordedRules (anyCase : bool) : list ((string -> bool) * string) :=
  [ (upsRule, "ups"); (fedexRule, "fedex"); (dhlRule, "dhl"); (uspsRule, "usps");
    (amazonRule anyCase, "amazon") ].

(** The tag of the first worded rule, in order, that the identifier
    meets. *)
Definition detectWorded (anyCase : bool) (s : string) : option string :=
  snd <$> List.find (fun rt => fst rt s) (wordedRules anyCase).

(** Pattern by pattern, [rules] accept what the worded rules accept, under
    the same tags. *)
Definition rulesAccept (rules : list (Regex.regex * string))
    (worded : list ((string -> bool) * string)) : Prop :=
  Forall2 (fun rt wt => snd rt = snd wt ∧ ∀ s, Regex.test (fst rt) s = fst wt s)
          rules worded.

(** What follows [^] in the AMAZON pattern of either revision. *)
Definition amazonBody : Regex.re :=
  (Regex.Times 3 (Regex.Cls [rg "0" "9"; rg "A" "Z"]) >> Regex.Lit "-"
   >> Regex.Times 7 (Regex.Cls [rg "0" "9"; rg "A" "Z"]) >> Regex.Lit "-"
   >> Regex.Times 7 (Regex.Cls [rg "0" "9"; rg "A" "Z"]) >> Regex.Eol)%re.

(** The instants of the events of an activity, in the order of the list. *)
Definition instants (l : list ActivityEvent) : list Z :=
  omap (fun e => match ev_timestamp e with Iso t => Some t | Scraped _ => None end) l.

Fixpoint ascending (l : list Z) : bool :=
  match l with
  | a :: (b :: _) as l' => (a <=? b) && ascending l'
  | _ => true
  end.

Fixpoint descending (l : list Z) : bool :=
  match l with
  | a :: (b :: _) as l' => (b <? a) && descending l'
  | _ => true
  end.

Definition day : Z := 24 * 3600 * 1000.

(** What a reader of the cache finds under [key] at time [t]. *)
Definition cached (w : World) (key : string) (t : Z) : option TrackingResult :=
  match trackingCache w !! key with
  | Some entry => if expiry entry >? t then Some (data entry) else None
  | None => None
  end.

(** The event the Amazon strategy makes up from a status text. *)
Definition synthesized (statusText : string) (now : Z) : ActivityEvent :=
  {| ev_status := statusText;
     ev_description := Some ("Current status: " ++ statusText);
     ev_location := EmptyString;
     ev_timestamp := Iso now;
     ev_geo := None |}.

(** The status text of a page: [Some] text when the page has a status
    element, [None] when it has none. *)
Definition pageStatus (document : Element) : option string :=
  (fun e => Js.trim (textContent e)) <$> querySelector document StatusText.

(** The events [log'] adds to [log]. *)
Definition news {A : Type} (log log' : list A) : list A := drop (length log) log'.

(** What socket [sid] receives while the server goes from [w] to [w']. *)
Definition inbox (w w' : World) (sid : string) : list ServerEvent :=
  received (connected w') sid (news (emitted w) (emitted w')).

(** The record [join] stores; [coordinate] is what it holds for the
    position: nothing in [server.js], [null] in the other revision. *)
Definition joined (coordinate : jsval) (sid username : string) : LiveUser :=
  {| id := sid; username := username;
     avatar := "https://i.pravatar.cc/40?u=" ++ sid;
     latitude := coordinate; longitude := coordinate |}.

(** The event [getGenericTracking] appends as the fourth. *)
Definition fourthStop (delivered : bool) (now : Z) : ActivityEvent :=
  {| ev_status := if delivered then "Delivered" else "Out for delivery";
     ev_description := None;
     ev_location := "New York, NY";
     ev_timestamp := Iso now;
     ev_geo := Some {| lat := Dec 4071 (-2); lon := Dec (-7400) (-2) |} |}.

(** From [w] to [w'] only the session flag and the log of requests may
    have changed. *)
Definition quiet (w w' : World) : Prop :=
  trackingCache w' = trackingCache w ∧ liveUsers w' = liveUsers w ∧
  connected w' = connected w ∧ emitted w' = emitted w ∧ fetches w' = fetches w ∧
  ∃ more, sent w' = (sent w ++ more)%list.

(** A computation whose first request is [r]. *)
Definition starts {A : Type} (r : Request) (m : M A) : Prop :=
  ∀ w, ∃ more, sent (snd (m w)) = (sent w ++ r :: more)%list.

(** The message of the failure a challenge page leads to. *)
Definition challengeMessage (response : string) : string :=
  if Js.includes response "auth-mfa-otpcode"
  then Enhanced.mfaMessage
  else Enhanced.captchaMessage.

(** The status text the Amazon strategy works with: that of the page, or
    a fixed text when the page has none. *)
Definition statusOr (document : Element) : string :=
  default "Status not found" (pageStatus document).

(** A computation that leaves the cache, the registry and the logs of
    emissions and strategy calls alone. *)
Definition keeps {A : Type} (m : M A) : Prop := ∀ w, quiet w (snd (m w)).

(** The text the handler answers with when an error has no message. *)
Definition fallbackText : string := "An error occurred while tracking.".

(** A failure of the strategy with message [m] reaches the caller with
    status 500 and with [m] as it is, or with the handler's own text when
    [m] is empty; nothing is stored and nothing is emitted. *)
Definition failurePropagates
    (detect : string -> option string)
    (dispatch : Host -> Inputs -> string -> string -> M TrackingResult)
    (track : Host -> Inputs -> option string -> M Response) : Prop :=
  ∀ (h : Host) (inp : Inputs) (tn c : string) (w w' : World) (m : string),
    Js.falsy tn = false →
    detect tn = Some c →
    cached w (c ++ ":" ++ tn) (t_check inp) = None →
    dispatch h inp c tn (snd (calling c tn w)) = (Throw m, w') →
    ∃ w'', track h inp (Some tn) w
           = (Return (Error 500 (if Js.falsy m then fallbackText else m)), w'') ∧
           trackingCache w'' = trackingCache w ∧
           emitted w'' = emitted w ∧
           fetches w'' = (fetches w ++ [(c, tn)])%list.

(** Three calls for one identifier: a first one that misses and whose
    strategy succeeds with [r], a second one before the entry expires, a
    third one once it has expired.  [broadcast r] is what the first call
    emits. *)
Definition cachesFor
    (detect : string -> option string)
    (dispatch : Host -> Inputs -> string -> string -> M TrackingResult)
    (track : Host -> Inputs -> option string -> M Response)
    (broadcast : TrackingResult -> list (Target * ServerEvent)) : Prop :=
  ∀ (h : Host) (inp1 inp2 inp3 : Inputs) (tn c : string) (w w' : World)
    (r : TrackingResult),
    Js.falsy tn = false →
    detect tn = Some c →
    cached w (c ++ ":" ++ tn) (t_check inp1) = None →
    dispatch h inp1 c tn (snd (calling c tn w)) = (Return r, w') →
    t_check inp2 < t_store inp1 + CACHE_TTL →
    t_store inp1 + CACHE_TTL ≤ t_check inp3 →
    ∃ w1,
      track h inp1 (Some tn) w = (Return (Json r), w1) ∧
      fetches w1 = (fetches w ++ [(c, tn)])%list ∧
      emitted w1 = (emitted w ++ broadcast r)%list ∧
      track h inp2 (Some tn) w1 = (Return (Json r), w1) ∧
      cached w1 (c ++ ":" ++ tn) (t_check inp3) = None ∧
      fetches (snd (track h inp3 (Some tn) w1)) = (fetches w1 ++ [(c, tn)])%list ∧
      emitted (snd (track h inp2 (Some tn) w1)) = emitted w1.

(** * A host for the examples: locale en-US, time zone UTC *)

(** Year, month and day of a day number counted from 1970-01-01. *)
Definition civil (z : Z) : Z * Z * Z :=
  let z := z + 719468 in
  let era := z / 146097 in
  let doe := z - era * 146097 in
  let yoe := (doe - doe / 1460 + doe / 36524 - doe / 146096) / 365 in
  let doy := doe - (365 * yoe + yoe / 4 - yoe / 100) in
  let mp := (5 * doy + 2) / 153 in
  let d := doy - (153 * mp + 2) / 5 + 1 in
  let m := if mp <? 10 then mp + 3 else mp - 9 in
  let y := yoe + era * 400 + (if m <=? 2 then 1 else 0) in
  (y, m, d).

Definition usDate (t : Z) : string :=
  let '(y, m, d) := civil (t / day) in
  pretty m ++ "/" ++ pretty d ++ "/" ++ pretty y.

Definition emptyNode : Element :=
  Node EmptyString EmptyString EmptyString (fun _ => None) (fun _ => []).

Definition textNode (t : string) : Element :=
  Node t EmptyString EmptyString (fun _ => None) (fun _ => []).

(** A small parser: a page has a sign-in form when its text names one,
    and a status element, reading Shipped between blanks, when its text
    says Shipped. *)
Definition toyDOM (text : string) : Element :=
  Node text EmptyString EmptyString
    (fun sel =>
       match sel with
       | SignInForm => if Js.includes text "name=signIn" then Some emptyNode else None
       | StatusText => if Js.includes text "Shipped" then Some (textNode " Shipped ") else None
       | _ => None
       end)
    (fun _ => []).

(** No credentials, no network. *)
Definition utcHost : Host :=
  {| toLocaleDateString := usDate;
     setNextDate := fun t => t + day;
     AMZ_USER := None;
     AMZ_PASS := None;
     http := fun _ _ => Failed "getaddrinfo ENOTFOUND www.amazon.com";
     JSDOM := toyDOM |}.

(** Credentials, and a remote site that answers the requests in order from
    a script. *)
Definition scriptedHost (script : list HttpOutcome) : Host :=
  {| toLocaleDateString := usDate;
     setNextDate := fun t => t + day;
     AMZ_USER := Some "user@example.com";
     AMZ_PASS := Some "secret";
     http := fun n _ => nth n script (Failed "socket hang up");
     JSDOM := toyDOM |}.

(** 2026-01-15T12:00:00Z and the readings of a run that starts then. *)
Definition noon : Z := 1768478400000.

Definition inputsAt (t : Z) (r : Q) : Inputs :=
  {| random := r; t_check := t; t_now := t + 1; t_later := t + 2; t_store := t + 3 |}.

Definition withActiveSession : World := withSession true boot.

(** A login that meets an MFA challenge, then one that goes through. *)
Definition mfaThenOk : list HttpOutcome :=
  [ Body "<form name=signIn>";
    Body "<input id=auth-mfa-otpcode>";
    Body "<form name=signIn>";
    Body "<form name=signIn> Enter your password";
    Body "redirecting";
    Body "Your Orders" ].

Definition captchaScript : list HttpOutcome :=
  [ Body "<form name=signIn>";
    Body "<a href=/errors/validateCaptcha>" ].

(** * Notions of the further properties *)

(** The lengths an identifier with tag [t] can have. *)
Definition tagLengths (t : string) : list nat :=
  (if String.eqb t "ups" then [18]
   else if String.eqb t "fedex" then [12; 15]
   else if String.eqb t "dhl" then [13]
   else if String.eqb t "usps" then [22; 23; 24]
   else if String.eqb t "amazon" then [19]
   else [])%nat.

(** Under flag [i'] the tests of [r] say of a character what they say
    under flag [i] of its image by [f]. *)
Fixpoint agree (i i' : bool) (f : ascii -> ascii) (r : Regex.re) : Prop :=
  match r with
  | Regex.Bol | Regex.Eol => True
  | Regex.Lit c => ∀ x, Regex.sameChar i c (f x) = Regex.sameChar i' c x
  | Regex.Cls rs => ∀ x, Regex.inClass i rs (f x) = Regex.inClass i' rs x
  | Regex.Cat a b | Regex.Alt a b => agree i i' f a ∧ agree i i' f b
  | Regex.Times _ a | Regex.Between _ _ a => agree i i' f a
  end.

(** The tags [detectCarrier] gives. *)
Definition tags : list string := ["ups"; "fedex"; "dhl"; "usps"; "amazon"].

(** A body the tracking handler turns away: no identifier, an empty one,
    or one whose carrier is not detected. *)
Definition rejected (detect : string -> option string) (body : option string) : Prop :=
  match body with
  | None => True
  | Some tn => Js.falsy tn = true ∨ detect tn = None
  end.

(** The HTTP status of an answer, and the text of its [error] field. *)
Definition statusCode (resp : Response) : Z :=
  match resp with
  | Json _ => 200
  | Error code _ => code
  end.

Definition errorText (resp : Response) : option string :=
  match resp with
  | Json _ => None
  | Error _ e => Some e
  end.

(** Every entry of the cache lies under the key made of a tag and of the
    identifier its result carries, and its result has an event. *)
Definition cacheSound (w : World) : Prop :=
  ∀ key e, trackingCache w !! key = Some e →
    (∃ c, c ∈ tags ∧ key = c ++ ":" ++ trackingNumber (data e)) ∧
    activity (data e) ≠ [].

(** The four ways a run of the tracking handler ends, for a handler that
    detects with [detect], fetches with [dispatch] and emits [broadcast r]
    once it has stored a fresh result [r]. *)
Section TrackOutcome.
Variable detect : string -> option string.
Variable dispatch : Host -> Inputs -> string -> string -> M TrackingResult.
Variable broadcast : TrackingResult -> list (Target * ServerEvent).
Variables (h : Host) (inp : Inputs) (body : option string) (w : World).

Inductive trackOutcome : Res Response * World -> Prop :=
| TurnedAway (msg : string) :
    rejected detect body → msg ≠ EmptyString →
    trackOutcome (Return (Error 400 msg), w)
| FromCache (tn c : string) (e : CacheEntry) :
    body = Some tn → Js.falsy tn = false → detect tn = Some c →
    trackingCache w !! (c ++ ":" ++ tn) = Some e → t_check inp < expiry e →
    trackOutcome (Return (Json (data e)), w)
| Fetched (tn c : string) (r : TrackingResult) (w1 : World) :
    body = Some tn → Js.falsy tn = false → detect tn = Some c →
    cached w (c ++ ":" ++ tn) (t_check inp) = None →
    dispatch h inp c tn (snd (calling c tn w)) = (Return r, w1) →
    trackOutcome
      (Return (Json r),
       withEmitted (emitted w1 ++ broadcast r)%list
         (withCache (<[c ++ ":" ++ tn :=
                        {| data := r; expiry := t_store inp + CACHE_TTL |}]>
                       (trackingCache w1)) w1))
| Faulted (tn c m : string) (w1 : World) :
    body = Some tn → Js.falsy tn = false → detect tn = Some c →
    cached w (c ++ ":" ++ tn) (t_check inp) = None →
    dispatch h inp c tn (snd (calling c tn w)) = (Throw m, w1) →
    trackOutcome (Return (Error 500 (Js.orElse m fallbackText)), w1).

End TrackOutcome.

(** The requests a computation adds to the log: at most [n], each with
    [P]. *)
Definition sends {A : Type} (n : nat) (P : Request -> Prop) (m : M A) : Prop :=
  ∀ w, ∃ more, sent (snd (m w)) = (sent w ++ more)%list ∧
               (length more ≤ n)%nat ∧ Forall P more.

(** The requests of a login: for the sign-in page, for the order history,
    or a form posted to the sign-in page. *)
Definition loginRequest (r : Request) : Prop :=
  r = Enhanced.httpGet Enhanced.signInUrl ∨
  r = Enhanced.httpGet Enhanced.orderHistoryUrl ∨
  (method r = POST ∧ url r = Enhanced.signInUrl).

(** The requests of the Amazon strategy for the order [orderId]. *)
Definition amazonRequest (orderId : string) (r : Request) : Prop :=
  loginRequest r ∨ r = Enhanced.httpGet (Enhanced.orderDetailsUrl ++ orderId).

(** The messages of [ensureAmazonSession]. *)
Definition credentialsMessage : string :=
  "Amazon credentials (AMZ_USER, AMZ_PASS) not configured in .env file.".
Definition loginPrefix : string := "Amazon login process failed: ".
Definition verificationMessage : string :=
  "Amazon login failed. Check credentials or solve potential Captcha/MFA on Amazon's website.".
Definition nullFormMessage : string :=
  "Cannot read properties of null (reading 'querySelectorAll')".

(** The avatar [join] makes for a socket. *)
Definition avatarOf (sid : string) : string := "https://i.pravatar.cc/40?u=" ++ sid.

(** The registry holds no key twice, and under a key a record with that
    key as its id and with the avatar made from it. *)
Definition registryOk (users : list (string * LiveUser)) : Prop :=
  NoDup users.*1 ∧ ∀ k u, (k, u) ∈ users → id u = k ∧ avatar u = avatarOf k.

(** Every registered user is a connected socket. *)
Definition present (w : World) : Prop :=
  ∀ k, k ∈ (liveUsers w).*1 → k ∈ connected w.

(** What a socket makes the server run: the connection itself, then the
    events the handlers of [io.on('connection')] are registered for. *)
Inductive SocketEvent : Type :=
| Connect
| Join (username : string)
| SendLocation (data : LocationData)
| SendChat (message : string) (now : Z)
| Disconnect.

Definition serverHandle (sid : string) (e : SocketEvent) : M unit :=
  match e with
  | Connect => Server.connection sid
  | Join username => Server.join sid username
  | SendLocation data => send_location sid data
  | SendChat message now => send_chat_message sid message now
  | Disconnect => disconnect sid
  end.

Definition enhancedHandle (sid : string) (e : SocketEvent) : M unit :=
  match e with
  | Connect => Enhanced.connection sid
  | Join username => Enhanced.join sid username
  | SendLocation data => send_location sid data
  | SendChat message now => send_chat_message sid message now
  | Disconnect => disconnect sid
  end.

(** The state after the events [es], each with the socket it comes
    from, handled one after the other. *)
Definition after (handle : string -> SocketEvent -> M unit)
    (es : list (string * SocketEvent)) (w : World) : World :=
  fold_left (fun w e => snd (handle (fst e) (snd e) w)) es w.

(** socket.io delivers the events of a socket between its connection and
    its disconnection. *)
Fixpoint lawful (handle : string -> SocketEvent -> M unit)
    (es : list (string * SocketEvent)) (w : World) : Prop :=
  match es with
  | [] => True
  | (sid, e) :: es' =>
      (match e with Connect => sid ∉ connected w | _ => sid ∈ connected w end) ∧
      lawful handle es' (snd (handle sid e w))
  end.

(** The record of a user after a position has come. *)
Definition located (u : LiveUser) (data : LocationData) : LiveUser :=
  {| id := id u; username := username u; avatar := avatar u;
     latitude := data_latitude data; longitude := data_longitude data |}.

(** The string has ASCII characters only.  On such strings the case
    mappings of the embedding are those of JavaScript. *)
Definition isAscii (s : string) : bool :=
  forallb (fun c => (Js.code c <? 128)%N) (chars s).

(** The names [extractHiddenInputs] makes a field of: not the empty
    name, which the source leaves out, and not [__proto__], which makes no
    property. *)
Definition fieldName (k : string) : bool :=
  negb (Js.falsy k) && negb (String.eqb k "__proto__").

(** The order in which the language lists the keys of an object: an
    array index is not above the array indices after it, and no array
    index comes after another key. *)
Fixpoint ownKeyOrder (keys : list string) : Prop :=
  match keys with
  | [] => True
  | k :: rest =>
      match JsObject.arrayIndex k with
      | Some n => Forall (fun k' => match JsObject.arrayIndex k' with
                                    | Some n' => (n ≤ n')%N
                                    | None => True
                                    end) rest
      | None => Forall (fun k' => JsObject.arrayIndex k' = None) rest
      end ∧ ownKeyOrder rest
  end.

(** The elements of a list that are not in [seen], each once, in the
    order of their first appearance. *)
Fixpoint firsts (seen l : list string) : list string :=
  match l with
  | [] => []
  | x :: l' => if decide (x ∈ seen) then firsts seen l' else x :: firsts (x :: seen) l'
  end.

(** What the handler finds in [req.body]: nothing, when no parser took
    the request, or an object, of which it reads [trackingNumber]: a
    string, or nothing.  The embedding has no identifier that is not a
    string. *)
Inductive RequestBody : Type :=
| Unparsed
| Parsed (trackingNumber : option string).

(** The [TypeError] of [let { trackingNumber } = req.body] on
    [undefined], with the message of V8. *)
Definition destructuringMessage : string :=
  "Cannot destructure property 'trackingNumber' of 'req.body' as it is undefined.".

(** The handler from its first line, the destructuring of [req.body],
    which stands before the [try]. *)
Definition serverRoute (h : Host) (inp : Inputs) (body : RequestBody) : M Response :=
  match body with
  | Unparsed => throw destructuringMessage
  | Parsed trackingNumber => Server.track h inp trackingNumber
  end.

Definition enhancedRoute (h : Host) (inp : Inputs) (body : RequestBody) : M Response :=
  match body with
  | Unparsed => throw destructuringMessage
  | Parsed trackingNumber => Enhanced.track h inp trackingNumber
  end.

(** The state after the handler has run for the requests [reqs], one
    after the other, each with the readings of its run and with a
    [trackingNumber] that is a string or is missing. *)
Definition tracked (track : Host -> Inputs -> option string -> M Response)
    (h : Host) (reqs : list (Inputs * option string)) (w : World) : World :=
  fold_left (fun w q => snd (track h (fst q) (snd q) w)) reqs w.

(** * Properties *)

(** ** The matcher *)

Section Matcher.
Import Regex.

Lemma rep_eat (p : ascii -> bool) (n : nat) (k : cont) :
  ∀ (j : nat) (l : list ascii),
    rep (eat p) n k (j, l)
    = (n <=? length l)%nat && forallb p (take n l) && k ((j + n)%nat, drop n l).
Proof.
  induction n as [|n IH]; intros j l.
  - cbn. rewrite Nat.add_0_r. now rewrite drop_0.
  - cbn [rep]. unfold eat at 1. cbn [fst snd].
    destruct l as [|x l]; [reflexivity|].
    rewrite IH. cbn [length take drop forallb].
    replace (S j + n)%nat with (j + S n)%nat by lia.
    change (S n <=? S (length l))%nat with (n <=? length l)%nat.
    destruct (p x), (n <=? length l)%nat, (forallb p (take n l)); reflexivity.
Qed.

Lemma rep_ext (step : cont -> cont) :
  (∀ k k', (∀ sub, k sub = k' sub) → ∀ sub, step k sub = step k' sub) →
  ∀ n k k', (∀ sub, k sub = k' sub) → ∀ sub, rep step n k sub = rep step n k' sub.
Proof.
  intros Hstep n; induction n as [|n IH]; intros k k' Hk sub; cbn.
  - apply Hk.
  - apply Hstep. intros sub'. now apply IH.
Qed.

Lemma eat_ext (p : ascii -> bool) (k k' : cont) :
  (∀ sub, k sub = k' sub) → ∀ sub, eat p k sub = eat p k' sub.
Proof.
  intros Hk [j l]. unfold eat. cbn. destruct l; [reflexivity|]. now rewrite Hk.
Qed.

Lemma run_ext (i : bool) (r : re) :
  ∀ k k', (∀ sub, k sub = k' sub) → ∀ sub, run i r k sub = run i r k' sub.
Proof.
  induction r as [| |c|rs|a IHa b IHb|a IHa b IHb|n a IHa|lo hi a IHa];
    intros k k' Hk sub; cbn.
  - now rewrite Hk.
  - destruct (snd sub); [apply Hk|reflexivity].
  - now apply eat_ext.
  - now apply eat_ext.
  - apply IHa. intros sub'. now apply IHb.
  - now rewrite (IHa k k' Hk), (IHb k k' Hk).
  - now apply rep_ext.
  - induction (seq lo (S hi - lo)) as [|j js IHjs]; [reflexivity|].
    cbn. rewrite IHjs. f_equal. now apply rep_ext.
Qed.

Lemma rep_width (step : cont -> cont) (lo hi : nat) :
  (∀ k sub, step k sub = true → ∃ m, spans lo hi k sub m) →
  ∀ n k sub, rep step n k sub = true → ∃ m, spans (n * lo) (n * hi) k sub m.
Proof.
  intros Hstep n; induction n as [|n IH]; intros k [j l] H; cbn in H.
  - exists 0%nat. unfold spans. cbn. rewrite Nat.add_0_r, drop_0. repeat split; lia || done.
  - apply Hstep in H as (m1 & Hb1 & Hl1 & H). cbn [fst snd] in *.
    apply IH in H as (m2 & Hb2 & Hl2 & H). cbn [fst snd] in *.
    rewrite length_drop in Hl2. rewrite drop_drop in H.
    exists (m1 + m2)%nat. unfold spans. cbn [fst snd].
    rewrite Nat.add_assoc. repeat split; try lia; done.
Qed.

Lemma run_width (i : bool) (r : re) :
  ∀ k sub, run i r k sub = true →
    ∃ m, spans (wmin r) (wmax r) k sub m ∧
         (endsEol r = true → m = length (snd sub)).
Proof.
  induction r as [| |c|rs|a IHa b IHb|a IHa b IHb|n a IHa|lo hi a IHa];
    intros k [j l] H; cbn in H; cbn [wmin wmax endsEol fst snd].
  - apply andb_true_iff in H as [_ H]. exists 0%nat. unfold spans. cbn.
    rewrite Nat.add_0_r, drop_0. repeat split; lia || done.
  - destruct l; [|discriminate]. exists 0%nat. unfold spans. cbn.
    rewrite Nat.add_0_r. repeat split; lia || done.
  - unfold eat in H. cbn in H. destruct l as [|x l]; [discriminate|].
    apply andb_true_iff in H as [_ H]. exists 1%nat. unfold spans. cbn.
    replace (j + 1)%nat with (S j) by lia. repeat split; lia || done.
  - unfold eat in H. cbn in H. destruct l as [|x l]; [discriminate|].
    apply andb_true_iff in H as [_ H]. exists 1%nat. unfold spans. cbn.
    replace (j + 1)%nat with (S j) by lia. repeat split; lia || done.
  - apply IHa in H as (m1 & (Hb1 & Hl1 & H) & _). cbn [fst snd] in *.
    apply IHb in H as (m2 & (Hb2 & Hl2 & H) & He). cbn [fst snd] in *.
    rewrite length_drop in Hl2, He. rewrite drop_drop in H.
    exists (m1 + m2)%nat. unfold spans. cbn [fst snd].
    rewrite Nat.add_assoc. repeat split; try lia; try done.
    intros Hb. specialize (He Hb). lia.
  - apply orb_true_iff in H as [H|H].
    + apply IHa in H as (m & (Hb & Hl & H) & He). exists m. unfold spans.
      repeat split; try lia; try done.
      intros Hab. apply andb_true_iff in Hab as [Ha _]. now apply He.
    + apply IHb in H as (m & (Hb & Hl & H) & He). exists m. unfold spans.
      repeat split; try lia; try done.
      intros Hab. apply andb_true_iff in Hab as [_ Hb']. now apply He.
  - apply (rep_width (run i a) (wmin a) (wmax a)) in H as (m & Hm).
    + exists m. split; [exact Hm|discriminate].
    + intros k' sub' H'. apply IHa in H' as (m & Hm & _). now exists m.
  - apply existsb_exists in H as (n & Hn & H). apply in_seq in Hn.
    apply (rep_width (run i a) (wmin a) (wmax a)) in H as (m & (Hb & Hl & H)).
    + exists m. split; [|discriminate]. unfold spans. repeat split; try nia; done.
    + intros k' sub' H'. apply IHa in H' as (m & Hm & _). now exists m.
Qed.

Lemma run_bol (i : bool) (r : re) :
  startsBol r = true → ∀ k sub, run i r k sub = true → fst sub = 0%nat.
Proof.
  induction r as [| |c|rs|a IHa b IHb|a IHa b IHb|n a IHa|lo hi a IHa];
    cbn; intros Hs k sub H; try discriminate.
  - apply andb_true_iff in H as [H _]. now apply Nat.eqb_eq in H.
  - now apply (IHa Hs) in H.
  - apply andb_true_iff in Hs as [Ha Hb].
    apply orb_true_iff in H as [H|H]; [now apply (IHa Ha) in H|now apply (IHb Hb) in H].
Qed.

(** A pattern that begins with [^] is tried at index 0 only. *)
Lemma test_at0 (r : regex) (s : string) :
  startsBol (source r) = true →
  test r s = run (ignoreCase r) (source r) (fun _ => true) (0%nat, chars s).
Proof.
  intros Hs. unfold test, chars. cbn [seq existsb]. rewrite drop_0.
  replace (existsb _ (seq 1 _)) with false; [now rewrite orb_false_r|].
  symmetry. apply not_true_is_false. intros H.
  apply existsb_exists in H as (j & Hj & H). apply in_seq in Hj.
  apply (run_bol _ _ Hs) in H. cbn in H. lia.
Qed.

(** An anchored pattern matches subjects of its own widths only. *)
Lemma test_length (r : regex) (s : string) :
  anchored r = true → test r s = true →
  (wmin (source r) ≤ length (chars s) ≤ wmax (source r))%nat.
Proof.
  intros Ha H. apply andb_true_iff in Ha as [Hs He].
  rewrite (test_at0 _ _ Hs) in H.
  apply run_width in H as (m & (Hb & _ & _) & Hm).
  specialize (Hm He). cbn in Hm. lia.
Qed.

Lemma test_too_short (r : regex) (s : string) :
  anchored r = true → (length (chars s) < wmin (source r))%nat → test r s = false.
Proof.
  intros Ha Hl. apply not_true_is_false. intros H.
  apply (test_length _ _ Ha) in H. lia.
Qed.

Lemma test_too_long (r : regex) (s : string) :
  anchored r = true → (wmax (source r) < length (chars s))%nat → test r s = false.
Proof.
  intros Ha Hl. apply not_true_is_false. intros H.
  apply (test_length _ _ Ha) in H. lia.
Qed.

(** What [$] at the end means: the match leaves nothing of the subject. *)
Lemma run_eol (i : bool) (r : re) :
  endsEol r = true →
  ∀ k sub, run i r k sub
           = run i r (fun sub' => match snd sub' with [] => k sub' | _ => false end) sub.
Proof.
  induction r as [| |c|rs|a IHa b IHb|a IHa b IHb|n a IHa|lo hi a IHa];
    cbn; intros He k sub; try discriminate.
  - destruct sub as [j [|x l]]; reflexivity.
  - apply run_ext. intros sub'. now apply IHb.
  - apply andb_true_iff in He as [Ha Hb]. now rewrite <- (IHa Ha), <- (IHb Hb).
Qed.

Lemma test_anchored (r : regex) (s : string) :
  anchored r = true →
  test r s = matchesWhole r s.
Proof.
  intros Ha. apply andb_true_iff in Ha as [Hs He].
  rewrite (test_at0 _ _ Hs). unfold matchesWhole. now rewrite (run_eol _ _ He).
Qed.

End Matcher.

(** ** First match *)

Lemma firstMatch_Some (rules : list (Regex.regex * string)) (s t : string) :
  firstMatch rules s = Some t ↔ ∃ i, firstRule rules s i t.
Proof.
  unfold firstMatch. induction rules as [|[r0 t0] rules IH]; cbn [List.find fst].
  - split; [discriminate|]. intros (i & (r & H & _) & _). discriminate.
  - destruct (Regex.test r0 s) eqn:E.
    + cbn. split.
      * intros [= <-]. exists 0%nat. split; [now exists r0|]. intros j r' t' Hj. lia.
      * intros ([|i] & (r & H & Hr) & Hfirst).
        -- cbn in H. congruence.
        -- specialize (Hfirst 0%nat r0 t0 ltac:(lia) eq_refl). congruence.
    + rewrite IH. split.
      * intros (i & (r & H & Hr) & Hfirst). exists (S i). split; [now exists r|].
        intros [|j] r' t' Hj Hl; cbn in Hl.
        -- congruence.
        -- apply (Hfirst j r' t'); [lia|done].
      * intros ([|i] & (r & H & Hr) & Hfirst); cbn in H.
        -- congruence.
        -- exists i. split; [now exists r|].
           intros j r' t' Hj Hl. apply (Hfirst (S j) r' t'); [lia|done].
Qed.

Lemma firstMatch_None (rules : list (Regex.regex * string)) (s : string) :
  firstMatch rules s = None ↔ ∀ r t, (r, t) ∈ rules → Regex.test r s = false.
Proof.
  unfold firstMatch. induction rules as [|[r0 t0] rules IH]; cbn [List.find fst].
  - split; [|done]. intros _ r t H. inversion H.
  - destruct (Regex.test r0 s) eqn:E.
    + cbn. split; [discriminate|]. intros H.
      assert (Regex.test r0 s = false) by (apply (H r0 t0); left). congruence.
    + rewrite IH. split.
      * intros H r t Hin. inversion Hin; subst; [done|]. now apply (H r t).
      * intros H r t Hin. apply (H r t). now right.
Qed.

Lemma Server_detect_firstMatch (s : string) :
  Server.detectCarrier s = firstMatch serverRules s.
Proof.
  unfold Server.detectCarrier, firstMatch, serverRules. cbn [List.find fst].
  destruct (Regex.test Server.reUPS s); [reflexivity|].
  destruct (Regex.test Server.reFEDEX s); [reflexivity|].
  destruct (Regex.test Server.reDHL s); [reflexivity|].
  destruct (Regex.test Server.reUSPS s); [reflexivity|].
  destruct (Regex.test Server.reAMAZON s); reflexivity.
Qed.

Lemma Enhanced_detect_firstMatch (s : string) :
  Enhanced.detectCarrier s = firstMatch enhancedRules s.
Proof.
  unfold Enhanced.detectCarrier, firstMatch, enhancedRules. cbn [List.find fst].
  destruct (Regex.test Enhanced.reUPS s); [reflexivity|].
  destruct (Regex.test Enhanced.reFEDEX s); [reflexivity|].
  destruct (Regex.test Enhanced.reDHL s); [reflexivity|].
  destruct (Regex.test Enhanced.reUSPS s); [reflexivity|].
  destruct (Regex.test Enhanced.reAMAZON s); reflexivity.
Qed.

(** ** Evaluating the patterns of [detectCarrier] *)

Section Evaluation.
Import Regex.

Lemma run_bol0 i r k l : run i (Bol >> r)%re k (0%nat, l) = run i r k (0%nat, l).
Proof. reflexivity. Qed.

Lemma run_alt_cat i a b r k sub :
  run i (Alt a b >> r)%re k sub = run i (a >> r)%re k sub || run i (b >> r)%re k sub.
Proof. reflexivity. Qed.

Lemma run_assoc i a b r k sub :
  run i ((a >> b) >> r)%re k sub = run i (a >> b >> r)%re k sub.
Proof. reflexivity. Qed.

Lemma run_lit_cat i c r k j x l :
  run i (Lit c >> r)%re k (j, x :: l) = sameChar i c x && run i r k (S j, l).
Proof. reflexivity. Qed.

Lemma run_cls_cat i rs r k j x l :
  run i (Cls rs >> r)%re k (j, x :: l) = inClass i rs x && run i r k (S j, l).
Proof. reflexivity. Qed.

Lemma run_times_cat i n rs r k j l :
  run i (Times n (Cls rs) >> r)%re k (j, l)
  = (n <=? length l)%nat && forallb (inClass i rs) (take n l)
    && run i r k ((j + n)%nat, drop n l).
Proof. exact (rep_eat (inClass i rs) n (run i r k) j l). Qed.

Lemma run_between_cat i lo hi rs r k j l :
  run i (Between lo hi (Cls rs) >> r)%re k (j, l)
  = existsb (fun n => (n <=? length l)%nat && forallb (inClass i rs) (take n l)
                      && run i r k ((j + n)%nat, drop n l))
            (seq lo (S hi - lo)).
Proof.
  cbn [run]. induction (seq lo (S hi - lo)) as [|n ns IH]; [reflexivity|].
  cbn [existsb]. rewrite IH. f_equal.
  exact (rep_eat (inClass i rs) n (run i r k) j l).
Qed.

Lemma run_eol_nil i k j : run i Eol k (j, []) = k (j, []).
Proof. reflexivity. Qed.

Lemma forallb_weaken (p q : ascii -> bool) (l : list ascii) :
  (∀ c, p c = true → q c = true) → forallb p l = true → forallb q l = true.
Proof.
  intros Hpq. induction l as [|x l IH]; cbn; [done|].
  intros H. apply andb_true_iff in H as [Hx Hl].
  now rewrite (Hpq _ Hx), (IH Hl).
Qed.

(** Facts about single characters, by going through the 256 of them. *)
Ltac each_char c H :=
  destruct c as [[] [] [] [] [] [] [] []];
  first [ vm_compute in H; discriminate H | vm_compute; reflexivity ].

Lemma digit_class (i : bool) (c : ascii) :
  Js.isDigit c = true → inClass i [rg "0" "9"] c = true.
Proof. intros H. destruct i; each_char c H. Qed.

Lemma alnum_class_i (c : ascii) :
  Js.isAlnum c = true → inClass true [rg "0" "9"; rg "A" "Z"] c = true.
Proof. intros H. each_char c H. Qed.

Lemma alnum_class_i_lower (c : ascii) :
  Js.isAlnum c = true → inClass true [rg "0" "9"; rg "A" "Z"] (Js.lowerChar c) = true.
Proof. intros H. each_char c H. Qed.

Lemma alnum_class (c : ascii) :
  Js.isAlnum c = true → Js.isLower c = false →
  inClass false [rg "0" "9"; rg "A" "Z"] c = true.
Proof.
  intros H H'. destruct c as [[] [] [] [] [] [] [] []];
    first [ vm_compute in H; discriminate H | vm_compute in H'; discriminate H'
          | vm_compute; reflexivity ].
Qed.

Lemma lower_class (c : ascii) :
  Js.isLower c = true → inClass false [rg "0" "9"; rg "A" "Z"] c = false.
Proof. intros H. each_char c H. Qed.

Lemma chars_mapChars (f : ascii -> ascii) (s : string) :
  chars (Js.mapChars f s) = map f (chars s).
Proof.
  unfold chars. induction s as [|c s IH]; cbn; [reflexivity|]. now rewrite IH.
Qed.

End Evaluation.

(** ** The examples of the detection rules, for every identifier of the
    stated form *)

Section Examples.
Import Regex.

Ltac rule_off r Hl :=
  first [ rewrite (test_too_short r) by first [reflexivity | rewrite Hl; cbn; lia]
        | rewrite (test_too_long r) by first [reflexivity | rewrite Hl; cbn; lia] ].

Lemma digits_inv (n : nat) (s : string) :
  digits n s = true → length (chars s) = n ∧ forallb Js.isDigit (chars s) = true.
Proof.
  intros H. apply andb_true_iff in H as [Hl Hd]. now apply Nat.eqb_eq in Hl.
Qed.

Lemma twelve_digits (i : bool) (s : string) :
  digits 12 s = true →
  run i (Alt (Times 12 (Cls [rg "0" "9"])) (Times 15 (Cls [rg "0" "9"])) >> Eol)%re
      (fun _ => true) (0%nat, chars s) = true.
Proof.
  intros H. apply digits_inv in H as [Hl Hd].
  rewrite run_alt_cat, run_times_cat, Hl.
  rewrite take_ge, drop_ge by lia.
  now rewrite (forallb_weaken _ _ _ (digit_class i) Hd).
Qed.

Lemma Server_fedex (s : string) :
  digits 12 s = true → Server.detectCarrier s = Some "fedex".
Proof.
  intros H. pose proof (digits_inv _ _ H) as [Hl _].
  unfold Server.detectCarrier. rule_off Server.reUPS Hl.
  rewrite (test_at0 Server.reFEDEX) by reflexivity.
  unfold Server.reFEDEX. cbn [source ignoreCase].
  now rewrite run_bol0, twelve_digits.
Qed.

Lemma Enhanced_fedex (s : string) :
  digits 12 s = true → Enhanced.detectCarrier s = Some "fedex".
Proof.
  intros H. pose proof (digits_inv _ _ H) as [Hl _].
  unfold Enhanced.detectCarrier. rule_off Enhanced.reUPS Hl.
  rewrite (test_at0 Enhanced.reFEDEX) by reflexivity.
  unfold Enhanced.reFEDEX. cbn [source ignoreCase].
  now rewrite run_bol0, twelve_digits.
Qed.

Lemma ninety_two (s : string) :
  digits 22 s = true → Js.prefixOf "92" s = true →
  ∃ cs, chars s = "9"%char :: "2"%char :: cs ∧ length cs = 20%nat ∧
        forallb Js.isDigit cs = true.
Proof.
  intros Hd Hp. apply digits_inv in Hd as [Hl Hd].
  destruct s as [|c0 [|c1 s]]; cbn [Js.prefixOf] in Hp; try discriminate.
  apply andb_true_iff in Hp as [H0 Hp]. apply andb_true_iff in Hp as [H1 _].
  apply Ascii.eqb_eq in H0, H1. subst c0 c1.
  exists (chars s). unfold chars in *.
  cbn [list_ascii_of_string length forallb] in Hl, Hd |- *.
  apply andb_true_iff in Hd as [_ Hd]. apply andb_true_iff in Hd as [_ Hd].
  repeat split; [lia|exact Hd].
Qed.

Lemma twenty_digits (i : bool) (j : nat) (cs : list ascii) :
  length cs = 20%nat → forallb Js.isDigit cs = true →
  run i (Between 20 22 (Cls [rg "0" "9"]) >> Eol)%re (fun _ => true) (j, cs) = true.
Proof.
  intros Hl Hd. rewrite run_between_cat. cbn [Nat.sub seq existsb].
  rewrite Hl, take_ge, drop_ge by lia.
  now rewrite (forallb_weaken _ _ _ (digit_class i) Hd).
Qed.

Lemma Server_usps (s : string) :
  digits 22 s = true → Js.prefixOf "92" s = true →
  Server.detectCarrier s = Some "usps".
Proof.
  intros Hd Hp. pose proof (digits_inv _ _ Hd) as [Hl _].
  destruct (ninety_two _ Hd Hp) as (cs & Hcs & Hlen & Hds).
  unfold Server.detectCarrier.
  rule_off Server.reUPS Hl. rule_off Server.reFEDEX Hl. rule_off Server.reDHL Hl.
  rewrite (test_at0 Server.reUSPS) by reflexivity.
  unfold Server.reUSPS. cbn [source ignoreCase].
  rewrite Hcs, run_bol0, run_lit_cat, run_cls_cat.
  pose proof (twenty_digits false 2 cs Hlen Hds) as E. rewrite E. reflexivity.
Qed.

Lemma Enhanced_usps (s : string) :
  digits 22 s = true → Js.prefixOf "92" s = true →
  Enhanced.detectCarrier s = Some "usps".
Proof.
  intros Hd Hp. pose proof (digits_inv _ _ Hd) as [Hl _].
  destruct (ninety_two _ Hd Hp) as (cs & Hcs & Hlen & Hds).
  unfold Enhanced.detectCarrier.
  rule_off Enhanced.reUPS Hl. rule_off Enhanced.reFEDEX Hl. rule_off Enhanced.reDHL Hl.
  rewrite (test_at0 Enhanced.reUSPS) by reflexivity.
  unfold Enhanced.reUSPS. cbn [source ignoreCase].
  rewrite Hcs, run_bol0, run_assoc, run_lit_cat, run_assoc, run_cls_cat.
  pose proof (twenty_digits false 2 cs Hlen Hds) as E. rewrite E. reflexivity.
Qed.

End Examples.

(** ** The Amazon rule on identifiers of its shape *)

Section AmazonShape.
Import Regex.

Ltac explode H cs :=
  unfold dashed in H;
  apply andb_true_iff in H as [Hlen H]; apply Nat.eqb_eq in Hlen;
  do 19 (destruct cs as [|? cs]; [discriminate Hlen|]);
  (destruct cs; [|discriminate Hlen]);
  cbn [imap forallb fst snd Nat.eqb orb compose] in H;
  repeat (apply andb_true_iff in H as [? H]);
  repeat match goal with
         | E : Ascii.eqb _ _ = true |- _ => apply Ascii.eqb_eq in E; subst
         end.

Lemma dashed_length (p : ascii -> bool) (cs : list ascii) :
  dashed p cs = true → length cs = 19%nat.
Proof. intros H. apply andb_true_iff in H as [H _]. now apply Nat.eqb_eq in H. Qed.

Lemma dashed_run (i : bool) (f : ascii -> ascii) (p : ascii -> bool) (cs : list ascii) :
  (∀ c, p c = true → inClass i [rg "0" "9"; rg "A" "Z"] (f c) = true) →
  sameChar i "-" (f "-"%char) = true →
  dashed p cs = true →
  run i amazonBody (fun _ => true) (0%nat, map f cs) = true.
Proof.
  intros Hp Hdash H. explode H cs. unfold amazonBody.
  cbn [map].
  rewrite run_times_cat. cbn [length take drop forallb Nat.leb Nat.add].
  rewrite run_lit_cat, run_times_cat. cbn [length take drop forallb Nat.leb Nat.add].
  rewrite run_lit_cat, run_times_cat. cbn [length take drop forallb Nat.leb Nat.add].
  rewrite run_eol_nil, Hdash.
  repeat (rewrite Hp by assumption). reflexivity.
Qed.

Lemma dashed_lower_run (cs : list ascii) :
  dashed Js.isAlnum cs = true → existsb Js.isLower cs = true →
  run false amazonBody (fun _ => true) (0%nat, cs) = false.
Proof.
  intros H Hlow. explode H cs. unfold amazonBody.
  apply not_true_is_false. intros Hrun.
  rewrite run_times_cat in Hrun. cbn [length take drop forallb Nat.leb Nat.add] in Hrun.
  rewrite run_lit_cat, run_times_cat in Hrun.
  cbn [length take drop forallb Nat.leb Nat.add] in Hrun.
  rewrite run_lit_cat, run_times_cat in Hrun.
  cbn [length take drop forallb Nat.leb Nat.add] in Hrun.
  repeat (apply andb_true_iff in Hrun as [? Hrun]).
  repeat match goal with
         | E : _ && _ = true |- _ => apply andb_true_iff in E as [? ?]
         end.
  cbn [existsb] in Hlow.
  repeat (apply orb_true_iff in Hlow as [Hlow|Hlow]);
    try (vm_compute in Hlow; discriminate Hlow);
    match goal with
    | Hi : inClass false _ ?c = true |- _ =>
        match type of Hlow with
        | Js.isLower c = true => rewrite (lower_class _ Hlow) in Hi; discriminate Hi
        end
    end.
Qed.

Lemma dashed_upper_run (cs : list ascii) :
  dashed Js.isAlnum cs = true → existsb Js.isLower cs = false →
  run false amazonBody (fun _ => true) (0%nat, cs) = true.
Proof.
  intros H Hlow. explode H cs. unfold amazonBody.
  cbn [existsb] in Hlow.
  repeat (apply orb_false_iff in Hlow as [? Hlow]).
  rewrite run_times_cat. cbn [length take drop forallb Nat.leb Nat.add].
  rewrite run_lit_cat, run_times_cat. cbn [length take drop forallb Nat.leb Nat.add].
  rewrite run_lit_cat, run_times_cat. cbn [length take drop forallb Nat.leb Nat.add].
  rewrite run_eol_nil.
  repeat (rewrite alnum_class by assumption). reflexivity.
Qed.

End AmazonShape.

Section AmazonRule.
Import Regex.

Ltac rule_off r Hl :=
  first [ rewrite (test_too_short r) by first [reflexivity | rewrite Hl; cbn; lia]
        | rewrite (test_too_long r) by first [reflexivity | rewrite Hl; cbn; lia] ].

Lemma Enhanced_amazon_chars (f : ascii -> ascii) (s : string) :
  (∀ c, Js.isAlnum c = true → inClass true [rg "0" "9"; rg "A" "Z"] (f c) = true) →
  sameChar true "-" (f "-"%char) = true →
  amazonShape s = true →
  Enhanced.detectCarrier (Js.mapChars f s) = Some "amazon".
Proof.
  intros Hf Hdash H. unfold amazonShape in H.
  assert (Hl : length (chars (Js.mapChars f s)) = 19%nat).
  { rewrite chars_mapChars, length_map. exact (dashed_length _ _ H). }
  unfold Enhanced.detectCarrier.
  rule_off Enhanced.reUPS Hl. rule_off Enhanced.reFEDEX Hl.
  rule_off Enhanced.reDHL Hl. rule_off Enhanced.reUSPS Hl.
  rewrite (test_at0 Enhanced.reAMAZON) by reflexivity.
  unfold Enhanced.reAMAZON. cbn [source ignoreCase].
  rewrite run_bol0, chars_mapChars.
  pose proof (dashed_run true f Js.isAlnum (chars s) Hf Hdash H) as E.
  unfold amazonBody in E. rewrite E. reflexivity.
Qed.

Lemma mapChars_id (s : string) : Js.mapChars (fun c => c) s = s.
Proof. induction s as [|c s IH]; cbn; [reflexivity|]. now rewrite IH. Qed.

Lemma Enhanced_amazon (s : string) :
  amazonShape s = true → Enhanced.detectCarrier s = Some "amazon".
Proof.
  intros H. rewrite <- (mapChars_id s) at 1.
  apply Enhanced_amazon_chars; [exact alnum_class_i|reflexivity|exact H].
Qed.

Lemma Enhanced_amazon_lower (s : string) :
  amazonShape s = true → Enhanced.detectCarrier (Js.toLowerCase s) = Some "amazon".
Proof.
  intros H. apply Enhanced_amazon_chars; [exact alnum_class_i_lower|reflexivity|exact H].
Qed.

Lemma Server_amazon (s : string) :
  amazonShape s = true →
  Server.detectCarrier s = if hasLower s then None else Some "amazon".
Proof.
  intros H. unfold amazonShape in H. pose proof (dashed_length _ _ H) as Hl.
  unfold Server.detectCarrier.
  rule_off Server.reUPS Hl. rule_off Server.reFEDEX Hl.
  rule_off Server.reDHL Hl. rule_off Server.reUSPS Hl.
  rewrite (test_at0 Server.reAMAZON) by reflexivity.
  unfold Server.reAMAZON. cbn [source ignoreCase].
  rewrite run_bol0. unfold hasLower.
  destruct (existsb Js.isLower (chars s)) eqn:Hlow.
  - pose proof (dashed_lower_run _ H Hlow) as E. unfold amazonBody in E.
    rewrite E. reflexivity.
  - pose proof (dashed_upper_run _ H Hlow) as E. unfold amazonBody in E.
    rewrite E. reflexivity.
Qed.

End AmazonRule.

(** ** The claims about [detectCarrier] *)

Lemma detect_contract (detect : string -> option string)
    (rules : list (Regex.regex * string)) :
  (∀ s, detect s = firstMatch rules s) →
  snd <$> rules = ["ups"; "fedex"; "dhl"; "usps"; "amazon"] →
  forallb (fun rt => anchored (fst rt)) rules = true →
  detect "1Z12345678901234AB" = Some "ups" →
  (∀ s, digits 12 s = true → detect s = Some "fedex") →
  detect "AB123456789CD" = Some "dhl" →
  (∀ s, digits 22 s = true → Js.prefixOf "92" s = true → detect s = Some "usps") →
  detect "ABC-1234567-1234567" = Some "amazon" →
  detect "not-a-code" = None →
  detectsByFirstMatch detect rules.
Proof.
  intros Hd Htags Hanch E1 E2 E3 E4 E5 E6. unfold detectsByFirstMatch.
  repeat split; try assumption.
  - intros r t Hin s. apply test_anchored. rewrite forallb_forall in Hanch.
    apply (Hanch (r, t)). now apply list_elem_of_In.
  - rewrite Hd. apply firstMatch_Some.
  - rewrite Hd. apply firstMatch_Some.
  - rewrite Hd. apply firstMatch_None.
  - rewrite Hd. apply firstMatch_None.
Qed.

(** C5, as the specification states it, fails on [server.js]: an
    identifier of the AMAZON shape in lower case is not detected, though
    its upper-case form is. *)
Lemma C5_counterexample :
  amazonShape "abc-1234567-1234567" = true ∧
  Server.detectCarrier "abc-1234567-1234567" = None ∧
  Server.detectCarrier (Js.toUpperCase "abc-1234567-1234567") = Some "amazon".
Proof. vm_compute. repeat split. Qed.

(** C5, amended.  For every identifier of the shape XXX-XXXXXXX-XXXXXXX
    with X alphanumeric: the revision with the login flow, whose AMAZON
    pattern carries the flag [i], detects AMAZON for the identifier and for
    its lower-case form; [server.js], whose pattern has no flag, detects
    AMAZON when the identifier has no lower-case letter and detects nothing
    when it has one. *)
Theorem C5_amazon_rule_case (s : string) :
  amazonShape s = true →
  Enhanced.detectCarrier s = Some "amazon" ∧
  Enhanced.detectCarrier (Js.toLowerCase s) = Some "amazon" ∧
  Server.detectCarrier s = (if hasLower s then None else Some "amazon").
Proof.
  intros H. split; [now apply Enhanced_amazon|].
  split; [now apply Enhanced_amazon_lower|now apply Server_amazon].
Qed.

Lemma C5_witness :
  amazonShape "Abc-1234567-12345xY" = true ∧
  Enhanced.detectCarrier "Abc-1234567-12345xY" = Some "amazon" ∧
  Enhanced.detectCarrier (Js.toLowerCase "Abc-1234567-12345xY") = Some "amazon" ∧
  Server.detectCarrier "Abc-1234567-12345xY"
  = (if hasLower "Abc-1234567-12345xY" then None else Some "amazon").
Proof.
  split; [reflexivity|].
  apply (C5_amazon_rule_case "Abc-1234567-12345xY"). reflexivity.
Defined.

(** ** The simulated strategy *)

Lemma generic_instants (h : Host) (inp : Inputs) (c tn : string) :
  instants (activity (getGenericTracking h inp c tn))
  = [t_now inp; t_now inp - day; t_now inp - 2 * day; t_now inp - 3 * day].
Proof.
  unfold getGenericTracking, day.
  destruct (drawDelivered inp); cbn [activity rev app instants omap ev_timestamp];
    cbn; repeat f_equal; lia.
Qed.

(** C1, as the specification states it, fails: the activity that
    [getGenericTracking] returns begins with the event stamped now and
    ends with the event stamped three days before. *)
Lemma C1_counterexample :
  let inp := inputsAt noon (3 # 4) in
  let r := getGenericTracking utcHost inp "ups" "1Z12345678901234AB" in
  ascending (instants (activity r)) = false ∧
  ev_timestamp <$> head (activity r) = Some (Iso (t_now inp)) ∧
  ev_timestamp <$> last (activity r) = Some (Iso (t_now inp - 3 * day)).
Proof. vm_compute. repeat split. Qed.

(** C1, amended.  For every carrier and identifier the activity that
    [getGenericTracking] returns is in descending chronological order: its
    four events are stamped now, now-1d, now-2d, now-3d in that order, so
    the most recent one is first and the one stamped now-3d is last. *)
Theorem C1_generic_activity_newest_first (h : Host) (inp : Inputs) (c tn : string) :
  let r := getGenericTracking h inp c tn in
  instants (activity r)
  = [t_now inp; t_now inp - day; t_now inp - 2 * day; t_now inp - 3 * day] ∧
  length (activity r) = 4%nat ∧
  descending (instants (activity r)) = true ∧
  ev_timestamp <$> head (activity r) = Some (Iso (t_now inp)) ∧
  ev_timestamp <$> last (activity r) = Some (Iso (t_now inp - 3 * day)).
Proof.
  cbn zeta. rewrite generic_instants. split; [reflexivity|].
  split; [unfold getGenericTracking; now destruct (drawDelivered inp)|].
  split.
  - cbn [descending]. unfold day.
    repeat (apply andb_true_iff; split); try reflexivity; apply Z.ltb_lt; lia.
  - unfold getGenericTracking, day.
    destruct (drawDelivered inp); cbn; (split; [reflexivity|]); do 2 f_equal; lia.
Qed.

(** C4, as the specification states it, fails on the branch that is not
    delivered: the event "Out for delivery" is stamped now, and no event
    of the result is stamped now + 1 day. *)
Lemma C4_counterexample :
  let inp := inputsAt noon (1 # 4) in
  let r := getGenericTracking utcHost inp "ups" "1Z12345678901234AB" in
  drawDelivered inp = false ∧
  head (activity r) = Some (fourthStop false (t_now inp)) ∧
  Forall (fun e => ev_timestamp e ≠ Iso (t_now inp + day)) (activity r) ∧
  estimatedDelivery r = "1/16/2026".
Proof.
  vm_compute. repeat split.
  repeat constructor; intros [=].
Qed.

(** C4, amended.  The event appended as the fourth, which the returned
    activity lists first, is stamped now on both branches, with status
    "Delivered" on the delivered branch and "Out for delivery" on the
    other; [status] is "Delivered" or "In Transit" accordingly; and
    [estimatedDelivery] is the local date of a fresh reading of the clock
    on the delivered branch and the local date of now moved one calendar
    day ahead on the other. *)
Theorem C4_generic_fourth_stop (h : Host) (inp : Inputs) (c tn : string) :
  let r := getGenericTracking h inp c tn in
  let delivered := drawDelivered inp in
  head (activity r) = Some (fourthStop delivered (t_now inp)) ∧
  length (activity r) = 4%nat ∧
  status r = (if delivered then "Delivered" else "In Transit") ∧
  estimatedDelivery r
  = (if delivered
     then toLocaleDateString h (t_later inp)
     else toLocaleDateString h (setNextDate h (t_now inp))).
Proof.
  cbn zeta. unfold getGenericTracking.
  destruct (drawDelivered inp); repeat split.
Qed.

(** The two branches of C4 on a host in UTC, at noon of 2026-01-15. *)
Example generic_delivered_today :
  let r := getGenericTracking utcHost (inputsAt noon (3 # 4)) "fedex" "123456789012" in
  (status r, estimatedDelivery r, carrier r) = ("Delivered", "1/15/2026", "FEDEX").
Proof. vm_compute. reflexivity. Qed.

Example generic_in_transit_tomorrow :
  let r := getGenericTracking utcHost (inputsAt noon (1 # 4)) "fedex" "123456789012" in
  (status r, estimatedDelivery r, carrier r) = ("In Transit", "1/16/2026", "FEDEX").
Proof. vm_compute. reflexivity. Qed.

(** ** Presence *)

Lemma news_app {A : Type} (l l' : list A) : news l (l ++ l') = l'.
Proof. unfold news. now rewrite drop_app_length. Qed.

Lemma news_same {A : Type} (l : list A) : news l l = [].
Proof. unfold news. now rewrite drop_all. Qed.

Lemma JsMap_get_set {V : Type} (k : string) (v : V) (m : list (string * V)) :
  JsMap.get k (JsMap.set k v m) = Some v.
Proof.
  induction m as [|[k' v'] m IH]; cbn.
  - now rewrite String.eqb_refl.
  - destruct (String.eqb k k') eqn:E; cbn; rewrite E; [reflexivity|exact IH].
Qed.

Lemma JsMap_get_values {V : Type} (k : string) (v : V) (m : list (string * V)) :
  JsMap.get k m = Some v → v ∈ JsMap.values m.
Proof.
  induction m as [|[k' v'] m IH]; cbn; [discriminate|].
  destruct (String.eqb k k').
  - intros [= ->]. left.
  - intros H. right. now apply IH.
Qed.

Lemma received_sender (conns : list string) (sid : string) (e e' : ServerEvent) :
  sid ∈ conns →
  received conns sid [(ToSocket sid, e); (ToOthers sid, e')] = [e].
Proof.
  intros Hin. unfold received. cbn [omap list_omap fst snd recipients].
  destruct (decide (sid ∈ filter (λ s, s = sid) conns)) as [_|Hn].
  - destruct (decide (sid ∈ filter (λ s, s ≠ sid) conns)) as [Hy|_]; [|reflexivity].
    apply list_elem_of_filter in Hy as [Hy _]. now contradict Hy.
  - contradict Hn. now apply list_elem_of_filter.
Qed.

Lemma received_other (conns : list string) (sid other : string) (e e' : ServerEvent) :
  other ∈ conns → other ≠ sid →
  received conns other [(ToSocket sid, e); (ToOthers sid, e')] = [e'].
Proof.
  intros Hin Hne. unfold received. cbn [omap list_omap fst snd recipients].
  destruct (decide (other ∈ filter (λ s, s = sid) conns)) as [Hy|_].
  - apply list_elem_of_filter in Hy as [Hy _]. now contradict Hy.
  - destruct (decide (other ∈ filter (λ s, s ≠ sid) conns)) as [_|Hn]; [reflexivity|].
    contradict Hn. now apply list_elem_of_filter.
Qed.

Lemma received_broadcast (conns : list string) (sid other : string) (e : ServerEvent) :
  received conns other [(ToOthers sid, e)]
  = if decide (other ∈ conns ∧ other ≠ sid) then [e] else [].
Proof.
  unfold received. cbn [omap list_omap fst snd recipients].
  destruct (decide (other ∈ filter (λ s, s ≠ sid) conns)) as [Hy|Hn];
    destruct (decide (other ∈ conns ∧ other ≠ sid)) as [Hy'|Hn']; try reflexivity.
  - contradict Hn'. apply list_elem_of_filter in Hy as [? ?]. now split.
  - contradict Hn. destruct Hy'. now apply list_elem_of_filter.
Qed.

Lemma Server_join_run (sid name : string) (w : World) :
  Server.join sid name w
  = let users := JsMap.set sid (joined Undefined sid name) (liveUsers w) in
    (Return tt,
     withEmitted (emitted w ++ [(ToSocket sid, current_users (JsMap.values users));
                                (ToOthers sid, user_joined (Some (joined Undefined sid name)))])
                 (withUsers users w)).
Proof.
  unfold Server.join, mbind, M_bind, gets, modify, emit, modify, joined.
  cbn. rewrite JsMap_get_set, <- app_assoc. reflexivity.
Qed.

Lemma Enhanced_join_run (sid name : string) (w : World) :
  Enhanced.join sid name w
  = let users := JsMap.set sid (joined Null sid name) (liveUsers w) in
    (Return tt,
     withEmitted (emitted w ++ [(ToOthers sid, user_joined (Some (joined Null sid name)))])
                 (withUsers users w)).
Proof.
  unfold Enhanced.join, mbind, M_bind, gets, modify, emit, modify, joined.
  cbn. rewrite JsMap_get_set. reflexivity.
Qed.

(** C9, as the specification states it, fails on the revision with the
    login flow: there [join] sends the joining socket nothing; the socket
    got its snapshot when it connected, before it was registered. *)
Lemma C9_counterexample :
  let w0 := snd (Enhanced.connection "B" (snd (Enhanced.connection "A" boot))) in
  let w1 := snd (Enhanced.join "A" "alice" w0) in
  inbox w0 w1 "A" = [] ∧
  inbox w0 w1 "B" = [user_joined (Some (joined Null "A" "alice"))] ∧
  inbox boot w0 "A" = [current_users []].
Proof. vm_compute. repeat split. Qed.

(** C9, amended.  In [server.js] a [join] sends the sender the
    [current_users] snapshot of all registered users, the new record
    included, and sends every other connected socket, and not the sender,
    [user_joined] with the new record.  In the revision with the login
    flow [join] sends every other connected socket, and not the sender,
    [user_joined] with the new record, and sends the sender nothing: a
    socket is sent the [current_users] snapshot of the users registered
    so far when it connects, whatever the state of the server then, while
    in [server.js] a connecting socket is sent nothing. *)
Theorem C9_join_fan_out (w : World) (sid name : string) :
  sid ∈ connected w →
  let ws := snd (Server.join sid name w) in
  let we := snd (Enhanced.join sid name w) in
  (inbox w ws sid = [current_users (JsMap.values (liveUsers ws))] ∧
   JsMap.get sid (liveUsers ws) = Some (joined Undefined sid name) ∧
   joined Undefined sid name ∈ JsMap.values (liveUsers ws) ∧
   ∀ other, other ∈ connected w → other ≠ sid →
     inbox w ws other = [user_joined (Some (joined Undefined sid name))]) ∧
  (inbox w we sid = [] ∧
   JsMap.get sid (liveUsers we) = Some (joined Null sid name) ∧
   ∀ other, other ∈ connected w → other ≠ sid →
     inbox w we other = [user_joined (Some (joined Null sid name))]) ∧
  (∀ w0 s, inbox w0 (snd (Enhanced.connection s w0)) s
           = [current_users (JsMap.values (liveUsers w0))]) ∧
  (∀ w0 s, inbox w0 (snd (Server.connection s w0)) s = []).
Proof.
  intros Hs. cbn zeta.
  rewrite Server_join_run, Enhanced_join_run. cbn zeta. unfold inbox. cbn [snd].
  split; [|split; [|split]].
  - split; [|split; [|split]].
    + cbn [emitted connected withEmitted withUsers liveUsers].
      rewrite news_app. now apply received_sender.
    + cbn [liveUsers withEmitted withUsers]. apply JsMap_get_set.
    + cbn [liveUsers withEmitted withUsers].
      apply (JsMap_get_values sid). apply JsMap_get_set.
    + intros other Ho Hne. cbn [emitted connected withEmitted withUsers liveUsers].
      rewrite news_app. now apply received_other.
  - split; [|split].
    + cbn [emitted connected withEmitted withUsers liveUsers].
      rewrite news_app, received_broadcast.
      destruct (decide (sid ∈ connected w ∧ sid ≠ sid)) as [[_ H]|_]; [done|reflexivity].
    + cbn [liveUsers withEmitted withUsers]. apply JsMap_get_set.
    + intros other Ho Hne. cbn [emitted connected withEmitted withUsers liveUsers].
      rewrite news_app, received_broadcast.
      destruct (decide (other ∈ connected w ∧ other ≠ sid)) as [_|H]; [reflexivity|].
      contradict H. now split.
  - intros w0 s.
    unfold Enhanced.connection, mbind, M_bind, gets, modify, emit, modify.
    cbn [snd emitted connected withEmitted withConnected liveUsers].
    rewrite news_app. unfold received. cbn [omap list_omap fst snd recipients].
    destruct (decide (s ∈ filter (λ x, x = s) (connected w0 ++ [s])%list)) as [_|H];
      [reflexivity|].
    contradict H. apply list_elem_of_filter. split; [reflexivity|].
    apply elem_of_app. right. left.
  - intros w0 s. unfold Server.connection, modify.
    cbn [snd emitted connected withConnected]. now rewrite news_same.
Qed.

(** A socket that joins alone, then a second socket that connects and
    joins beside it. *)
Lemma C9_witness :
  let w := snd (Server.connection "A" boot) in
  let ws := snd (Server.join "A" "alice" w) in
  let w' := snd (Enhanced.join "A" "alice"
                   (snd (Enhanced.connection "B" (snd (Enhanced.connection "A" boot))))) in
  let we := snd (Enhanced.join "B" "bob" w') in
  inbox w ws "A" = [current_users [joined Undefined "A" "alice"]] ∧
  inbox boot (snd (Enhanced.connection "A" boot)) "A" = [current_users []] ∧
  inbox w' we "B" = [] ∧
  inbox w' we "A" = [user_joined (Some (joined Null "B" "bob"))].
Proof.
  cbn zeta.
  assert (HA : "A" ∈ connected (snd (Server.connection "A" boot)))
    by (vm_compute; left).
  destruct (C9_join_fan_out _ "A" "alice" HA) as [(H1 & _) (_ & H3 & _)].
  split; [exact H1|]. split; [exact (H3 boot "A")|].
  assert (HB : "B" ∈ connected (snd (Enhanced.join "A" "alice"
                 (snd (Enhanced.connection "B" (snd (Enhanced.connection "A" boot)))))))
    by (vm_compute; right; left).
  destruct (C9_join_fan_out _ "B" "bob" HB) as [_ [(H4 & _ & H5) _]].
  split; [exact H4|].
  apply H5; [vm_compute; left|discriminate].
Defined.

(** C10.  In both revisions, which share the handler, a [send-location]
    from a socket with no record in [liveUsers] changes nothing: the
    registry, and the whole state of the server, is what it was, and so
    nothing is emitted. *)
Theorem C10_send_location_before_join (w : World) (sid : string) (data : LocationData) :
  JsMap.get sid (liveUsers w) = None →
  send_location sid data w = (Return tt, w) ∧
  liveUsers (snd (send_location sid data w)) = liveUsers w ∧
  ∀ s, inbox w (snd (send_location sid data w)) s = [].
Proof.
  intros H.
  assert (E : send_location sid data w = (Return tt, w)).
  { unfold send_location, mbind, M_bind, gets. cbn. now rewrite H. }
  rewrite E. repeat split. intros s. unfold inbox. cbn [snd].
  now rewrite news_same.
Qed.

Lemma C10_witness :
  let w := snd (Enhanced.connection "A" boot) in
  let data := {| data_latitude := Number (Dec 4071 (-2));
                 data_longitude := Number (Dec (-7400) (-2)) |} in
  JsMap.get "A" (liveUsers w) = None ∧
  send_location "A" data w = (Return tt, w).
Proof.
  cbn zeta. split; [reflexivity|].
  apply (C10_send_location_before_join _ "A"). reflexivity.
Defined.

(** ** What a strategy leaves alone *)

Section Frame.

Lemma quiet_refl (w : World) : quiet w w.
Proof. repeat split. exists []. now rewrite app_nil_r. Qed.

Lemma quiet_trans (w1 w2 w3 : World) : quiet w1 w2 → quiet w2 w3 → quiet w1 w3.
Proof.
  intros (a1 & a2 & a3 & a4 & a5 & m1 & a6) (b1 & b2 & b3 & b4 & b5 & m2 & b6).
  repeat split; try congruence.
  exists (m1 ++ m2)%list. now rewrite b6, a6, app_assoc.
Qed.

Lemma keeps_ret {A : Type} (a : A) : keeps (mret a : M A).
Proof. intros w. apply quiet_refl. Qed.

Lemma keeps_throw {A : Type} (e : string) : keeps (throw e : M A).
Proof. intros w. apply quiet_refl. Qed.

Lemma keeps_gets {A : Type} (f : World -> A) : keeps (gets f).
Proof. intros w. apply quiet_refl. Qed.

Lemma keeps_session (b : bool) : keeps (modify (withSession b)).
Proof. intros w. repeat split. exists []. cbn. now rewrite app_nil_r. Qed.

Lemma keeps_request (h : Host) (r : Request) : keeps (request h r).
Proof.
  intros w. unfold request.
  destruct (http h (length (sent w)) r); repeat split; now exists [r].
Qed.

Lemma keeps_bind {A B : Type} (m : M A) (f : A -> M B) :
  keeps m → (∀ a, keeps (f a)) → keeps (m ≫= f).
Proof.
  intros Hm Hf w. unfold mbind, M_bind.
  specialize (Hm w). destruct (m w) as [[a|e] w1]; cbn [snd] in *.
  - eapply quiet_trans; [exact Hm|apply Hf].
  - exact Hm.
Qed.

Lemma keeps_tryCatch {A : Type} (m : M A) (handler : string -> M A) :
  keeps m → (∀ e, keeps (handler e)) → keeps (tryCatch m handler).
Proof.
  intros Hm Hh w. unfold tryCatch.
  specialize (Hm w). destruct (m w) as [[a|e] w1]; cbn [snd] in *.
  - exact Hm.
  - eapply quiet_trans; [exact Hm|apply Hh].
Qed.

Create HintDb keeps.
#[local] Hint Resolve keeps_ret keeps_throw keeps_gets keeps_session keeps_request : keeps.

Lemma keeps_extractHiddenInputs (form : option Element) :
  keeps (Enhanced.extractHiddenInputs form).
Proof. destruct form; cbn; auto with keeps. Qed.

Lemma keeps_loginForm (h : Host) : keeps (Enhanced.loginForm h).
Proof.
  unfold Enhanced.loginForm.
  apply keeps_bind; [auto with keeps|]. intros response.
  destruct (querySelector _ _); [auto with keeps|].
  apply keeps_bind; [auto with keeps|]. intros response'.
  destruct (querySelector _ _); auto with keeps.
Qed.

Lemma keeps_intermediatePage (response : string) :
  keeps (Enhanced.intermediatePage response).
Proof.
  unfold Enhanced.intermediatePage.
  repeat (match goal with |- context [if ?b then _ else _] => destruct b end);
    auto with keeps.
Qed.

Lemma keeps_submit (h : Host) (form : option Element) : keeps (Enhanced.submit h form).
Proof.
  unfold Enhanced.submit, Enhanced.emailForm, Enhanced.passwordForm.
  apply keeps_bind.
  { apply keeps_bind; [apply keeps_extractHiddenInputs|]. intros; auto with keeps. }
  intros formData.
  apply keeps_bind; [auto with keeps|]. intros response.
  apply keeps_bind.
  { destruct (querySelector _ _); [auto with keeps|apply keeps_intermediatePage]. }
  intros _.
  apply keeps_bind.
  { apply keeps_bind; [apply keeps_extractHiddenInputs|]. intros; auto with keeps. }
  intros formData'.
  apply keeps_bind; [auto with keeps|]. intros _.
  apply keeps_bind; [auto with keeps|]. intros response'.
  destruct (_ || _); apply keeps_bind; auto with keeps.
Qed.

Lemma keeps_login (h : Host) : keeps (Enhanced.login h).
Proof.
  unfold Enhanced.login.
  apply keeps_bind; [apply keeps_loginForm|]. intros form. apply keeps_submit.
Qed.

Lemma keeps_ensureAmazonSession (h : Host) : keeps (Enhanced.ensureAmazonSession h).
Proof.
  unfold Enhanced.ensureAmazonSession.
  apply keeps_bind; [auto with keeps|]. intros [|]; [auto with keeps|].
  destruct (_ || _); [auto with keeps|].
  apply keeps_tryCatch; [apply keeps_login|].
  intros e. apply keeps_bind; auto with keeps.
Qed.

Lemma keeps_getAmazonTrackingWithLogin (h : Host) (inp : Inputs) (orderId : string) :
  keeps (Enhanced.getAmazonTrackingWithLogin h inp orderId).
Proof.
  unfold Enhanced.getAmazonTrackingWithLogin.
  apply keeps_bind; [apply keeps_ensureAmazonSession|]. intros _.
  apply keeps_bind; [auto with keeps|]. intros response. auto with keeps.
Qed.

Lemma keeps_Enhanced_dispatch (h : Host) (inp : Inputs) (c tn : string) :
  keeps (Enhanced.dispatch h inp c tn).
Proof.
  unfold Enhanced.dispatch. destruct (String.eqb c "amazon");
    [apply keeps_getAmazonTrackingWithLogin|auto with keeps].
Qed.

Lemma keeps_Server_dispatch (h : Host) (inp : Inputs) (c tn : string) :
  keeps (Server.dispatch h inp c tn).
Proof.
  unfold Server.dispatch, Server.getAmazonTracking.
  destruct (String.eqb c "amazon"); [|auto with keeps].
  destruct (unset _); auto with keeps.
Qed.

End Frame.

(** ** The tracking handler *)

Section Handler.

Lemma Server_track_run (h : Host) (inp : Inputs) (tn c : string) (w : World) :
  Js.falsy tn = false → Server.detectCarrier tn = Some c →
  Server.track h inp (Some tn) w =
  match cached w (c ++ ":" ++ tn) (t_check inp) with
  | Some r => (Return (Json r), w)
  | None =>
      match Server.dispatch h inp c tn (snd (calling c tn w)) with
      | (Return r, w') =>
          (Return (Json r),
           withCache (<[c ++ ":" ++ tn :=
                         {| data := r; expiry := t_store inp + CACHE_TTL |}]>
                        (trackingCache w')) w')
      | (Throw m, w') => (Return (Error 500 (Js.orElse m fallbackText)), w')
      end
  end.
Proof.
  intros Hf Hd. unfold Server.track. cbv beta iota. rewrite Hf, Hd. cbv beta iota zeta.
  unfold cached, mbind, M_bind, gets, tryCatch, calling, modify, mret, M_ret. cbv beta iota.
  destruct (trackingCache w !! (c ++ ":" ++ tn)) as [e|];
    [destruct (expiry e >? t_check inp); [reflexivity|]|];
    cbn [snd];
    match goal with |- context [Server.dispatch ?a ?b ?c ?d ?e] =>
      destruct (Server.dispatch a b c d e) as [[r|m] w'] end; reflexivity.
Qed.

Lemma Enhanced_track_run (h : Host) (inp : Inputs) (tn c : string) (w : World) :
  Js.falsy tn = false → Enhanced.detectCarrier tn = Some c →
  Enhanced.track h inp (Some tn) w =
  match cached w (c ++ ":" ++ tn) (t_check inp) with
  | Some r => (Return (Json r), w)
  | None =>
      match Enhanced.dispatch h inp c tn (snd (calling c tn w)) with
      | (Return r, w') =>
          (Return (Json r),
           withEmitted (emitted w' ++ [(ToAll, tracking_update r)])%list
             (withCache (<[c ++ ":" ++ tn :=
                            {| data := r; expiry := t_store inp + CACHE_TTL |}]>
                           (trackingCache w')) w'))
      | (Throw m, w') => (Return (Error 500 (Js.orElse m fallbackText)), w')
      end
  end.
Proof.
  intros Hf Hd. unfold Enhanced.track. cbv beta iota. rewrite Hf, Hd. cbv beta iota zeta.
  unfold cached, mbind, M_bind, gets, tryCatch, calling, emit, modify, mret, M_ret.
  cbv beta iota.
  destruct (trackingCache w !! (c ++ ":" ++ tn)) as [e|];
    [destruct (expiry e >? t_check inp); [reflexivity|]|];
    cbn [snd];
    match goal with |- context [Enhanced.dispatch ?a ?b ?c ?d ?e] =>
      destruct (Enhanced.dispatch a b c d e) as [[r|m] w'] end; reflexivity.
Qed.

End Handler.

Section HandlerClaims.

(** C6, as the specification states it, fails when the error of the
    strategy has an empty message: the answer then carries the handler's
    own text.  Here the request for the order page fails without a
    message while the session holds. *)
Lemma C6_counterexample :
  let h := scriptedHost [Failed EmptyString] in
  let inp := inputsAt noon (1 # 4) in
  let tn := "111-2222222-3333333" in
  fst (Enhanced.dispatch h inp "amazon" tn (snd (calling "amazon" tn withActiveSession)))
  = Throw EmptyString ∧
  fst (Enhanced.track h inp (Some tn) withActiveSession)
  = Return (Error 500 "An error occurred while tracking.").
Proof. vm_compute. split; reflexivity. Qed.

(** C6, amended.  In both revisions, for an identifier whose carrier is
    detected and for which the cache holds no live entry, when the
    strategy the handler dispatches to fails, the handler answers 500 with
    the message of the failure as it is when that message is not empty,
    and with the fixed text "An error occurred while tracking." when it is
    empty; the cache is what it was, and nothing is emitted. *)
Theorem C6_strategy_failure_propagates :
  failurePropagates Server.detectCarrier Server.dispatch Server.track ∧
  failurePropagates Enhanced.detectCarrier Enhanced.dispatch Enhanced.track.
Proof.
  split.
  - intros h inp tn c w w' m Hf Hd Hc Hdisp.
    rewrite (Server_track_run h inp tn c w Hf Hd), Hc, Hdisp.
    exists w'. split; [reflexivity|].
    pose proof (keeps_Server_dispatch h inp c tn (snd (calling c tn w))) as Hq.
    rewrite Hdisp in Hq. destruct Hq as (q1 & _ & _ & q4 & q5 & _). cbn [snd] in *.
    repeat split; assumption.
  - intros h inp tn c w w' m Hf Hd Hc Hdisp.
    rewrite (Enhanced_track_run h inp tn c w Hf Hd), Hc, Hdisp.
    exists w'. split; [reflexivity|].
    pose proof (keeps_Enhanced_dispatch h inp c tn (snd (calling c tn w))) as Hq.
    rewrite Hdisp in Hq. destruct Hq as (q1 & _ & _ & q4 & q5 & _). cbn [snd] in *.
    repeat split; assumption.
Qed.

(** An Amazon order on a host without credentials, in both revisions. *)
Lemma C6_witness :
  let inp := inputsAt noon (1 # 4) in
  let tn := "111-2222222-3333333" in
  (∃ w, Server.track utcHost inp (Some tn) boot
        = (Return (Error 500 "Server is not configured for Amazon tracking."), w) ∧
        trackingCache w = trackingCache boot ∧ emitted w = emitted boot ∧
        fetches w = (fetches boot ++ [("amazon", tn)])%list) ∧
  (∃ w, Enhanced.track utcHost inp (Some tn) boot
        = (Return (Error 500 "Amazon credentials (AMZ_USER, AMZ_PASS) not configured in .env file."), w) ∧
        trackingCache w = trackingCache boot ∧ emitted w = emitted boot ∧
        fetches w = (fetches boot ++ [("amazon", tn)])%list).
Proof.
  cbn zeta. destruct C6_strategy_failure_propagates as [HS HE]. split.
  - apply (HS utcHost (inputsAt noon (1 # 4)) "111-2222222-3333333" "amazon" boot
              (snd (calling "amazon" "111-2222222-3333333" boot))
              "Server is not configured for Amazon tracking.").
    + reflexivity.
    + vm_compute. reflexivity.
    + vm_compute. reflexivity.
    + vm_compute. reflexivity.
  - apply (HE utcHost (inputsAt noon (1 # 4)) "111-2222222-3333333" "amazon" boot
              (snd (calling "amazon" "111-2222222-3333333" boot))
              "Amazon credentials (AMZ_USER, AMZ_PASS) not configured in .env file.").
    + reflexivity.
    + vm_compute. reflexivity.
    + vm_compute. reflexivity.
    + vm_compute. reflexivity.
Defined.

Lemma cached_fresh (w : World) (key : string) (r : TrackingResult) (e t : Z) :
  t < e →
  cached (withCache (<[key := {| data := r; expiry := e |}]> (trackingCache w)) w) key t
  = Some r.
Proof.
  intros H. unfold cached. cbn [trackingCache withCache].
  rewrite lookup_insert_eq. cbn [expiry data].
  rewrite Z.gtb_ltb. now apply Z.ltb_lt in H as ->.
Qed.

Lemma cached_expired (w : World) (key : string) (r : TrackingResult) (e t : Z) :
  e ≤ t →
  cached (withCache (<[key := {| data := r; expiry := e |}]> (trackingCache w)) w) key t
  = None.
Proof.
  intros H. unfold cached. cbn [trackingCache withCache].
  rewrite lookup_insert_eq. cbn [expiry data].
  rewrite Z.gtb_ltb. now apply Z.ltb_ge in H as ->.
Qed.

End HandlerClaims.

(** C2, as the specification states it, fails on [server.js]: two
    calls within the time to live answer with the same result and call the
    strategy once, but no [tracking_update] is emitted, by the first call
    or by the second. *)
Lemma C2_counterexample :
  let tn := "1Z12345678901234AB" in
  let first := Server.track utcHost (inputsAt noon (3 # 4)) (Some tn) boot in
  let second := Server.track utcHost (inputsAt (noon + 60000) (1 # 4)) (Some tn) (snd first) in
  fst first = fst second ∧
  fst first = Return (Json (getGenericTracking utcHost (inputsAt noon (3 # 4)) "ups" tn)) ∧
  fetches (snd second) = [("ups", tn)] ∧
  emitted (snd second) = [].
Proof. vm_compute. repeat split. Qed.

(** C2, amended.  For an identifier whose carrier is detected, a first
    call that finds no live entry and whose strategy succeeds stores the
    result and calls the strategy once; the revision with the login flow
    then emits exactly one [tracking_update] to all sockets, and
    [server.js] emits nothing.  A second call before the entry expires
    (its clock reading below the time of storing plus ten minutes) answers
    with the identical result and changes nothing: no strategy call, no
    emission.  For a third call once the ten minutes have passed the entry
    is absent, and the strategy is called a second time. *)
Theorem C2_cache_and_broadcast :
  cachesFor Server.detectCarrier Server.dispatch Server.track (fun _ => []) ∧
  cachesFor Enhanced.detectCarrier Enhanced.dispatch Enhanced.track
            (fun r => [(ToAll, tracking_update r)]).
Proof.
  split.
  - intros h inp1 inp2 inp3 tn c w w' r Hf Hd Hc Hdisp H2 H3.
    pose proof (keeps_Server_dispatch h inp1 c tn (snd (calling c tn w))) as Hq.
    rewrite Hdisp in Hq. destruct Hq as (q1 & _ & _ & q4 & q5 & _). cbn [snd] in q1, q4, q5.
    rewrite (Server_track_run h inp1 tn c w Hf Hd), Hc, Hdisp.
    eexists. split; [reflexivity|].
    split; [exact q5|]. split; [now rewrite app_nil_r|].
    rewrite (Server_track_run h inp2 tn c _ Hf Hd), (cached_fresh _ _ _ _ _ H2).
    split; [reflexivity|]. split; [now apply cached_expired|].
    split; [|reflexivity].
    rewrite (Server_track_run h inp3 tn c _ Hf Hd), (cached_expired _ _ _ _ _ H3).
    match goal with |- context [Server.dispatch ?a ?b ?c ?d ?e] =>
      pose proof (keeps_Server_dispatch a b c d e) as Hq;
      destruct (Server.dispatch a b c d e) as [[r'|m] w3] end;
      destruct Hq as (_ & _ & _ & _ & p5 & _); exact p5.
  - intros h inp1 inp2 inp3 tn c w w' r Hf Hd Hc Hdisp H2 H3.
    pose proof (keeps_Enhanced_dispatch h inp1 c tn (snd (calling c tn w))) as Hq.
    rewrite Hdisp in Hq. destruct Hq as (q1 & _ & _ & q4 & q5 & _). cbn [snd] in q1, q4, q5.
    rewrite (Enhanced_track_run h inp1 tn c w Hf Hd), Hc, Hdisp.
    eexists. split; [reflexivity|].
    split; [exact q5|]. split; [cbn [emitted withEmitted]; now rewrite q4|].
    rewrite (Enhanced_track_run h inp2 tn c _ Hf Hd).
    assert (Hhit : ∀ t, t < t_store inp1 + CACHE_TTL →
              cached (withEmitted (emitted w' ++ [(ToAll, tracking_update r)])%list
                        (withCache (<[c ++ ":" ++ tn :=
                                       {| data := r; expiry := t_store inp1 + CACHE_TTL |}]>
                                      (trackingCache w')) w'))
                     (c ++ ":" ++ tn) t = Some r).
    { intros t Ht. exact (cached_fresh w' _ r _ t Ht). }
    assert (Hmiss : ∀ t, t_store inp1 + CACHE_TTL ≤ t →
              cached (withEmitted (emitted w' ++ [(ToAll, tracking_update r)])%list
                        (withCache (<[c ++ ":" ++ tn :=
                                       {| data := r; expiry := t_store inp1 + CACHE_TTL |}]>
                                      (trackingCache w')) w'))
                     (c ++ ":" ++ tn) t = None).
    { intros t Ht. exact (cached_expired w' _ r _ t Ht). }
    rewrite (Hhit _ H2).
    split; [reflexivity|]. split; [now apply Hmiss|].
    split; [|reflexivity].
    rewrite (Enhanced_track_run h inp3 tn c _ Hf Hd), (Hmiss _ H3).
    match goal with |- context [Enhanced.dispatch ?a ?b ?c ?d ?e] =>
      pose proof (keeps_Enhanced_dispatch a b c d e) as Hq;
      destruct (Enhanced.dispatch a b c d e) as [[r'|m] w3] end;
      destruct Hq as (_ & _ & _ & _ & p5 & _); exact p5.
Qed.

(** Three calls for a UPS number on the revision with the login flow: at
    noon, a minute later, and after more than ten minutes. *)
Lemma C2_witness :
  let tn := "1Z12345678901234AB" in
  let inp1 := inputsAt noon (3 # 4) in
  let inp2 := inputsAt (noon + 60000) (1 # 4) in
  let inp3 := inputsAt (noon + 700000) (1 # 4) in
  let r := getGenericTracking utcHost inp1 "ups" tn in
  t_check inp2 < t_store inp1 + CACHE_TTL ∧
  t_store inp1 + CACHE_TTL ≤ t_check inp3 ∧
  ∃ w1,
    Enhanced.track utcHost inp1 (Some tn) boot = (Return (Json r), w1) ∧
    fetches w1 = [("ups", tn)] ∧
    emitted w1 = [(ToAll, tracking_update r)] ∧
    Enhanced.track utcHost inp2 (Some tn) w1 = (Return (Json r), w1) ∧
    cached w1 ("ups" ++ ":" ++ tn) (t_check inp3) = None ∧
    fetches (snd (Enhanced.track utcHost inp3 (Some tn) w1)) = [("ups", tn); ("ups", tn)] ∧
    emitted (snd (Enhanced.track utcHost inp2 (Some tn) w1)) = emitted w1.
Proof.
  cbn zeta. split; [reflexivity|]. split; [discriminate|].
  destruct C2_cache_and_broadcast as [_ HE].
  destruct (HE utcHost (inputsAt noon (3 # 4)) (inputsAt (noon + 60000) (1 # 4))
               (inputsAt (noon + 700000) (1 # 4)) "1Z12345678901234AB" "ups" boot
               (snd (calling "ups" "1Z12345678901234AB" boot))
               (getGenericTracking utcHost (inputsAt noon (3 # 4)) "ups"
                  "1Z12345678901234AB"))
    as (w1 & H1 & H2 & H3 & H4 & H5 & H6 & H7).
  - reflexivity.
  - vm_compute. reflexivity.
  - vm_compute. reflexivity.
  - reflexivity.
  - reflexivity.
  - discriminate.
  - exists w1. repeat split; try assumption.
    rewrite H6, H2. reflexivity.
Defined.

(** ** The Amazon strategy *)

Section Amazon.

Lemma starts_request (h : Host) (r : Request) : starts r (request h r).
Proof.
  intros w. exists []. unfold request.
  destruct (http h (length (sent w)) r); reflexivity.
Qed.

Lemma starts_bind {A B : Type} (r : Request) (m : M A) (f : A -> M B) :
  starts r m → (∀ a, keeps (f a)) → starts r (m ≫= f).
Proof.
  intros Hm Hf w. unfold mbind, M_bind.
  destruct (Hm w) as (more & Hs). destruct (m w) as [[a|e] w1]; cbn [snd] in *.
  - destruct (Hf a w1) as (_ & _ & _ & _ & _ & more' & Hs').
    exists (more ++ more')%list. rewrite Hs', Hs, <- app_assoc. reflexivity.
  - now exists more.
Qed.

Lemma starts_tryCatch {A : Type} (r : Request) (m : M A) (handler : string -> M A) :
  starts r m → (∀ e, keeps (handler e)) → starts r (tryCatch m handler).
Proof.
  intros Hm Hh w. unfold tryCatch.
  destruct (Hm w) as (more & Hs). destruct (m w) as [[a|e] w1]; cbn [snd] in *.
  - now exists more.
  - destruct (Hh e w1) as (_ & _ & _ & _ & _ & more' & Hs').
    exists (more ++ more')%list. rewrite Hs', Hs, <- app_assoc. reflexivity.
Qed.

Lemma starts_login (h : Host) : starts (Enhanced.httpGet Enhanced.signInUrl) (Enhanced.login h).
Proof.
  unfold Enhanced.login.
  apply starts_bind; [|apply keeps_submit].
  unfold Enhanced.loginForm.
  apply starts_bind; [apply starts_request|].
  intros response. destruct (querySelector _ _); [apply keeps_ret|].
  apply keeps_bind; [apply keeps_request|]. intros response'.
  destruct (querySelector _ _); [apply keeps_ret|apply keeps_throw].
Qed.

(** With the flag down and the credentials set, the session is sought by
    a login, whose first request is for the sign-in page. *)
Lemma ensure_logs_in (h : Host) (w : World) :
  amazonSessionActive w = false →
  unset (AMZ_USER h) = false → unset (AMZ_PASS h) = false →
  ∃ more, sent (snd (Enhanced.ensureAmazonSession h w))
          = (sent w ++ Enhanced.httpGet Enhanced.signInUrl :: more)%list.
Proof.
  intros Ha Hu Hp. unfold Enhanced.ensureAmazonSession, mbind at 1, M_bind at 1, gets.
  rewrite Ha, Hu, Hp. cbn [orb].
  apply (starts_tryCatch _ _ _ (starts_login h)).
  intros e. apply keeps_bind; [apply keeps_session|]. intros _. apply keeps_throw.
Qed.

(** A challenge page in answer to the email ends the login. *)
Lemma ensure_challenge (h : Host) (w w1 w2 : World) (form : option Element)
    (formData : list (string * string)) (response : string) :
  amazonSessionActive w = false →
  unset (AMZ_USER h) = false → unset (AMZ_PASS h) = false →
  Enhanced.loginForm h w = (Return form, w1) →
  Enhanced.emailForm h form w1 = (Return formData, w2) →
  http h (length (sent w2)) (Enhanced.httpPost Enhanced.signInUrl formData) = Body response →
  querySelector (JSDOM h response) SignInForm = None →
  Js.includes response "Enter your password" = false →
  Js.includes response "auth-mfa-otpcode" = true ∨
  Js.includes response "/errors/validateCaptcha" = true →
  Enhanced.ensureAmazonSession h w
  = (Throw ("Amazon login process failed: " ++ challengeMessage response),
     withSession false
       (withSent (sent w2 ++ [Enhanced.httpPost Enhanced.signInUrl formData])%list w2)).
Proof.
  intros Ha Hu Hp Hform Hemail Hhttp Hq Hpw Hch.
  unfold Enhanced.ensureAmazonSession, mbind at 1, M_bind at 1, gets.
  rewrite Ha, Hu, Hp. cbn [orb].
  unfold tryCatch, Enhanced.login, mbind at 1, M_bind at 1. rewrite Hform.
  unfold Enhanced.submit, mbind at 1, M_bind at 1. rewrite Hemail.
  unfold mbind at 1, M_bind at 1, request at 1. rewrite Hhttp.
  cbv beta iota zeta. rewrite Hq.
  unfold mbind at 1, M_bind at 1, Enhanced.intermediatePage, challengeMessage.
  rewrite Hpw.
  destruct (Js.includes response "auth-mfa-otpcode").
  - reflexivity.
  - destruct Hch as [Hch|Hch]; [discriminate|]. rewrite Hch. reflexivity.
Qed.

(** Once the session holds and the details page has come, the strategy
    returns. *)
Lemma amazon_returns (h : Host) (inp : Inputs) (orderId : string) (w w1 : World)
    (b : bool) (response : string) :
  Enhanced.ensureAmazonSession h w = (Return b, w1) →
  http h (length (sent w1)) (Enhanced.httpGet (Enhanced.orderDetailsUrl ++ orderId))
  = Body response →
  ∃ r w',
    Enhanced.getAmazonTrackingWithLogin h inp orderId w = (Return r, w') ∧
    trackingNumber r = orderId ∧
    status r = statusOr (JSDOM h response) ∧
    activity r
    = match map Enhanced.readEvent
              (Enhanced.findEventNodes (JSDOM h response) Enhanced.eventSelectors) with
      | [] => [synthesized (statusOr (JSDOM h response)) (t_now inp)]
      | events => rev events
      end.
Proof.
  intros He Hhttp.
  unfold Enhanced.getAmazonTrackingWithLogin, mbind at 1, M_bind at 1. rewrite He.
  unfold mbind at 1, M_bind at 1, request. rewrite Hhttp.
  do 2 eexists. split; [reflexivity|]. cbn [trackingNumber status activity].
  split; [reflexivity|]. split.
  - unfold statusOr, pageStatus. now destruct (querySelector _ StatusText).
  - unfold statusOr, pageStatus, synthesized.
    destruct (map _ _); [|reflexivity]. cbn [length Nat.ltb Nat.leb].
    now destruct (querySelector _ StatusText).
Qed.

End Amazon.

(** C7, as the specification states it, fails: for a page with no event
    and no status element the strategy does not fail; it returns a result
    whose one event carries the fixed text "Status not found", which is no
    text of the page. *)
Lemma C7_counterexample :
  let h := scriptedHost [Body "nothing here"] in
  let inp := inputsAt noon (1 # 4) in
  let res := Enhanced.getAmazonTrackingWithLogin h inp "111-2222222-3333333"
               withActiveSession in
  Enhanced.findEventNodes (JSDOM h "nothing here") Enhanced.eventSelectors = [] ∧
  pageStatus (JSDOM h "nothing here") = None ∧
  ∃ r, fst res = Return r ∧
       status r = "Status not found" ∧
       activity r = [synthesized "Status not found" (t_now inp)].
Proof.
  cbn zeta. split; [reflexivity|]. split; [reflexivity|].
  eexists. split; [vm_compute; reflexivity|]. split; reflexivity.
Qed.

(** C7, amended.  Once the session holds and the details page has been
    fetched, a page on which the parser finds no event yields a result
    whose activity is one synthesized event: built from the status text of
    the page when the page has one, and from the fixed text
    "Status not found" when it has none.  The strategy does not fail on
    any page: it has no parse error, and with neither events nor status
    text it still returns. *)
Theorem C7_zero_events_synthesized (h : Host) (inp : Inputs) (orderId : string)
    (w w1 : World) (b : bool) (response : string) :
  Enhanced.ensureAmazonSession h w = (Return b, w1) →
  http h (length (sent w1)) (Enhanced.httpGet (Enhanced.orderDetailsUrl ++ orderId))
  = Body response →
  Enhanced.findEventNodes (JSDOM h response) Enhanced.eventSelectors = [] →
  ∃ r w',
    Enhanced.getAmazonTrackingWithLogin h inp orderId w = (Return r, w') ∧
    (∀ s, pageStatus (JSDOM h response) = Some s →
          status r = s ∧ activity r = [synthesized s (t_now inp)]) ∧
    (pageStatus (JSDOM h response) = None →
          status r = "Status not found" ∧
          activity r = [synthesized "Status not found" (t_now inp)]).
Proof.
  intros He Hhttp Hev.
  destruct (amazon_returns h inp orderId w w1 b response He Hhttp)
    as (r & w' & Hr & _ & Hs & Ha).
  rewrite Hev in Ha. cbn [map] in Ha.
  exists r, w'. split; [exact Hr|]. unfold statusOr in *.
  split.
  - intros s Hp. rewrite Hp in *. now split.
  - intros Hp. rewrite Hp in *. now split.
Qed.

Lemma C7_witness :
  let h := scriptedHost [Body "Shipped"] in
  let inp := inputsAt noon (1 # 4) in
  ∃ r w',
    Enhanced.getAmazonTrackingWithLogin h inp "111-2222222-3333333" withActiveSession
    = (Return r, w') ∧
    status r = "Shipped" ∧ activity r = [synthesized "Shipped" (t_now inp)].
Proof.
  cbn zeta.
  destruct (C7_zero_events_synthesized (scriptedHost [Body "Shipped"])
              (inputsAt noon (1 # 4)) "111-2222222-3333333"
              withActiveSession withActiveSession true "Shipped")
    as (r & w' & Hr & Hsome & _).
  - reflexivity.
  - reflexivity.
  - reflexivity.
  - exists r, w'. split; [exact Hr|]. apply Hsome. reflexivity.
Defined.

(** C8, as the specification states it, fails: after a login that met an
    MFA challenge the flag is down as before any login, and the next call
    logs in anew, here with success. *)
Lemma C8_counterexample :
  let h := scriptedHost mfaThenOk in
  let first := Enhanced.ensureAmazonSession h boot in
  let second := Enhanced.ensureAmazonSession h (snd first) in
  fst first = Throw ("Amazon login process failed: " ++ Enhanced.mfaMessage) ∧
  amazonSessionActive (snd first) = amazonSessionActive boot ∧
  fst second = Return true ∧
  amazonSessionActive (snd second) = true ∧
  map url (news (sent (snd first)) (sent (snd second)))
  = [Enhanced.signInUrl; Enhanced.signInUrl; Enhanced.signInUrl; Enhanced.orderHistoryUrl].
Proof. vm_compute. repeat split. Qed.

(** C8, amended.  When the answer to the email carries no sign-in form
    and no password prompt but the marker of an MFA challenge or of a
    captcha challenge, the login fails with a message of its own for each
    of the two, under the common prefix of login failures, and leaves the
    session flag down.  That state is not terminal: the flag is what it is
    before any login, and the next call with the credentials set starts a
    new login, with a request for the sign-in page. *)
Theorem C8_challenge_not_terminal (h : Host) (w w1 w2 : World) (form : option Element)
    (formData : list (string * string)) (response : string) :
  amazonSessionActive w = false →
  unset (AMZ_USER h) = false → unset (AMZ_PASS h) = false →
  Enhanced.loginForm h w = (Return form, w1) →
  Enhanced.emailForm h form w1 = (Return formData, w2) →
  http h (length (sent w2)) (Enhanced.httpPost Enhanced.signInUrl formData) = Body response →
  querySelector (JSDOM h response) SignInForm = None →
  Js.includes response "Enter your password" = false →
  Js.includes response "auth-mfa-otpcode" = true ∨
  Js.includes response "/errors/validateCaptcha" = true →
  let outcome := Enhanced.ensureAmazonSession h w in
  fst outcome = Throw ("Amazon login process failed: " ++ challengeMessage response) ∧
  challengeMessage response
  = (if Js.includes response "auth-mfa-otpcode"
     then Enhanced.mfaMessage else Enhanced.captchaMessage) ∧
  Enhanced.mfaMessage ≠ Enhanced.captchaMessage ∧
  amazonSessionActive (snd outcome) = false ∧
  ∃ more, sent (snd (Enhanced.ensureAmazonSession h (snd outcome)))
          = (sent (snd outcome) ++ Enhanced.httpGet Enhanced.signInUrl :: more)%list.
Proof.
  intros Ha Hu Hp Hform Hemail Hhttp Hq Hpw Hch. cbn zeta.
  rewrite (ensure_challenge h w w1 w2 form formData response
             Ha Hu Hp Hform Hemail Hhttp Hq Hpw Hch).
  cbn [fst snd]. split; [reflexivity|]. split; [reflexivity|].
  split; [discriminate|]. split; [reflexivity|].
  now apply ensure_logs_in.
Qed.

Lemma C8_witness :
  let h := scriptedHost captchaScript in
  let outcome := Enhanced.ensureAmazonSession h boot in
  fst outcome = Throw ("Amazon login process failed: " ++ Enhanced.captchaMessage) ∧
  amazonSessionActive (snd outcome) = false ∧
  ∃ more, sent (snd (Enhanced.ensureAmazonSession h (snd outcome)))
          = (sent (snd outcome) ++ Enhanced.httpGet Enhanced.signInUrl :: more)%list.
Proof.
  cbn zeta.
  destruct (C8_challenge_not_terminal (scriptedHost captchaScript) boot
              (withSent [Enhanced.httpGet Enhanced.signInUrl] boot)
              (withSent [Enhanced.httpGet Enhanced.signInUrl] boot)
              (Some emptyNode)
              [("email", "user@example.com"); ("create", "0")]
              "<a href=/errors/validateCaptcha>")
    as (H1 & _ & _ & H4 & H5); try reflexivity.
  - right. reflexivity.
  - split; [exact H1|]. split; [exact H4|exact H5].
Defined.

(** * Further properties *)

(** ** Detection: lengths, exclusive rules, letter case *)

Section DetectionMore.
Import Regex.

Lemma body_length (i : bool) (r : re) (cs : list ascii) :
  endsEol r = true → run i r (fun _ => true) (0%nat, cs) = true →
  (wmin r ≤ length cs ≤ wmax r)%nat.
Proof.
  intros He H. apply run_width in H as (m & (Hb & _ & _) & Hm).
  specialize (Hm He). cbn in Hm. lia.
Qed.

Lemma fedex_length (i : bool) (cs : list ascii) :
  run i (Bol >> Alt (Times 12 (Cls [rg "0" "9"])) (Times 15 (Cls [rg "0" "9"])) >> Eol)%re
      (fun _ => true) (0%nat, cs) = true →
  length cs = 12%nat ∨ length cs = 15%nat.
Proof.
  rewrite run_bol0, run_alt_cat. intros H. apply orb_true_iff in H as [H|H];
    apply body_length in H; try reflexivity; cbn in H; lia.
Qed.

Lemma Server_length (s t : string) :
  Server.detectCarrier s = Some t → In (length (chars s)) (tagLengths t).
Proof.
  unfold Server.detectCarrier.
  destruct (test Server.reUPS s) eqn:E1.
  { intros [= <-]. apply test_length in E1; [|reflexivity]. cbn in *. lia. }
  destruct (test Server.reFEDEX s) eqn:E2.
  { intros [= <-]. rewrite test_at0 in E2 by reflexivity.
    apply fedex_length in E2. cbn. lia. }
  destruct (test Server.reDHL s) eqn:E3.
  { intros [= <-]. apply test_length in E3; [|reflexivity]. cbn in *. lia. }
  destruct (test Server.reUSPS s) eqn:E4.
  { intros [= <-]. apply test_length in E4; [|reflexivity]. cbn in *. lia. }
  destruct (test Server.reAMAZON s) eqn:E5; [|discriminate].
  intros [= <-]. apply test_length in E5; [|reflexivity]. cbn in *. lia.
Qed.

Lemma Enhanced_length (s t : string) :
  Enhanced.detectCarrier s = Some t → In (length (chars s)) (tagLengths t).
Proof.
  unfold Enhanced.detectCarrier.
  destruct (test Enhanced.reUPS s) eqn:E1.
  { intros [= <-]. apply test_length in E1; [|reflexivity]. cbn in *. lia. }
  destruct (test Enhanced.reFEDEX s) eqn:E2.
  { intros [= <-]. rewrite test_at0 in E2 by reflexivity.
    apply fedex_length in E2. cbn. lia. }
  destruct (test Enhanced.reDHL s) eqn:E3.
  { intros [= <-]. apply test_length in E3; [|reflexivity]. cbn in *. lia. }
  destruct (test Enhanced.reUSPS s) eqn:E4.
  { intros [= <-]. apply test_length in E4; [|reflexivity]. cbn in *. lia. }
  destruct (test Enhanced.reAMAZON s) eqn:E5; [|discriminate].
  intros [= <-]. apply test_length in E5; [|reflexivity]. cbn in *. lia.
Qed.

(** X1.  In both revisions a detected identifier has one of the lengths of
    its tag: 18 for ups, 12 or 15 for fedex, 13 for dhl, 22 to 24 for usps,
    19 for amazon; an identifier of any other length is not detected. *)
Theorem X1_detected_lengths (s t : string) :
  (Server.detectCarrier s = Some t → In (length (chars s)) (tagLengths t)) ∧
  (Enhanced.detectCarrier s = Some t → In (length (chars s)) (tagLengths t)) ∧
  (¬ In (length (chars s)) [12; 13; 15; 18; 19; 22; 23; 24]%nat →
   Server.detectCarrier s = None ∧ Enhanced.detectCarrier s = None).
Proof.
  split; [apply Server_length|]. split; [apply Enhanced_length|].
  intros Hn. split.
  - destruct (Server.detectCarrier s) as [t'|] eqn:E; [|reflexivity].
    exfalso. apply Hn. apply Server_length in E. revert E. unfold tagLengths.
    repeat (destruct (String.eqb t' _)); cbn; intuition lia.
  - destruct (Enhanced.detectCarrier s) as [t'|] eqn:E; [|reflexivity].
    exfalso. apply Hn. apply Enhanced_length in E. revert E. unfold tagLengths.
    repeat (destruct (String.eqb t' _)); cbn; intuition lia.
Qed.

Lemma X1_witness :
  Enhanced.detectCarrier "1Z12345678901234AB" = Some "ups" ∧
  In (length (chars "1Z12345678901234AB")) (tagLengths "ups") ∧
  Server.detectCarrier "12345678901" = None.
Proof.
  destruct (X1_detected_lengths "1Z12345678901234AB" "ups") as (_ & H & _).
  destruct (X1_detected_lengths "12345678901" "ups") as (_ & _ & H').
  split; [reflexivity|]. split; [apply H; reflexivity|].
  apply H'. cbn. intuition discriminate.
Defined.

Ltac rule_cases H :=
  repeat (apply elem_of_cons in H as [H|H]; [injection H as -> ->|]);
  [..|apply elem_of_nil in H; destruct H].

Lemma Server_rule_length (r : regex) (s t : string) :
  (r, t) ∈ serverRules → test r s = true → In (length (chars s)) (tagLengths t).
Proof.
  intros Hin E. unfold serverRules in Hin. rule_cases Hin.
  - apply test_length in E; [|reflexivity]. cbn in *. lia.
  - rewrite test_at0 in E by reflexivity. apply fedex_length in E. cbn. lia.
  - apply test_length in E; [|reflexivity]. cbn in *. lia.
  - apply test_length in E; [|reflexivity]. cbn in *. lia.
  - apply test_length in E; [|reflexivity]. cbn in *. lia.
Qed.

Lemma Enhanced_rule_length (r : regex) (s t : string) :
  (r, t) ∈ enhancedRules → test r s = true → In (length (chars s)) (tagLengths t).
Proof.
  intros Hin E. unfold enhancedRules in Hin. rule_cases Hin.
  - apply test_length in E; [|reflexivity]. cbn in *. lia.
  - rewrite test_at0 in E by reflexivity. apply fedex_length in E. cbn. lia.
  - apply test_length in E; [|reflexivity]. cbn in *. lia.
  - apply test_length in E; [|reflexivity]. cbn in *. lia.
  - apply test_length in E; [|reflexivity]. cbn in *. lia.
Qed.

Lemma tagLengths_disjoint (n : nat) (t t' : string) :
  In n (tagLengths t) → In n (tagLengths t') → t = t'.
Proof.
  unfold tagLengths.
  destruct (String.eqb_spec t "ups") as [->|_];
    [|destruct (String.eqb_spec t "fedex") as [->|_];
      [|destruct (String.eqb_spec t "dhl") as [->|_];
        [|destruct (String.eqb_spec t "usps") as [->|_];
          [|destruct (String.eqb_spec t "amazon") as [->|_]; [|intros []]]]]];
    (destruct (String.eqb_spec t' "ups") as [->|_];
     [|destruct (String.eqb_spec t' "fedex") as [->|_];
       [|destruct (String.eqb_spec t' "dhl") as [->|_];
         [|destruct (String.eqb_spec t' "usps") as [->|_];
           [|destruct (String.eqb_spec t' "amazon") as [->|_]; [|intros _ []]]]]]);
    cbn; intros H H'; first [reflexivity | exfalso; lia].
Qed.

Lemma firstRule_elem (rules : list (regex * string)) (s t : string) (i : nat) :
  firstRule rules s i t → ∃ r, (r, t) ∈ rules ∧ test r s = true.
Proof.
  intros [(r & Hl & Hr) _]. exists r. split; [|exact Hr].
  apply list_elem_of_lookup. now exists i.
Qed.

(** X2.  In both revisions at most one of the five rules matches an
    identifier, so the order of the tests decides nothing: an identifier
    gets tag [t] exactly when the rule of [t] matches it. *)
Theorem X2_rules_exclusive (s t : string) :
  (Server.detectCarrier s = Some t ↔ ∃ r, (r, t) ∈ serverRules ∧ test r s = true) ∧
  (Enhanced.detectCarrier s = Some t ↔ ∃ r, (r, t) ∈ enhancedRules ∧ test r s = true) ∧
  (∀ r r' t', (r, t) ∈ serverRules → (r', t') ∈ serverRules →
              test r s = true → test r' s = true → t = t') ∧
  (∀ r r' t', (r, t) ∈ enhancedRules → (r', t') ∈ enhancedRules →
              test r s = true → test r' s = true → t = t').
Proof.
  assert (HS : ∀ r r' t', (r, t) ∈ serverRules → (r', t') ∈ serverRules →
              test r s = true → test r' s = true → t = t').
  { intros r r' t' Hin Hin' E E'.
    apply (tagLengths_disjoint (length (chars s)));
      [now apply (Server_rule_length r)|now apply (Server_rule_length r')]. }
  assert (HE : ∀ r r' t', (r, t) ∈ enhancedRules → (r', t') ∈ enhancedRules →
              test r s = true → test r' s = true → t = t').
  { intros r r' t' Hin Hin' E E'.
    apply (tagLengths_disjoint (length (chars s)));
      [now apply (Enhanced_rule_length r)|now apply (Enhanced_rule_length r')]. }
  split; [|split; [|split; [exact HS|exact HE]]].
  - rewrite Server_detect_firstMatch. split.
    + intros H. apply firstMatch_Some in H as [i H]. now apply firstRule_elem in H.
    + intros (r & Hin & E).
      destruct (firstMatch serverRules s) as [t'|] eqn:F.
      * apply firstMatch_Some in F as [i F]. apply firstRule_elem in F as (r' & Hin' & E').
        f_equal. symmetry. now apply (HS r r' t').
      * rewrite firstMatch_None in F. rewrite (F r t Hin) in E. discriminate.
  - rewrite Enhanced_detect_firstMatch. split.
    + intros H. apply firstMatch_Some in H as [i H]. now apply firstRule_elem in H.
    + intros (r & Hin & E).
      destruct (firstMatch enhancedRules s) as [t'|] eqn:F.
      * apply firstMatch_Some in F as [i F]. apply firstRule_elem in F as (r' & Hin' & E').
        f_equal. symmetry. now apply (HE r r' t').
      * rewrite firstMatch_None in F. rewrite (F r t Hin) in E. discriminate.
Qed.

Lemma X2_witness :
  Regex.test Enhanced.reDHL "ab123456789cd" = true ∧
  Enhanced.detectCarrier "ab123456789cd" = Some "dhl".
Proof.
  split; [reflexivity|].
  apply (X2_rules_exclusive "ab123456789cd" "dhl").
  exists Enhanced.reDHL. split; [|reflexivity].
  unfold enhancedRules. do 2 right. left.
Defined.

Lemma rep_agree (f : ascii -> ascii) (step step' : cont -> cont) :
  (∀ k k', (∀ j l, k (j, map f l) = k' (j, l)) →
           ∀ j l, step k (j, map f l) = step' k' (j, l)) →
  ∀ n k k', (∀ j l, k (j, map f l) = k' (j, l)) →
            ∀ j l, rep step n k (j, map f l) = rep step' n k' (j, l).
Proof.
  intros Hstep n; induction n as [|n IH]; intros k k' Hk j l; cbn.
  - apply Hk.
  - apply Hstep. intros j' l'. now apply IH.
Qed.

Lemma run_agree (i i' : bool) (f : ascii -> ascii) (r : re) :
  agree i i' f r →
  ∀ k k', (∀ j l, k (j, map f l) = k' (j, l)) →
          ∀ j l, run i r k (j, map f l) = run i' r k' (j, l).
Proof.
  induction r as [| |c|rs|a IHa b IHb|a IHa b IHb|n a IHa|lo hi a IHa];
    cbn [agree]; intros Hr k k' Hk j l; cbn [run].
  - cbn. now rewrite Hk.
  - cbn. destruct l; cbn; [apply (Hk j [])|reflexivity].
  - unfold eat. cbn. destruct l as [|x l]; cbn; [reflexivity|].
    now rewrite Hr, (Hk (S j) l).
  - unfold eat. cbn. destruct l as [|x l]; cbn; [reflexivity|].
    now rewrite Hr, (Hk (S j) l).
  - destruct Hr as [Ha Hb]. apply (IHa Ha). intros j' l'. now apply (IHb Hb).
  - destruct Hr as [Ha Hb]. now rewrite (IHa Ha k k' Hk), (IHb Hb k k' Hk).
  - apply rep_agree; [|exact Hk]. intros k1 k1' Hk1 j' l'. now apply IHa.
  - induction (seq lo (S hi - lo)) as [|m ms IHms]; [reflexivity|].
    cbn [existsb]. rewrite IHms. f_equal.
    apply rep_agree; [|exact Hk]. intros k1 k1' Hk1 j' l'. now apply IHa.
Qed.

Lemma existsb_same {A : Type} (p q : A -> bool) (l : list A) :
  (∀ x, p x = q x) → existsb p l = existsb q l.
Proof. intros H. induction l as [|x l IH]; cbn; [reflexivity|]. now rewrite H, IH. Qed.

Lemma test_agree (i i' : bool) (f : ascii -> ascii) (r : re) (s : string) :
  agree i i' f r →
  test (RegExp r i) (Js.mapChars f s) = test (RegExp r i') s.
Proof.
  intros Hr. unfold test. cbn [source ignoreCase].
  pose proof (chars_mapChars f s) as E. unfold chars in E. rewrite E, length_map.
  apply existsb_same. intros j. rewrite skipn_map.
  now apply run_agree.
Qed.

Ltac all_chars :=
  cbn [agree source]; repeat split; intros x;
  destruct x as [[] [] [] [] [] [] [] []]; vm_compute; reflexivity.

Lemma Enhanced_tests_lower (s : string) :
  test Enhanced.reUPS (Js.toLowerCase s) = test Enhanced.reUPS s ∧
  test Enhanced.reFEDEX (Js.toLowerCase s) = test Enhanced.reFEDEX s ∧
  test Enhanced.reDHL (Js.toLowerCase s) = test Enhanced.reDHL s ∧
  test Enhanced.reUSPS (Js.toLowerCase s) = test Enhanced.reUSPS s ∧
  test Enhanced.reAMAZON (Js.toLowerCase s) = test Enhanced.reAMAZON s.
Proof.
  unfold Js.toLowerCase. repeat split; apply test_agree; all_chars.
Qed.

Lemma Enhanced_tests_upper (s : string) :
  test Enhanced.reUPS (Js.toUpperCase s) = test Enhanced.reUPS s ∧
  test Enhanced.reFEDEX (Js.toUpperCase s) = test Enhanced.reFEDEX s ∧
  test Enhanced.reDHL (Js.toUpperCase s) = test Enhanced.reDHL s ∧
  test Enhanced.reUSPS (Js.toUpperCase s) = test Enhanced.reUSPS s ∧
  test Enhanced.reAMAZON (Js.toUpperCase s) = test Enhanced.reAMAZON s.
Proof.
  unfold Js.toUpperCase. repeat split; apply test_agree; all_chars.
Qed.

(** X3.  The revision with the login flow detects without regard to
    letter case: an identifier of ASCII characters, its lower-case form
    and its upper-case form get the same answer. *)
Theorem X3_enhanced_detection_ignores_case (s : string) :
  isAscii s = true →
  Enhanced.detectCarrier (Js.toLowerCase s) = Enhanced.detectCarrier s ∧
  Enhanced.detectCarrier (Js.toUpperCase s) = Enhanced.detectCarrier s.
Proof.
  intros _. unfold Enhanced.detectCarrier. split.
  - destruct (Enhanced_tests_lower s) as (-> & -> & -> & -> & ->). reflexivity.
  - destruct (Enhanced_tests_upper s) as (-> & -> & -> & -> & ->). reflexivity.
Qed.

Lemma X3_witness :
  isAscii "ab123456789cd" = true ∧
  Enhanced.detectCarrier "AB123456789CD" = Enhanced.detectCarrier "ab123456789cd".
Proof.
  split; [reflexivity|].
  exact (proj2 (X3_enhanced_detection_ignores_case "ab123456789cd" eq_refl)).
Defined.

Lemma run_dashed (i : bool) (p : ascii -> bool) (cs : list ascii) :
  (∀ c, inClass i [rg "0" "9"; rg "A" "Z"] c = true → p c = true) →
  (∀ c, sameChar i "-" c = true → c = "-"%char) →
  run i amazonBody (fun _ => true) (0%nat, cs) = true →
  dashed p cs = true.
Proof.
  intros Hp Hd H.
  assert (Hl : length cs = 19%nat).
  { apply body_length in H; [|reflexivity]. cbn in H. lia. }
  do 19 (destruct cs as [|? cs]; [discriminate Hl|]).
  destruct cs; [|discriminate Hl]. clear Hl. unfold amazonBody in H.
  rewrite run_times_cat in H. cbn [length take drop forallb Nat.leb Nat.add] in H.
  rewrite run_lit_cat, run_times_cat in H.
  cbn [length take drop forallb Nat.leb Nat.add] in H.
  rewrite run_lit_cat, run_times_cat in H.
  cbn [length take drop forallb Nat.leb Nat.add] in H.
  repeat (apply andb_true_iff in H as [? H]).
  repeat match goal with
         | E : _ && _ = true |- _ => apply andb_true_iff in E as [? ?]
         end.
  repeat match goal with
         | E : inClass _ _ _ = true |- _ => apply Hp in E
         | E : sameChar _ _ _ = true |- _ => apply Hd in E; subst
         end.
  unfold dashed. cbn [length Nat.eqb imap forallb fst snd orb compose andb].
  repeat (apply andb_true_iff; split); try assumption; reflexivity.
Qed.

Lemma class_alnum (i : bool) (c : ascii) :
  inClass i [rg "0" "9"; rg "A" "Z"] c = true → Js.isAlnum c = true.
Proof.
  intros H. destruct i; destruct c as [[] [] [] [] [] [] [] []];
    first [ vm_compute in H; discriminate H | vm_compute; reflexivity ].
Qed.

Lemma dash_only (i : bool) (c : ascii) : sameChar i "-" c = true → c = "-"%char.
Proof.
  intros H. destruct i; destruct c as [[] [] [] [] [] [] [] []];
    first [ vm_compute in H; discriminate H | reflexivity ].
Qed.

Lemma Enhanced_amazon_test (s : string) : test Enhanced.reAMAZON s = amazonShape s.
Proof.
  rewrite (test_at0 Enhanced.reAMAZON) by reflexivity.
  unfold Enhanced.reAMAZON, amazonShape. cbn [source ignoreCase]. rewrite run_bol0.
  change (run true amazonBody (fun _ => true) (0%nat, chars s)
          = dashed Js.isAlnum (chars s)).
  destruct (dashed Js.isAlnum (chars s)) eqn:E.
  - rewrite <- (map_id (chars s)).
    apply (dashed_run true (fun c => c) Js.isAlnum); [exact alnum_class_i|reflexivity|exact E].
  - apply not_true_is_false. intros H.
    apply (run_dashed true Js.isAlnum) in H;
      [congruence|exact (class_alnum true)|exact (dash_only true)].
Qed.

Lemma Server_amazon_test (s : string) :
  test Server.reAMAZON s = amazonShape s && negb (hasLower s).
Proof.
  rewrite (test_at0 Server.reAMAZON) by reflexivity.
  unfold Server.reAMAZON, amazonShape, hasLower. cbn [source ignoreCase]. rewrite run_bol0.
  change (run false amazonBody (fun _ => true) (0%nat, chars s)
          = dashed Js.isAlnum (chars s) && negb (existsb Js.isLower (chars s))).
  destruct (dashed Js.isAlnum (chars s)) eqn:E.
  - destruct (existsb Js.isLower (chars s)) eqn:L; cbn.
    + now apply dashed_lower_run.
    + now apply dashed_upper_run.
  - apply not_true_is_false. intros H.
    apply (run_dashed false Js.isAlnum) in H;
      [congruence|exact (class_alnum false)|exact (dash_only false)].
Qed.

Lemma DHL_tests (s : string) : test Server.reDHL s = test Enhanced.reDHL s.
Proof.
  symmetry. rewrite <- (mapChars_id s) at 1.
  apply (test_agree true false (fun c => c)). all_chars.
Qed.

Lemma USPS_tests (s : string) : test Server.reUSPS s = test Enhanced.reUSPS s.
Proof. reflexivity. Qed.

Lemma UPS_tests (s : string) : test Server.reUPS s = test Enhanced.reUPS s.
Proof.
  rewrite (test_at0 Server.reUPS), (test_at0 Enhanced.reUPS) by reflexivity.
  unfold Server.reUPS, Enhanced.reUPS. cbn [source ignoreCase].
  rewrite !run_bol0, !run_alt_cat, !run_assoc.
  destruct (chars s) as [|c1 [|c2 l]].
  - reflexivity.
  - rewrite !run_lit_cat. cbn. now rewrite !andb_false_r.
  - rewrite !run_lit_cat.
    assert (K : run false (Times 16 (Cls [rg "A" "Z"; rg "a" "z"; rg "0" "9"]) >> Eol)%re
                  (fun _ => true) (2%nat, l)
                = run true (Times 16 (Cls [rg "A" "Z"; rg "a" "z"; rg "0" "9"]) >> Eol)%re
                  (fun _ => true) (2%nat, l)).
    { symmetry. rewrite <- (map_id l) at 1.
      apply (run_agree true false (fun c => c)); [all_chars|reflexivity]. }
    rewrite K.
    assert (H1 : sameChar true "1" c1 = sameChar false "1" c1)
      by (destruct c1 as [[] [] [] [] [] [] [] []]; reflexivity).
    assert (HZ : sameChar true "Z" c2 = sameChar false "Z" c2 || sameChar false "z" c2)
      by (destruct c2 as [[] [] [] [] [] [] [] []]; reflexivity).
    assert (Hz : sameChar true "z" c2 = sameChar false "Z" c2 || sameChar false "z" c2)
      by (destruct c2 as [[] [] [] [] [] [] [] []]; reflexivity).
    rewrite H1, HZ, Hz.
    destruct (sameChar false "1" c1), (sameChar false "Z" c2), (sameChar false "z" c2),
      (run true _ _ _); reflexivity.
Qed.

(** X4.  The two revisions detect alike except on the AMAZON rule: the
    rule of the later revision matches exactly the identifiers of the
    shape XXX-XXXXXXX-XXXXXXX with X alphanumeric, the rule of
    [server.js] those of them without a lower-case letter, and on every
    other identifier the two give the same answer. *)
Theorem X4_revisions_differ_on_lowercase_amazon (s : string) :
  (Enhanced.detectCarrier s = Some "amazon" ↔ amazonShape s = true) ∧
  (Server.detectCarrier s = Some "amazon" ↔ amazonShape s = true ∧ hasLower s = false) ∧
  Server.detectCarrier s
  = (if amazonShape s && hasLower s then None else Enhanced.detectCarrier s).
Proof.
  assert (Hoff : amazonShape s = true →
            test Enhanced.reUPS s = false ∧ test Enhanced.reFEDEX s = false ∧
            test Enhanced.reDHL s = false ∧ test Enhanced.reUSPS s = false).
  { intros H. pose proof (dashed_length _ _ H) as Hl.
    repeat split; apply not_true_is_false; intros E.
    - apply test_length in E; [|reflexivity]. cbn in E. lia.
    - apply test_length in E; [|reflexivity]. cbn in E. lia.
    - apply test_length in E; [|reflexivity]. cbn in E. lia.
    - apply test_length in E; [|reflexivity]. cbn in E. lia. }
  unfold Server.detectCarrier, Enhanced.detectCarrier.
  rewrite UPS_tests, DHL_tests, USPS_tests, Server_amazon_test, Enhanced_amazon_test.
  change (test Server.reFEDEX s) with (test Enhanced.reFEDEX s).
  destruct (amazonShape s) eqn:A.
  - destruct (Hoff eq_refl) as (-> & -> & -> & ->).
    destruct (hasLower s); cbn; repeat split; intros; try discriminate; try reflexivity;
      try (destruct H; discriminate).
  - cbn [andb].
    destruct (test Enhanced.reUPS s), (test Enhanced.reFEDEX s),
      (test Enhanced.reDHL s), (test Enhanced.reUSPS s);
      repeat split; intros; try discriminate; try reflexivity;
      try (destruct H; discriminate).
Qed.

End DetectionMore.

(** ** The five rules, character by character *)

Section Rules.
Import Regex.

Lemma times_eol (i : bool) (n : nat) (rs : list (ascii * ascii)) (j : nat)
    (l : list ascii) :
  run i (Times n (Cls rs) >> Eol)%re (fun _ => true) (j, l)
  = Nat.eqb (length l) n && forallb (inClass i rs) l.
Proof.
  rewrite run_times_cat. destruct (Nat.eqb_spec (length l) n) as [<-|Hne].
  - rewrite Nat.leb_refl, take_ge, drop_ge by lia. cbn. now rewrite andb_true_r.
  - destruct (Nat.leb_spec n (length l)) as [Hle|Hgt]; [|reflexivity].
    destruct (drop n l) as [|x l'] eqn:E.
    + apply (f_equal length) in E. rewrite length_drop in E. cbn in E. lia.
    + cbn. now rewrite andb_false_r.
Qed.

Lemma between_eol (i : bool) (lo hi : nat) (rs : list (ascii * ascii)) (j : nat)
    (l : list ascii) :
  run i (Between lo hi (Cls rs) >> Eol)%re (fun _ => true) (j, l)
  = existsb (Nat.eqb (length l)) (seq lo (S hi - lo)) && forallb (inClass i rs) l.
Proof.
  rewrite run_between_cat. induction (seq lo (S hi - lo)) as [|n ns IH].
  - reflexivity.
  - cbn [existsb]. rewrite IH, <- run_times_cat, times_eol.
    now rewrite andb_orb_distrib_l.
Qed.

Lemma forallb_same (p q : ascii -> bool) (l : list ascii) :
  (∀ c, p c = q c) → forallb p l = forallb q l.
Proof. intros H. induction l as [|x l IH]; cbn; [reflexivity|]. now rewrite H, IH. Qed.

Ltac by_char c := destruct c as [[] [] [] [] [] [] [] []]; vm_compute; reflexivity.

Lemma digit_class_is (i : bool) (c : ascii) : inClass i [rg "0" "9"] c = Js.isDigit c.
Proof. destruct i; by_char c. Qed.

Lemma alnum_class_is (i : bool) (c : ascii) :
  inClass i [rg "A" "Z"; rg "a" "z"; rg "0" "9"] c = Js.isAlnum c.
Proof. destruct i; by_char c. Qed.

Lemma letter_class_is (i : bool) (c : ascii) :
  inClass i [rg "A" "Z"; rg "a" "z"] c = isLetter c.
Proof. destruct i; by_char c. Qed.

Lemma two_to_five_is (i : bool) (c : ascii) : inClass i [rg "2" "5"] c = Js.between "2" "5" c.
Proof. destruct i; by_char c. Qed.

Lemma one_is (i : bool) (c : ascii) : sameChar i "1" c = Ascii.eqb c "1".
Proof. destruct i; by_char c. Qed.

Lemma nine_is (i : bool) (c : ascii) : sameChar i "9" c = Ascii.eqb c "9".
Proof. destruct i; by_char c. Qed.

Lemma zed_is (i : bool) (c : ascii) :
  sameChar i "Z" c || sameChar i "z" c = Ascii.eqb c "Z" || Ascii.eqb c "z".
Proof. destruct i; by_char c. Qed.

Lemma ups_test (i : bool) (s : string) :
  test (RegExp (Bol >> Alt (Lit "1" >> Lit "Z") (Lit "1" >> Lit "z")
                    >> Times 16 (Cls [rg "A" "Z"; rg "a" "z"; rg "0" "9"]) >> Eol)%re i) s
  = upsRule s.
Proof.
  rewrite test_at0 by reflexivity. cbn [source ignoreCase]. unfold upsRule.
  rewrite run_bol0, run_alt_cat, !run_assoc.
  destruct (chars s) as [|c1 [|c2 l]].
  - reflexivity.
  - rewrite !run_lit_cat. cbn. now rewrite !andb_false_r.
  - rewrite !run_lit_cat, times_eol, (forallb_same _ _ l (alnum_class_is i)), one_is.
    rewrite <- (zed_is i c2).
    destruct (Ascii.eqb c1 "1"), (sameChar i "Z" c2), (sameChar i "z" c2),
      (Nat.eqb (length l) 16), (forallb Js.isAlnum l); reflexivity.
Qed.

Lemma fedex_test (s : string) :
  test (RegExp (Bol >> Alt (Times 12 (Cls [rg "0" "9"])) (Times 15 (Cls [rg "0" "9"]))
                    >> Eol)%re false) s
  = fedexRule s.
Proof.
  rewrite test_at0 by reflexivity. cbn [source ignoreCase]. unfold fedexRule, digits.
  rewrite run_bol0, run_alt_cat, !times_eol.
  now rewrite (forallb_same _ _ (chars s) (digit_class_is false)).
Qed.

Lemma dhl_test (i : bool) (s : string) :
  test (RegExp (Bol >> Times 2 (Cls [rg "A" "Z"; rg "a" "z"]) >> Times 9 (Cls [rg "0" "9"])
                    >> Times 2 (Cls [rg "A" "Z"; rg "a" "z"]) >> Eol)%re i) s
  = dhlRule s.
Proof.
  rewrite test_at0 by reflexivity. cbn [source ignoreCase]. unfold dhlRule. cbv zeta.
  rewrite run_bol0, run_times_cat, run_times_cat, times_eol, drop_drop, !length_drop.
  rewrite (forallb_same _ _ _ (letter_class_is i)), (forallb_same _ _ _ (digit_class_is i)),
    (forallb_same _ _ _ (letter_class_is i)).
  change (2 + 9)%nat with 11%nat.
  destruct (forallb isLetter (take 2 (chars s))),
    (forallb Js.isDigit (take 9 (drop 2 (chars s)))),
    (forallb isLetter (drop 11 (chars s)));
    rewrite ?andb_true_r, ?andb_false_r; try reflexivity.
  repeat match goal with
         | |- context [Nat.eqb ?a ?b] => destruct (Nat.eqb_spec a b)
         | |- context [Nat.leb ?a ?b] => destruct (Nat.leb_spec a b)
         end; cbn; reflexivity || lia.
Qed.

Lemma usps_run (i : bool) (cs : list ascii) :
  run i (Lit "9" >> Cls [rg "2" "5"] >> Between 20 22 (Cls [rg "0" "9"]) >> Eol)%re
      (fun _ => true) (0%nat, cs)
  = match cs with
    | c1 :: c2 :: rest =>
        Ascii.eqb c1 "9" && Js.between "2" "5" c2
        && (20 <=? length rest)%nat && (length rest <=? 22)%nat
        && forallb Js.isDigit rest
    | _ => false
    end.
Proof.
  destruct cs as [|c1 [|c2 l]].
  - reflexivity.
  - rewrite run_lit_cat. cbn. now rewrite andb_false_r.
  - rewrite run_lit_cat, run_cls_cat, between_eol, nine_is, two_to_five_is,
      (forallb_same _ _ l (digit_class_is i)).
    cbn [Nat.sub seq existsb].
    destruct (Ascii.eqb c1 "9"), (Js.between "2" "5" c2), (forallb Js.isDigit l);
      rewrite ?andb_true_r, ?andb_false_r, ?orb_false_r; cbn [andb]; try reflexivity.
    destruct (Nat.leb_spec 20 (length l)), (Nat.leb_spec (length l) 22),
      (Nat.eqb_spec (length l) 20), (Nat.eqb_spec (length l) 21),
      (Nat.eqb_spec (length l) 22); cbn; reflexivity || lia.
Qed.

Lemma Server_usps_test (s : string) : test Server.reUSPS s = uspsRule s.
Proof.
  rewrite (test_at0 Server.reUSPS) by reflexivity.
  unfold Server.reUSPS, uspsRule. cbn [source ignoreCase].
  rewrite run_bol0. apply usps_run.
Qed.

Lemma Enhanced_usps_test (s : string) : test Enhanced.reUSPS s = uspsRule s.
Proof. rewrite <- USPS_tests. apply Server_usps_test. Qed.

Lemma Server_rules_accept : rulesAccept serverRules (wordedRules false).
Proof.
  unfold rulesAccept, serverRules, wordedRules.
  repeat (apply Forall2_cons; split; [split; [reflexivity|]|]);
    [ | | | | |apply Forall2_nil_2]; intros s; cbn [fst].
  - apply ups_test.
  - apply fedex_test.
  - apply dhl_test.
  - apply Server_usps_test.
  - rewrite Server_amazon_test. reflexivity.
Qed.

Lemma Enhanced_rules_accept : rulesAccept enhancedRules (wordedRules true).
Proof.
  unfold rulesAccept, enhancedRules, wordedRules.
  repeat (apply Forall2_cons; split; [split; [reflexivity|]|]);
    [ | | | | |apply Forall2_nil_2]; intros s; cbn [fst].
  - apply ups_test.
  - apply fedex_test.
  - apply dhl_test.
  - apply Enhanced_usps_test.
  - rewrite Enhanced_amazon_test. unfold amazonRule. cbn [orb]. now rewrite andb_true_r.
Qed.

Lemma Server_detect_worded (s : string) : Server.detectCarrier s = detectWorded false s.
Proof.
  unfold Server.detectCarrier, detectWorded, wordedRules.
  change (test Server.reUPS s) with
    (test (RegExp (source Server.reUPS) false) s).
  unfold Server.reUPS at 1. cbn [source]. rewrite ups_test.
  change (test Server.reFEDEX s) with (test (RegExp (source Server.reFEDEX) false) s).
  unfold Server.reFEDEX at 1. cbn [source]. rewrite fedex_test.
  change (test Server.reDHL s) with (test (RegExp (source Server.reDHL) false) s).
  unfold Server.reDHL at 1. cbn [source]. rewrite dhl_test.
  rewrite Server_usps_test, Server_amazon_test.
  cbn [List.find fst snd]. unfold amazonRule. cbn [orb].
  destruct (upsRule s), (fedexRule s), (dhlRule s), (uspsRule s),
    (amazonShape s && negb (hasLower s)); reflexivity.
Qed.

Lemma Enhanced_detect_worded (s : string) : Enhanced.detectCarrier s = detectWorded true s.
Proof.
  unfold Enhanced.detectCarrier, detectWorded, wordedRules.
  change (test Enhanced.reUPS s) with (test (RegExp (source Enhanced.reUPS) true) s).
  unfold Enhanced.reUPS at 1. cbn [source]. rewrite ups_test.
  change (test Enhanced.reFEDEX s) with (test (RegExp (source Enhanced.reFEDEX) false) s).
  unfold Enhanced.reFEDEX at 1. cbn [source]. rewrite fedex_test.
  change (test Enhanced.reDHL s) with (test (RegExp (source Enhanced.reDHL) true) s).
  unfold Enhanced.reDHL at 1. cbn [source]. rewrite dhl_test.
  rewrite Enhanced_usps_test, Enhanced_amazon_test.
  cbn [List.find fst snd]. unfold amazonRule. cbn [orb]. rewrite andb_true_r.
  destruct (upsRule s), (fedexRule s), (dhlRule s), (uspsRule s), (amazonShape s);
    reflexivity.
Qed.

End Rules.

(** C3.  In both revisions [detectCarrier] tries the five rules in the
    order UPS, FEDEX, DHL, USPS, AMAZON, each a pattern for the whole
    identifier, and answers with the tag of the first rule that matches, or
    with nothing ([null]) when none does.  What each pattern accepts is
    what the rule says in words, read as a test on the characters of the
    identifier: "1Z" or "1z" and 16 alphanumeric characters; 12 or 15
    digits; 2 letters, 9 digits, 2 letters; 9, a digit from 2 to 5 and
    20 to 22 more digits; the shape XXX-XXXXXXX-XXXXXXX, with X a digit or
    an upper-case letter in [server.js] and a digit or a letter of either
    case in the other revision.  So the answer of [detectCarrier] is, for
    every identifier, that of the first worded rule the identifier meets.
    The six examples of the specification hold, the two that speak of a
    class of identifiers for every identifier of the class. *)
Theorem C3_detectCarrier_first_match :
  (detectsByFirstMatch Server.detectCarrier serverRules ∧
   rulesAccept serverRules (wordedRules false) ∧
   ∀ s, Server.detectCarrier s = detectWorded false s) ∧
  (detectsByFirstMatch Enhanced.detectCarrier enhancedRules ∧
   rulesAccept enhancedRules (wordedRules true) ∧
   ∀ s, Enhanced.detectCarrier s = detectWorded true s).
Proof.
  split; (split; [|split]).
  - apply detect_contract.
    + exact Server_detect_firstMatch.
    + reflexivity.
    + reflexivity.
    + vm_compute; reflexivity.
    + exact Server_fedex.
    + vm_compute; reflexivity.
    + exact Server_usps.
    + vm_compute; reflexivity.
    + vm_compute; reflexivity.
  - exact Server_rules_accept.
  - exact Server_detect_worded.
  - apply detect_contract.
    + exact Enhanced_detect_firstMatch.
    + reflexivity.
    + reflexivity.
    + vm_compute; reflexivity.
    + exact Enhanced_fedex.
    + vm_compute; reflexivity.
    + exact Enhanced_usps.
    + vm_compute; reflexivity.
    + vm_compute; reflexivity.
  - exact Enhanced_rules_accept.
  - exact Enhanced_detect_worded.
Qed.

(** The two examples of C3 that carry a premise, at identifiers that meet
    it, and an identifier that only the worded rules tell from a UPS
    number. *)
Lemma C3_witness :
  digits 12 "123456789012" = true ∧
  Server.detectCarrier "123456789012" = Some "fedex" ∧
  digits 22 "9212345678901234567890" = true ∧
  Js.prefixOf "92" "9212345678901234567890" = true ∧
  Enhanced.detectCarrier "9212345678901234567890" = Some "usps" ∧
  Server.detectCarrier "XX12345678901234AB" = None.
Proof.
  destruct C3_detectCarrier_first_match
    as [[(_ & _ & _ & _ & _ & Hf & _) [_ Hw]]
        [(_ & _ & _ & _ & _ & _ & _ & Hu & _) _]].
  split; [reflexivity|]. split; [apply Hf; reflexivity|].
  split; [reflexivity|]. split; [reflexivity|].
  split; [apply Hu; reflexivity|].
  rewrite Hw. reflexivity.
Defined.

(** ** The simulated strategy: route, coordinates, status *)

(** X5.  Whatever the carrier and the identifier, the result of the
    simulated strategy lists the four places of the route from the last
    to the first, every event with the coordinates the table has for its
    place; its status is "Delivered" exactly when its first event says so
    and "In Transit" exactly when that event says "Out for delivery"; the
    events do not depend on the host, the carrier or the identifier; the
    identifier comes back as it was given, and a carrier of ASCII
    characters in upper case. *)
Theorem X5_generic_route_and_status (h : Host) (inp : Inputs) (c tn : string) :
  let r := getGenericTracking h inp c tn in
  ev_location <$> activity r = rev locations ∧
  Forall (fun e => ev_geo e = JsMap.get (ev_location e) geoCoords ∧ is_Some (ev_geo e))
         (activity r) ∧
  (status r = "Delivered" ↔ ev_status <$> head (activity r) = Some "Delivered") ∧
  (status r = "In Transit" ↔ ev_status <$> head (activity r) = Some "Out for delivery") ∧
  (∀ h' c' tn', activity (getGenericTracking h' inp c' tn') = activity r) ∧
  trackingNumber r = tn ∧ (isAscii c = true → carrier r = Js.toUpperCase c).
Proof.
  cbn zeta. unfold getGenericTracking.
  destruct (drawDelivered inp);
    cbn [activity status trackingNumber carrier rev app head fmap list_fmap option_fmap
         option_map ev_location ev_status ev_geo].
  - split; [reflexivity|].
    split; [repeat (apply Forall_cons; split; [split; [reflexivity|eexists; reflexivity]|]);
            apply Forall_nil_2|].
    split; [split; reflexivity|].
    split; [split; discriminate|].
    repeat split; reflexivity || (intros _; reflexivity).
  - split; [reflexivity|].
    split; [repeat (apply Forall_cons; split; [split; [reflexivity|eexists; reflexivity]|]);
            apply Forall_nil_2|].
    split; [split; discriminate|].
    split; [split; reflexivity|].
    repeat split; reflexivity || (intros _; reflexivity).
Qed.

(** ** The tracking handler: its four outcomes *)

Section Outcomes.

Lemma withEmitted_nil (w : World) : withEmitted (emitted w ++ [])%list w = w.
Proof. rewrite app_nil_r. now destruct w. Qed.

Lemma cached_None (w : World) (key : string) (t : Z) :
  cached w key t = None →
  trackingCache w !! key = None ∨
  ∃ e, trackingCache w !! key = Some e ∧ expiry e ≤ t.
Proof.
  unfold cached. destruct (trackingCache w !! key) as [e|]; [|now left].
  rewrite Z.gtb_ltb. destruct (Z.ltb_spec t (expiry e)); [discriminate|].
  intros _. right. now exists e.
Qed.

Lemma cached_Some (w : World) (key : string) (t : Z) (r : TrackingResult) :
  cached w key t = Some r →
  ∃ e, trackingCache w !! key = Some e ∧ t < expiry e ∧ data e = r.
Proof.
  unfold cached. destruct (trackingCache w !! key) as [e|]; [|discriminate].
  rewrite Z.gtb_ltb. destruct (Z.ltb_spec t (expiry e)); [|discriminate].
  intros [= <-]. now exists e.
Qed.

Lemma Server_track_outcome (h : Host) (inp : Inputs) (body : option string) (w : World) :
  trackOutcome Server.detectCarrier Server.dispatch (fun _ => []) h inp body w
    (Server.track h inp body w).
Proof.
  destruct body as [tn|]; [|apply TurnedAway; [exact I|discriminate]].
  destruct (Js.falsy tn) eqn:Hf.
  { unfold Server.track. rewrite Hf. apply TurnedAway; [now left|discriminate]. }
  destruct (Server.detectCarrier tn) as [c|] eqn:Hd.
  - rewrite (Server_track_run h inp tn c w Hf Hd).
    destruct (cached w (c ++ ":" ++ tn) (t_check inp)) as [r|] eqn:Hc.
    + apply cached_Some in Hc as (e & He & Ht & <-). now apply (FromCache _ _ _ _ _ _ _ tn c e).
    + destruct (Server.dispatch h inp c tn (snd (calling c tn w))) as [[r|m] w1] eqn:Hdisp.
      * pose proof (Fetched Server.detectCarrier Server.dispatch (fun _ => []) h inp
                      (Some tn) w tn c r w1 eq_refl Hf Hd Hc Hdisp) as O.
        cbv beta in O.
        rewrite (withEmitted_nil (withCache _ w1)) in O. exact O.
      * now apply (Faulted _ _ _ _ _ _ _ tn c m w1).
  - unfold Server.track. rewrite Hf, Hd. apply TurnedAway; [now right|].
    destruct tn; discriminate.
Qed.

Lemma Enhanced_track_outcome (h : Host) (inp : Inputs) (body : option string) (w : World) :
  trackOutcome Enhanced.detectCarrier Enhanced.dispatch
    (fun r => [(ToAll, tracking_update r)]) h inp body w
    (Enhanced.track h inp body w).
Proof.
  destruct body as [tn|]; [|apply TurnedAway; [exact I|discriminate]].
  destruct (Js.falsy tn) eqn:Hf.
  { unfold Enhanced.track. rewrite Hf. apply TurnedAway; [now left|discriminate]. }
  destruct (Enhanced.detectCarrier tn) as [c|] eqn:Hd.
  - rewrite (Enhanced_track_run h inp tn c w Hf Hd).
    destruct (cached w (c ++ ":" ++ tn) (t_check inp)) as [r|] eqn:Hc.
    + apply cached_Some in Hc as (e & He & Ht & <-). now apply (FromCache _ _ _ _ _ _ _ tn c e).
    + destruct (Enhanced.dispatch h inp c tn (snd (calling c tn w))) as [[r|m] w1] eqn:Hdisp.
      * exact (Fetched Enhanced.detectCarrier Enhanced.dispatch
                 (fun r => [(ToAll, tracking_update r)]) h inp
                 (Some tn) w tn c r w1 eq_refl Hf Hd Hc Hdisp).
      * now apply (Faulted _ _ _ _ _ _ _ tn c m w1).
  - unfold Enhanced.track. rewrite Hf, Hd. apply TurnedAway; [now right|].
    destruct tn; discriminate.
Qed.

Lemma bind_Return {A B : Type} (m : M A) (f : A -> M B) (w w' : World) (b : B) :
  (m ≫= f) w = (Return b, w') →
  ∃ a w1, m w = (Return a, w1) ∧ f a w1 = (Return b, w').
Proof.
  unfold mbind, M_bind. destruct (m w) as [[a|e] w1]; [|discriminate].
  intros H. now exists a, w1.
Qed.

Lemma bind_Throw {A B : Type} (m : M A) (f : A -> M B) (w w' : World) (e : string) :
  (m ≫= f) w = (Throw e, w') →
  m w = (Throw e, w') ∨ ∃ a w1, m w = (Return a, w1) ∧ f a w1 = (Throw e, w').
Proof.
  unfold mbind, M_bind. destruct (m w) as [[a|e'] w1].
  - intros H. right. now exists a, w1.
  - intros [= -> ->]. now left.
Qed.

Lemma Server_detect_tags (tn c : string) : Server.detectCarrier tn = Some c → c ∈ tags.
Proof.
  unfold Server.detectCarrier, tags.
  repeat (match goal with |- context [if ?b then _ else _] => destruct b end);
    intros [= <-]; set_solver.
Qed.

Lemma Enhanced_detect_tags (tn c : string) : Enhanced.detectCarrier tn = Some c → c ∈ tags.
Proof.
  unfold Enhanced.detectCarrier, tags.
  repeat (match goal with |- context [if ?b then _ else _] => destruct b end);
    intros [= <-]; set_solver.
Qed.

Lemma key_inj (c c' tn tn' : string) :
  c ∈ tags → c' ∈ tags → c ++ ":" ++ tn = c' ++ ":" ++ tn' → c = c' ∧ tn = tn'.
Proof.
  unfold tags. rewrite !elem_of_cons, !elem_of_nil.
  intros H H'. destruct_or!; try contradiction; subst; intros E;
    cbv [String.append] in E;
    first [ discriminate E | injection E as ->; split; reflexivity ].
Qed.

Lemma generic_result (h : Host) (inp : Inputs) (c tn : string) :
  trackingNumber (getGenericTracking h inp c tn) = tn ∧
  activity (getGenericTracking h inp c tn) ≠ [].
Proof.
  split; [reflexivity|]. unfold getGenericTracking.
  destruct (drawDelivered inp); discriminate.
Qed.

Lemma Server_dispatch_result (h : Host) (inp : Inputs) (c tn : string) (w w' : World)
    (r : TrackingResult) :
  Server.dispatch h inp c tn w = (Return r, w') →
  w' = w ∧ r = getGenericTracking h inp c tn.
Proof.
  unfold Server.dispatch, Server.getAmazonTracking.
  destruct (String.eqb_spec c "amazon") as [->|_].
  - destruct (unset (AMZ_USER h)); [discriminate|]. now intros [= <- <-].
  - now intros [= <- <-].
Qed.

Lemma amazon_result (h : Host) (inp : Inputs) (tn : string) (w w' : World)
    (r : TrackingResult) :
  Enhanced.getAmazonTrackingWithLogin h inp tn w = (Return r, w') →
  trackingNumber r = tn ∧ activity r ≠ [].
Proof.
  unfold Enhanced.getAmazonTrackingWithLogin. intros H.
  apply bind_Return in H as (b & w1 & _ & H).
  apply bind_Return in H as (response & w2 & _ & H).
  injection H as <- _. cbn [trackingNumber activity]. split; [reflexivity|].
  destruct (map Enhanced.readEvent _) as [|e l]; [discriminate|].
  cbn [length Nat.ltb Nat.leb rev]. intros E. now apply app_eq_nil in E as [_ ?].
Qed.

Lemma Enhanced_dispatch_result (h : Host) (inp : Inputs) (c tn : string) (w w' : World)
    (r : TrackingResult) :
  Enhanced.dispatch h inp c tn w = (Return r, w') →
  trackingNumber r = tn ∧ activity r ≠ [].
Proof.
  unfold Enhanced.dispatch. destruct (String.eqb c "amazon").
  - apply amazon_result.
  - intros [= <- _]. apply generic_result.
Qed.

Lemma Server_dispatch_result' (h : Host) (inp : Inputs) (c tn : string) (w w' : World)
    (r : TrackingResult) :
  Server.dispatch h inp c tn w = (Return r, w') →
  trackingNumber r = tn ∧ activity r ≠ [].
Proof.
  intros H. apply Server_dispatch_result in H as [_ ->]. apply generic_result.
Qed.

Lemma orElse_nonempty (a b : string) : b ≠ EmptyString → Js.orElse a b ≠ EmptyString.
Proof. unfold Js.orElse. destruct a; cbn; [auto|discriminate]. Qed.

End Outcomes.

(** What holds of every handler with the four outcomes. *)
Section AnyHandler.
Variable detect : string -> option string.
Variable dispatch : Host -> Inputs -> string -> string -> M TrackingResult.
Variable broadcast : TrackingResult -> list (Target * ServerEvent).
Variable track : Host -> Inputs -> option string -> M Response.
Hypothesis track_outcome : ∀ h inp body w,
  trackOutcome detect dispatch broadcast h inp body w (track h inp body w).
Hypothesis dispatch_keeps : ∀ h inp c tn, keeps (dispatch h inp c tn).
Hypothesis dispatch_result : ∀ h inp c tn w w' r,
  dispatch h inp c tn w = (Return r, w') → trackingNumber r = tn ∧ activity r ≠ [].
Hypothesis detect_tags : ∀ tn c, detect tn = Some c → c ∈ tags.

Lemma any_rejected (h : Host) (inp : Inputs) (body : option string) (w : World) :
  (rejected detect body ↔ ∃ msg, fst (track h inp body w) = Return (Error 400 msg)) ∧
  (rejected detect body → snd (track h inp body w) = w).
Proof.
  pose proof (track_outcome h inp body w) as O.
  destruct (track h inp body w) as [res w'].
  inversion O as [msg Hr Hm|tn c e -> Hf Hd He Ht|tn c r w1 -> Hf Hd Hc Hdisp
                  |tn c m w1 -> Hf Hd Hc Hdisp]; subst; cbn [fst snd rejected].
  - split; [|reflexivity]. split; [now exists msg|intros _; exact Hr].
  - split; [split|]; [intros [?|?]; congruence|intros (? & [=])|intros [?|?]; congruence].
  - split; [split|]; [intros [?|?]; congruence|intros (? & [=])|intros [?|?]; congruence].
  - split; [split|]; [intros [?|?]; congruence|intros (? & [=])|intros [?|?]; congruence].
Qed.

Lemma any_answers (h : Host) (inp : Inputs) (body : option string) (w : World) :
  ∃ resp w', track h inp body w = (Return resp, w') ∧
    (statusCode resp = 200 ∨ statusCode resp = 400 ∨ statusCode resp = 500) ∧
    errorText resp ≠ Some EmptyString.
Proof.
  pose proof (track_outcome h inp body w) as O.
  destruct (track h inp body w) as [res w'].
  inversion O as [msg Hr Hm|tn c e -> Hf Hd He Ht|tn c r w1 -> Hf Hd Hc Hdisp
                  |tn c m w1 -> Hf Hd Hc Hdisp]; subst;
    do 2 eexists; (split; [reflexivity|]); cbn [statusCode errorText].
  - split; [now right; left|]. intros [=]. contradiction.
  - split; [now left|discriminate].
  - split; [now left|discriminate].
  - split; [now right; right|]. intros [= E]. revert E. now apply orElse_nonempty.
Qed.

Lemma any_sound (h : Host) (inp : Inputs) (body : option string) (w : World) :
  cacheSound w →
  cacheSound (snd (track h inp body w)) ∧
  ∀ r, fst (track h inp body w) = Return (Json r) →
       ∃ tn, body = Some tn ∧ trackingNumber r = tn ∧ activity r ≠ [].
Proof.
  intros Hs. pose proof (track_outcome h inp body w) as O.
  destruct (track h inp body w) as [res w'].
  inversion O as [msg Hr Hm|tn c e -> Hf Hd He Ht|tn c r w1 -> Hf Hd Hc Hdisp
                  |tn c m w1 -> Hf Hd Hc Hdisp]; subst; cbn [fst snd].
  - split; [exact Hs|]. intros r [=].
  - split; [exact Hs|]. intros r [= <-]. exists tn. split; [reflexivity|].
    destruct (Hs _ _ He) as ((c' & Hc' & Hk) & Ha).
    split; [|exact Ha].
    symmetry. exact (proj2 (key_inj c c' _ _ (detect_tags _ _ Hd) Hc' Hk)).
  - destruct (dispatch_result _ _ _ _ _ _ _ Hdisp) as [Htn Ha].
    pose proof (dispatch_keeps h inp c tn (snd (calling c tn w))) as Hq.
    rewrite Hdisp in Hq. destruct Hq as (q1 & _). cbn [snd calling modify] in q1.
    split.
    + intros key e. cbn [trackingCache withEmitted withCache].
      destruct (decide (key = c ++ ":" ++ tn)) as [->|Hne].
      * rewrite lookup_insert_eq. intros [= <-]. cbn [data]. split; [|exact Ha].
        exists c. split; [now apply (detect_tags tn)|now rewrite Htn].
      * rewrite lookup_insert_ne by congruence. rewrite q1. apply Hs.
    + intros r' [= <-]. now exists tn.
  - pose proof (dispatch_keeps h inp c tn (snd (calling c tn w))) as Hq.
    rewrite Hdisp in Hq. destruct Hq as (q1 & _). cbn [snd calling modify] in q1.
    split; [|intros r [=]].
    intros key e. rewrite q1. apply Hs.
Qed.

Lemma any_frame (h : Host) (inp : Inputs) (body : option string) (w : World) :
  let w' := snd (track h inp body w) in
  liveUsers w' = liveUsers w ∧ connected w' = connected w ∧
  (∀ key, trackingCache w' !! key ≠ trackingCache w !! key →
     ∃ tn c r, body = Some tn ∧ detect tn = Some c ∧ key = c ++ ":" ++ tn ∧
               fst (track h inp body w) = Return (Json r) ∧
               trackingCache w' !! key
               = Some {| data := r; expiry := t_store inp + CACHE_TTL |}) ∧
  (emitted w' = emitted w ∨
   ∃ r, fst (track h inp body w) = Return (Json r) ∧
        emitted w' = (emitted w ++ broadcast r)%list) ∧
  (fetches w' = fetches w ∨
   ∃ tn c, body = Some tn ∧ detect tn = Some c ∧
           cached w (c ++ ":" ++ tn) (t_check inp) = None ∧
           fetches w' = (fetches w ++ [(c, tn)])%list).
Proof.
  cbn zeta. pose proof (track_outcome h inp body w) as O.
  destruct (track h inp body w) as [res w'].
  inversion O as [msg Hr Hm|tn c e -> Hf Hd He Ht|tn c r w1 -> Hf Hd Hc Hdisp
                  |tn c m w1 -> Hf Hd Hc Hdisp]; subst; cbn [fst snd].
  - repeat split; try (now left). intros key H. contradiction.
  - repeat split; try (now left). intros key H. contradiction.
  - pose proof (dispatch_keeps h inp c tn (snd (calling c tn w))) as Hq.
    rewrite Hdisp in Hq. destruct Hq as (q1 & q2 & q3 & q4 & q5 & _).
    cbn [snd calling modify] in q1, q2, q3, q4, q5.
    cbn [liveUsers connected trackingCache emitted fetches withEmitted withCache withFetches]
      in *.
    repeat split; try assumption.
    + intros key H. exists tn, c, r.
      destruct (decide (key = c ++ ":" ++ tn)) as [->|Hne].
      * rewrite lookup_insert_eq. repeat split; reflexivity || assumption.
      * rewrite lookup_insert_ne, q1 in H by congruence. contradiction.
    + right. exists r. split; [reflexivity|]. now rewrite q4.
    + right. exists tn, c. repeat split; assumption.
  - pose proof (dispatch_keeps h inp c tn (snd (calling c tn w))) as Hq.
    rewrite Hdisp in Hq. destruct Hq as (q1 & q2 & q3 & q4 & q5 & _).
    cbn [snd calling modify] in q1, q2, q3, q4, q5.
    cbn [liveUsers connected trackingCache emitted fetches withEmitted withCache withFetches]
      in *.
    repeat split; try assumption.
    + intros key H. rewrite q1 in H. contradiction.
    + now left.
    + right. exists tn, c. repeat split; assumption.
Qed.

End AnyHandler.

(** ** The tracking handler: what a caller can rely on *)

Lemma cacheSound_boot : cacheSound boot.
Proof. intros key e H. cbn in H. now rewrite lookup_empty in H. Qed.

Lemma detect_nonempty (tn c : string) :
  Server.detectCarrier tn = Some c ∨ Enhanced.detectCarrier tn = Some c →
  Js.falsy tn = false.
Proof. destruct tn; [|reflexivity]. intros [H|H]; vm_compute in H; discriminate. Qed.

Lemma Server_amazon_shape (s : string) :
  Server.detectCarrier s = Some "amazon" → amazonShape s = true.
Proof.
  unfold Server.detectCarrier.
  repeat (match goal with |- context [if Regex.test ?r s then _ else _] =>
            destruct (Regex.test r s) eqn:? end); try discriminate.
  intros _. rewrite Server_amazon_test in *.
  now destruct (amazonShape s).
Qed.

Lemma Enhanced_amazon_shape (s : string) :
  Enhanced.detectCarrier s = Some "amazon" → amazonShape s = true.
Proof.
  unfold Enhanced.detectCarrier.
  repeat (match goal with |- context [if Regex.test ?r s then _ else _] =>
            destruct (Regex.test r s) eqn:? end); try discriminate.
  intros _. now rewrite Enhanced_amazon_test in *.
Qed.

Lemma Server_dispatch_world (h : Host) (inp : Inputs) (c tn : string) (w : World) :
  snd (Server.dispatch h inp c tn w) = w.
Proof.
  unfold Server.dispatch, Server.getAmazonTracking.
  destruct (String.eqb c "amazon"); [destruct (unset (AMZ_USER h))|]; reflexivity.
Qed.

(** X6.  In both revisions the handler answers 400 exactly when the body
    has no identifier, an empty one, or one whose carrier is not detected,
    and then it leaves the state of the server as it was: nothing is
    stored, fetched, sent or emitted. *)
Theorem X6_rejections_change_nothing (h : Host) (inp : Inputs) (body : option string)
    (w : World) :
  ((rejected Server.detectCarrier body
    ↔ ∃ msg, fst (Server.track h inp body w) = Return (Error 400 msg)) ∧
   (rejected Server.detectCarrier body → snd (Server.track h inp body w) = w)) ∧
  ((rejected Enhanced.detectCarrier body
    ↔ ∃ msg, fst (Enhanced.track h inp body w) = Return (Error 400 msg)) ∧
   (rejected Enhanced.detectCarrier body → snd (Enhanced.track h inp body w) = w)).
Proof.
  split.
  - exact (any_rejected _ _ _ _ Server_track_outcome h inp body w).
  - exact (any_rejected _ _ _ _ Enhanced_track_outcome h inp body w).
Qed.

Lemma X6_witness :
  rejected Server.detectCarrier (Some "not-a-code") ∧
  snd (Server.track utcHost (inputsAt noon (1 # 4)) (Some "not-a-code") boot) = boot ∧
  ∃ msg, fst (Enhanced.track utcHost (inputsAt noon (1 # 4)) (Some "not-a-code") boot)
         = Return (Error 400 msg).
Proof.
  destruct (X6_rejections_change_nothing utcHost (inputsAt noon (1 # 4))
              (Some "not-a-code") boot) as [[_ HS] [HE _]].
  assert (R : rejected Server.detectCarrier (Some "not-a-code"))
    by (right; vm_compute; reflexivity).
  split; [exact R|]. split; [exact (HS R)|].
  apply HE. right. vm_compute. reflexivity.
Defined.

(** X7.  For a request whose body has been parsed, with a
    [trackingNumber] that is a string or is missing, the handler of either
    revision answers: it does not fail itself, its status is 200, 400 or
    500, and the [error] text of the answer is never empty.  For a request
    whose body nothing has parsed, so that [req.body] is undefined, the
    destructuring in the first line of the handler, before the [try],
    throws: the handler fails with that [TypeError], having changed
    nothing and answered nothing itself.  Identifiers that are not
    strings are outside the embedding. *)
Theorem X7_parsed_requests_are_answered (h : Host) (inp : Inputs) (body : RequestBody)
    (w : World) :
  match body with
  | Unparsed =>
      serverRoute h inp body w = (Throw destructuringMessage, w) ∧
      enhancedRoute h inp body w = (Throw destructuringMessage, w)
  | Parsed _ =>
      (∃ resp w', serverRoute h inp body w = (Return resp, w') ∧
         (statusCode resp = 200 ∨ statusCode resp = 400 ∨ statusCode resp = 500) ∧
         errorText resp ≠ Some EmptyString) ∧
      (∃ resp w', enhancedRoute h inp body w = (Return resp, w') ∧
         (statusCode resp = 200 ∨ statusCode resp = 400 ∨ statusCode resp = 500) ∧
         errorText resp ≠ Some EmptyString)
  end.
Proof.
  destruct body as [|tn]; [split; reflexivity|]. split.
  - exact (any_answers _ _ _ _ Server_track_outcome h inp tn w).
  - exact (any_answers _ _ _ _ Enhanced_track_outcome h inp tn w).
Qed.

Lemma tracked_sound (track : Host -> Inputs -> option string -> M Response) (h : Host)
    (reqs : list (Inputs * option string)) (w : World) :
  (∀ h inp body w, cacheSound w → cacheSound (snd (track h inp body w))) →
  cacheSound w → cacheSound (tracked track h reqs w).
Proof.
  intros Hstep. revert w. induction reqs as [|[inp body] reqs IH]; intros w Hs; [exact Hs|].
  cbn [tracked fold_left fst snd]. apply IH. now apply Hstep.
Qed.

(** X8.  As long as every [trackingNumber] the server has been sent was
    a string or was missing, the cache of both revisions keeps an
    invariant: every entry lies under the key made of a tag of
    [detectCarrier], a colon and the identifier that its result carries,
    and its result has at least one event.  The invariant holds when the
    server starts, a run of the handler for such a request keeps it, and
    so it holds after any number of them; and where it holds, a 200
    answer to such a request, fresh or from the cache, carries the
    identifier that was asked for and at least one event.  Identifiers
    that are not strings are outside the embedding: the handler takes
    them as they are, and what it stores for one is not covered. *)
Theorem X8_answers_echo_the_identifier (h : Host) (inp : Inputs) (body : option string)
    (w : World) :
  cacheSound w →
  (cacheSound (snd (Server.track h inp body w)) ∧
   (∀ reqs, cacheSound (tracked Server.track h reqs w)) ∧
   ∀ r, fst (Server.track h inp body w) = Return (Json r) →
        ∃ tn, body = Some tn ∧ trackingNumber r = tn ∧ activity r ≠ []) ∧
  (cacheSound (snd (Enhanced.track h inp body w)) ∧
   (∀ reqs, cacheSound (tracked Enhanced.track h reqs w)) ∧
   ∀ r, fst (Enhanced.track h inp body w) = Return (Json r) →
        ∃ tn, body = Some tn ∧ trackingNumber r = tn ∧ activity r ≠ []).
Proof.
  intros Hs.
  assert (HS : ∀ h inp body w, cacheSound w → cacheSound (snd (Server.track h inp body w))).
  { intros h0 inp0 body0 w0 H0.
    exact (proj1 (any_sound _ _ _ _ Server_track_outcome keeps_Server_dispatch
                    Server_dispatch_result' Server_detect_tags h0 inp0 body0 w0 H0)). }
  assert (HE : ∀ h inp body w, cacheSound w →
                 cacheSound (snd (Enhanced.track h inp body w))).
  { intros h0 inp0 body0 w0 H0.
    exact (proj1 (any_sound _ _ _ _ Enhanced_track_outcome keeps_Enhanced_dispatch
                    Enhanced_dispatch_result Enhanced_detect_tags h0 inp0 body0 w0 H0)). }
  split; (split; [|split]).
  - now apply HS.
  - intros reqs.
    exact (tracked_sound Server.track h reqs w HS Hs).
  - exact (proj2 (any_sound _ _ _ _ Server_track_outcome keeps_Server_dispatch
                    Server_dispatch_result' Server_detect_tags h inp body w Hs)).
  - now apply HE.
  - intros reqs.
    exact (tracked_sound Enhanced.track h reqs w HE Hs).
  - exact (proj2 (any_sound _ _ _ _ Enhanced_track_outcome keeps_Enhanced_dispatch
                    Enhanced_dispatch_result Enhanced_detect_tags h inp body w Hs)).
Qed.

(** From the start: two requests, then a third that the cache serves. *)
Lemma X8_witness :
  let tn := "1Z12345678901234AB" in
  let w2 := tracked Enhanced.track utcHost
              [(inputsAt noon (3 # 4), Some tn); (inputsAt (noon + 1000) (1 # 4), None)]
              boot in
  cacheSound boot ∧ cacheSound w2 ∧
  ∀ r, fst (Enhanced.track utcHost (inputsAt (noon + 60000) (1 # 4)) (Some tn) w2)
       = Return (Json r) →
       ∃ tn', Some tn = Some tn' ∧ trackingNumber r = tn' ∧ activity r ≠ [].
Proof.
  cbn zeta. split; [exact cacheSound_boot|].
  destruct (X8_answers_echo_the_identifier utcHost (inputsAt noon (3 # 4)) None boot
              cacheSound_boot) as [_ (_ & H2 & _)].
  split; [apply H2|].
  exact (proj2 (proj2 (proj2 (X8_answers_echo_the_identifier utcHost
                         (inputsAt (noon + 60000) (1 # 4))
                         (Some "1Z12345678901234AB") _ (H2 _))))).
Defined.

(** X9.  A run of the handler, in either revision, leaves the registry
    of users and the connected sockets alone; the only cache key it can
    change is the one of the identifier asked for, and only by storing the
    result it answers with, to expire ten minutes after the storing; it
    calls a strategy at most once, and only when the cache has no live
    entry; [server.js] emits nothing, and the other revision emits at most
    one [tracking_update], to all sockets, with the result it answers
    with. *)
Theorem X9_track_frame (h : Host) (inp : Inputs) (body : option string) (w : World) :
  (let w' := snd (Server.track h inp body w) in
   liveUsers w' = liveUsers w ∧ connected w' = connected w ∧
   (∀ key, trackingCache w' !! key ≠ trackingCache w !! key →
      ∃ tn c r, body = Some tn ∧ Server.detectCarrier tn = Some c ∧
                key = c ++ ":" ++ tn ∧
                fst (Server.track h inp body w) = Return (Json r) ∧
                trackingCache w' !! key
                = Some {| data := r; expiry := t_store inp + CACHE_TTL |}) ∧
   emitted w' = emitted w ∧
   (fetches w' = fetches w ∨
    ∃ tn c, body = Some tn ∧ Server.detectCarrier tn = Some c ∧
            cached w (c ++ ":" ++ tn) (t_check inp) = None ∧
            fetches w' = (fetches w ++ [(c, tn)])%list)) ∧
  (let w' := snd (Enhanced.track h inp body w) in
   liveUsers w' = liveUsers w ∧ connected w' = connected w ∧
   (∀ key, trackingCache w' !! key ≠ trackingCache w !! key →
      ∃ tn c r, body = Some tn ∧ Enhanced.detectCarrier tn = Some c ∧
                key = c ++ ":" ++ tn ∧
                fst (Enhanced.track h inp body w) = Return (Json r) ∧
                trackingCache w' !! key
                = Some {| data := r; expiry := t_store inp + CACHE_TTL |}) ∧
   (emitted w' = emitted w ∨
    ∃ r, fst (Enhanced.track h inp body w) = Return (Json r) ∧
         emitted w' = (emitted w ++ [(ToAll, tracking_update r)])%list) ∧
   (fetches w' = fetches w ∨
    ∃ tn c, body = Some tn ∧ Enhanced.detectCarrier tn = Some c ∧
            cached w (c ++ ":" ++ tn) (t_check inp) = None ∧
            fetches w' = (fetches w ++ [(c, tn)])%list)).
Proof.
  split.
  - destruct (any_frame _ _ _ _ Server_track_outcome keeps_Server_dispatch h inp body w)
      as (H1 & H2 & H3 & H4 & H5).
    cbn zeta. repeat split; try assumption.
    destruct H4 as [H4|(r & _ & H4)]; [exact H4|]. now rewrite app_nil_r in H4.
  - exact (any_frame _ _ _ _ Enhanced_track_outcome keeps_Enhanced_dispatch h inp body w).
Qed.

(** X10.  In [server.js] an Amazon order for which the cache has no
    live entry is answered from the simulation, like any other carrier,
    when AMZ_USER is set, and with 500 and a fixed text when it is not;
    AMZ_PASS plays no part, and no request leaves the server. *)
Theorem X10_server_js_simulates_amazon (h : Host) (inp : Inputs) (tn : string)
    (w : World) :
  Server.detectCarrier tn = Some "amazon" →
  cached w ("amazon" ++ ":" ++ tn) (t_check inp) = None →
  fst (Server.track h inp (Some tn) w)
  = (if unset (AMZ_USER h)
     then Return (Error 500 "Server is not configured for Amazon tracking.")
     else Return (Json (getGenericTracking h inp "amazon" tn))) ∧
  carrier (getGenericTracking h inp "amazon" tn) = "AMAZON" ∧
  sent (snd (Server.track h inp (Some tn) w)) = sent w.
Proof.
  intros Hd Hc.
  rewrite (Server_track_run h inp tn "amazon" w (detect_nonempty tn _ (or_introl Hd)) Hd), Hc.
  unfold Server.dispatch, Server.getAmazonTracking. cbn [String.eqb Ascii.eqb Bool.eqb].
  destruct (unset (AMZ_USER h)); repeat split.
Qed.

Lemma X10_witness :
  fst (Server.track (scriptedHost []) (inputsAt noon (1 # 4))
         (Some "111-2222222-3333333") boot)
  = Return (Json (getGenericTracking (scriptedHost []) (inputsAt noon (1 # 4)) "amazon"
                    "111-2222222-3333333")) ∧
  fst (Server.track utcHost (inputsAt noon (1 # 4)) (Some "111-2222222-3333333") boot)
  = Return (Error 500 "Server is not configured for Amazon tracking.").
Proof.
  split.
  - apply (X10_server_js_simulates_amazon (scriptedHost []) (inputsAt noon (1 # 4))
             "111-2222222-3333333" boot); vm_compute; reflexivity.
  - apply (X10_server_js_simulates_amazon utcHost (inputsAt noon (1 # 4))
             "111-2222222-3333333" boot); vm_compute; reflexivity.
Defined.

(** X11.  An identifier that is not of the shape of an Amazon order
    never gets a 500 answer, in either revision, and in the revision with
    the login flow it never makes the server send a request or touch the
    session. *)
Theorem X11_only_amazon_orders_reach_amazon (h : Host) (inp : Inputs) (tn : string)
    (w : World) :
  amazonShape tn = false →
  (∀ m, fst (Server.track h inp (Some tn) w) ≠ Return (Error 500 m)) ∧
  (∀ m, fst (Enhanced.track h inp (Some tn) w) ≠ Return (Error 500 m)) ∧
  sent (snd (Enhanced.track h inp (Some tn) w)) = sent w ∧
  amazonSessionActive (snd (Enhanced.track h inp (Some tn) w)) = amazonSessionActive w.
Proof.
  intros Hshape.
  assert (HS : ∀ c, Server.detectCarrier tn = Some c → String.eqb c "amazon" = false).
  { intros c Hd. destruct (String.eqb_spec c "amazon") as [->|]; [|reflexivity].
    apply Server_amazon_shape in Hd. congruence. }
  assert (HE : ∀ c, Enhanced.detectCarrier tn = Some c → String.eqb c "amazon" = false).
  { intros c Hd. destruct (String.eqb_spec c "amazon") as [->|]; [|reflexivity].
    apply Enhanced_amazon_shape in Hd. congruence. }
  split; [|split].
  - intros m. pose proof (Server_track_outcome h inp (Some tn) w) as O.
    destruct (Server.track h inp (Some tn) w) as [res w'].
    inversion O as [msg Hr Hm|tn' c e [= <-] Hf Hd He Ht|tn' c r w1 [= <-] Hf Hd Hc Hdisp
                    |tn' c m' w1 [= <-] Hf Hd Hc Hdisp]; subst; cbn [fst]; try discriminate.
    unfold Server.dispatch in Hdisp. rewrite (HS c Hd) in Hdisp. discriminate.
  - intros m. pose proof (Enhanced_track_outcome h inp (Some tn) w) as O.
    destruct (Enhanced.track h inp (Some tn) w) as [res w'].
    inversion O as [msg Hr Hm|tn' c e [= <-] Hf Hd He Ht|tn' c r w1 [= <-] Hf Hd Hc Hdisp
                    |tn' c m' w1 [= <-] Hf Hd Hc Hdisp]; subst; cbn [fst]; try discriminate.
    unfold Enhanced.dispatch in Hdisp. rewrite (HE c Hd) in Hdisp. discriminate.
  - pose proof (Enhanced_track_outcome h inp (Some tn) w) as O.
    destruct (Enhanced.track h inp (Some tn) w) as [res w'].
    inversion O as [msg Hr Hm|tn' c e [= <-] Hf Hd He Ht|tn' c r w1 [= <-] Hf Hd Hc Hdisp
                    |tn' c m' w1 [= <-] Hf Hd Hc Hdisp]; subst; cbn [snd];
      try (split; reflexivity);
      unfold Enhanced.dispatch in Hdisp; rewrite (HE c Hd) in Hdisp;
      [injection Hdisp as _ <-; split; reflexivity|discriminate].
Qed.

Lemma X11_witness :
  let out := Enhanced.track (scriptedHost []) (inputsAt noon (1 # 4))
               (Some "1Z12345678901234AB") boot in
  sent (snd out) = [] ∧ amazonSessionActive (snd out) = false.
Proof.
  cbn zeta.
  destruct (X11_only_amazon_orders_reach_amazon (scriptedHost []) (inputsAt noon (1 # 4))
              "1Z12345678901234AB" boot) as (_ & _ & H1 & H2).
  - vm_compute. reflexivity.
  - split; [exact H1|exact H2].
Defined.

(** ** The Amazon session *)

Section Session.

Lemma prefixOf_app (p s : string) : Js.prefixOf p (p ++ s) = true.
Proof.
  induction p as [|a p IH]; [now destruct s|].
  cbn [Js.prefixOf]. change (String a p ++ s) with (String a (p ++ s)).
  cbn [Js.prefixOf]. now rewrite Ascii.eqb_refl, IH.
Qed.

Lemma JsMap_get_set_ne {V : Type} (k k' : string) (v : V) (m : list (string * V)) :
  k ≠ k' → JsMap.get k (JsMap.set k' v m) = JsMap.get k m.
Proof.
  intros Hne. induction m as [|[k0 v0] m IH]; cbn [JsMap.get JsMap.set].
  - now apply String.eqb_neq in Hne as ->.
  - destruct (String.eqb_spec k' k0) as [->|Hk]; cbn [JsMap.get].
    + now apply String.eqb_neq in Hne as ->.
    + now rewrite IH.
Qed.

Lemma JsObject_get_place (n : N) (k v k0 : string) (m : list (string * string)) :
  JsMap.get k m = None →
  JsMap.get k0 (JsObject.place n k v m)
  = if String.eqb k0 k then Some v else JsMap.get k0 m.
Proof.
  induction m as [|[k' v'] m IH]; cbn [JsObject.place JsMap.get]; [reflexivity|].
  destruct (String.eqb_spec k k') as [->|Hk]; [discriminate|]. intros Hm.
  destruct (JsObject.arrayIndex k') as [n'|]; [destruct (n <? n')%N|];
    cbn [JsMap.get]; try reflexivity.
  rewrite (IH Hm).
  destruct (String.eqb_spec k0 k') as [->|H0]; [|reflexivity].
  destruct (String.eqb_spec k' k) as [->|_]; [contradiction|reflexivity].
Qed.

Lemma JsObject_get_set (k v : string) (m : list (string * string)) :
  k ≠ "__proto__" → JsMap.get k (JsObject.set k v m) = Some v.
Proof.
  intros Hp. unfold JsObject.set. apply String.eqb_neq in Hp as ->.
  destruct (JsObject.arrayIndex k) as [n|]; [|apply JsMap_get_set].
  unfold JsMap.has. destruct (JsMap.get k m) eqn:E; [apply JsMap_get_set|].
  now rewrite (JsObject_get_place n k v k m E), String.eqb_refl.
Qed.

Lemma JsObject_get_set_ne (k k' v : string) (m : list (string * string)) :
  k ≠ k' → JsMap.get k (JsObject.set k' v m) = JsMap.get k m.
Proof.
  intros Hne. unfold JsObject.set. destruct (String.eqb k' "__proto__"); [reflexivity|].
  destruct (JsObject.arrayIndex k') as [n|]; [|now apply JsMap_get_set_ne].
  unfold JsMap.has. destruct (JsMap.get k' m) eqn:E; [now apply JsMap_get_set_ne|].
  rewrite (JsObject_get_place n k' v k m E). now apply String.eqb_neq in Hne as ->.
Qed.

Lemma submit_Return (h : Host) (form : option Element) (w w' : World) (b : bool) :
  Enhanced.submit h form w = (Return b, w') →
  b = true ∧ amazonSessionActive w' = true.
Proof.
  unfold Enhanced.submit. intros H.
  apply bind_Return in H as (fd & w1 & _ & H). cbv beta zeta in H.
  apply bind_Return in H as (resp & w2 & _ & H). cbv beta zeta in H.
  apply bind_Return in H as (u & w3 & _ & H). cbv beta zeta in H.
  apply bind_Return in H as (fd' & w4 & _ & H). cbv beta zeta in H.
  apply bind_Return in H as (r3 & w5 & _ & H). cbv beta zeta in H.
  apply bind_Return in H as (r4 & w6 & _ & H). cbv beta zeta in H.
  destruct (_ || _).
  - apply bind_Return in H as (? & ? & _ & H). discriminate H.
  - apply bind_Return in H as (? & ? & Hm & H).
    injection H as <- <-. injection Hm as _ <-. split; reflexivity.
Qed.

Lemma login_Return (h : Host) (w w' : World) (b : bool) :
  Enhanced.login h w = (Return b, w') →
  b = true ∧ amazonSessionActive w' = true.
Proof.
  unfold Enhanced.login. intros H.
  apply bind_Return in H as (form & w1 & _ & H). now apply submit_Return in H.
Qed.

Lemma ensure_active (h : Host) (w : World) :
  amazonSessionActive w = true → Enhanced.ensureAmazonSession h w = (Return true, w).
Proof.
  intros H. unfold Enhanced.ensureAmazonSession, mbind, M_bind, gets. now rewrite H.
Qed.

End Session.

(** X12.  [ensureAmazonSession] returns only [true], and only with the
    session flag up; with the flag up at the start it returns at once
    and changes nothing.  It fails only from a state with the flag down
    and leaves the flag down: at once, with no request sent and with the
    text about the credentials, when AMZ_USER or AMZ_PASS is unset or
    empty; otherwise with a text that begins with
    "Amazon login process failed: ". *)
Theorem X12_session_flag_tells_the_outcome (h : Host) (w : World) :
  match Enhanced.ensureAmazonSession h w with
  | (Return b, w') =>
      b = true ∧ amazonSessionActive w' = true ∧
      (amazonSessionActive w = true → w' = w)
  | (Throw m, w') =>
      amazonSessionActive w = false ∧ amazonSessionActive w' = false ∧
      (if unset (AMZ_USER h) || unset (AMZ_PASS h)
       then m = credentialsMessage ∧ w' = w
       else ∃ e, m = loginPrefix ++ e)
  end.
Proof.
  destruct (amazonSessionActive w) eqn:Ha.
  { rewrite (ensure_active h w Ha). repeat split. exact Ha. }
  unfold Enhanced.ensureAmazonSession, mbind at 1, M_bind at 1, gets.
  rewrite Ha. destruct (unset (AMZ_USER h) || unset (AMZ_PASS h)).
  { cbn. repeat split. exact Ha. }
  unfold tryCatch. destruct (Enhanced.login h w) as [[b|e] w1] eqn:L.
  - apply login_Return in L as [-> L]. repeat split; [exact L|discriminate].
  - cbn. repeat split. now exists e.
Qed.

Section Budget.

Lemma sends_ret {A : Type} (P : Request -> Prop) (a : A) : sends 0 P (mret a : M A).
Proof. intros w. exists []. cbn. rewrite app_nil_r. repeat split; [lia|constructor]. Qed.

Lemma sends_throw {A : Type} (P : Request -> Prop) (e : string) : sends 0 P (throw e : M A).
Proof. intros w. exists []. cbn. rewrite app_nil_r. repeat split; [lia|constructor]. Qed.

Lemma sends_gets {A : Type} (P : Request -> Prop) (f : World -> A) : sends 0 P (gets f).
Proof. intros w. exists []. cbn. rewrite app_nil_r. repeat split; [lia|constructor]. Qed.

Lemma sends_session (P : Request -> Prop) (b : bool) : sends 0 P (modify (withSession b)).
Proof. intros w. exists []. cbn. rewrite app_nil_r. repeat split; [lia|constructor]. Qed.

Lemma sends_request (P : Request -> Prop) (h : Host) (r : Request) :
  P r → sends 1 P (request h r).
Proof.
  intros Hr w. exists [r]. unfold request.
  destruct (http h (length (sent w)) r); cbn; repeat split; try lia;
    repeat constructor; exact Hr.
Qed.

Lemma sends_bind {A B : Type} (P : Request -> Prop) (n1 n2 : nat) (m : M A) (f : A -> M B) :
  sends n1 P m → (∀ a, sends n2 P (f a)) → sends (n1 + n2) P (m ≫= f).
Proof.
  intros Hm Hf w. unfold mbind, M_bind.
  destruct (Hm w) as (l1 & E1 & L1 & F1). destruct (m w) as [[a|e] w1]; cbn [snd] in *.
  - destruct (Hf a w1) as (l2 & E2 & L2 & F2). exists (l1 ++ l2)%list.
    rewrite E2, E1, app_assoc. split; [reflexivity|].
    split; [rewrite length_app; lia|now apply Forall_app].
  - exists l1. split; [exact E1|]. split; [lia|exact F1].
Qed.

Lemma sends_tryCatch {A : Type} (P : Request -> Prop) (n1 n2 : nat) (m : M A)
    (handler : string -> M A) :
  sends n1 P m → (∀ e, sends n2 P (handler e)) → sends (n1 + n2) P (tryCatch m handler).
Proof.
  intros Hm Hh w. unfold tryCatch.
  destruct (Hm w) as (l1 & E1 & L1 & F1). destruct (m w) as [[a|e] w1]; cbn [snd] in *.
  - exists l1. split; [exact E1|]. split; [lia|exact F1].
  - destruct (Hh e w1) as (l2 & E2 & L2 & F2). exists (l1 ++ l2)%list.
    rewrite E2, E1, app_assoc. split; [reflexivity|].
    split; [rewrite length_app; lia|now apply Forall_app].
Qed.

Lemma sends_le {A : Type} (P Q : Request -> Prop) (n n' : nat) (m : M A) :
  (n ≤ n')%nat → (∀ r, P r → Q r) → sends n P m → sends n' Q m.
Proof.
  intros Hn HPQ Hm w. destruct (Hm w) as (l & E & L & F).
  exists l. split; [exact E|]. split; [lia|]. eapply Forall_impl; eauto.
Qed.

Lemma sends_extractHiddenInputs (form : option Element) :
  sends 0 loginRequest (Enhanced.extractHiddenInputs form).
Proof. destruct form; [apply sends_ret|apply sends_throw]. Qed.

Lemma sends_loginForm (P : Request -> Prop) (h : Host) :
  P (Enhanced.httpGet Enhanced.signInUrl) → P (Enhanced.httpGet Enhanced.orderHistoryUrl) →
  sends 2 P (Enhanced.loginForm h).
Proof.
  intros P1 P2. unfold Enhanced.loginForm.
  apply (sends_bind _ 1 1); [now apply sends_request|]. intros response.
  destruct (querySelector _ _).
  { apply (sends_le P _ 0); [lia|auto|apply sends_ret]. }
  apply (sends_bind _ 1 0); [now apply sends_request|]. intros response'.
  destruct (querySelector _ _); [apply sends_ret|apply sends_throw].
Qed.

Lemma sends_submit (h : Host) (form : option Element) :
  sends 3 loginRequest (Enhanced.submit h form).
Proof.
  unfold Enhanced.submit, Enhanced.emailForm, Enhanced.passwordForm.
  apply (sends_bind _ 0 3).
  { apply (sends_bind _ 0 0); [apply sends_extractHiddenInputs|]. intros; apply sends_ret. }
  intros formData.
  apply (sends_bind _ 1 2); [apply sends_request; right; right; now split|].
  intros response. cbv zeta.
  apply (sends_bind _ 0 2).
  { destruct (querySelector _ _); [apply sends_ret|].
    unfold Enhanced.intermediatePage.
    repeat (match goal with |- context [if ?b then _ else _] => destruct b end);
      apply sends_ret || apply sends_throw. }
  intros _.
  apply (sends_bind _ 0 2).
  { apply (sends_bind _ 0 0); [apply sends_extractHiddenInputs|]. intros; apply sends_ret. }
  intros formData'.
  apply (sends_bind _ 1 1); [apply sends_request; right; right; now split|]. intros _.
  apply (sends_bind _ 1 0); [apply sends_request; right; now left|]. intros response'.
  destruct (_ || _); apply (sends_bind _ 0 0);
    try apply sends_session; intros; apply sends_ret || apply sends_throw.
Qed.

Lemma sends_ensureAmazonSession (h : Host) :
  sends 5 loginRequest (Enhanced.ensureAmazonSession h).
Proof.
  unfold Enhanced.ensureAmazonSession.
  apply (sends_bind _ 0 5); [apply sends_gets|]. intros [|].
  { apply (sends_le loginRequest _ 0); [lia|auto|apply sends_ret]. }
  destruct (_ || _).
  { apply (sends_le loginRequest _ 0); [lia|auto|apply sends_throw]. }
  apply (sends_tryCatch _ 5 0).
  - unfold Enhanced.login. apply (sends_bind _ 2 3); [apply sends_loginForm; [now left|right; now left]|].
    intros form. apply sends_submit.
  - intros e. apply (sends_bind _ 0 0); [apply sends_session|]. intros; apply sends_throw.
Qed.

Lemma sends_getAmazonTrackingWithLogin (h : Host) (inp : Inputs) (orderId : string) :
  sends 6 (amazonRequest orderId) (Enhanced.getAmazonTrackingWithLogin h inp orderId).
Proof.
  unfold Enhanced.getAmazonTrackingWithLogin.
  apply (sends_bind _ 5 1).
  { apply (sends_le loginRequest _ 5); [lia|now left|apply sends_ensureAmazonSession]. }
  intros _. apply (sends_bind _ 1 0); [apply sends_request; now right|].
  intros response. apply sends_ret.
Qed.

Lemma amazon_active (h : Host) (inp : Inputs) (orderId : string) (w : World) :
  amazonSessionActive w = true →
  sent (snd (Enhanced.getAmazonTrackingWithLogin h inp orderId w))
  = (sent w ++ [Enhanced.httpGet (Enhanced.orderDetailsUrl ++ orderId)])%list.
Proof.
  intros Ha. unfold Enhanced.getAmazonTrackingWithLogin, mbind at 1, M_bind at 1.
  rewrite (ensure_active h w Ha). unfold mbind, M_bind, request.
  destruct (http h _ _); reflexivity.
Qed.

Lemma amazonRequest_form (orderId : string) (r : Request) :
  amazonRequest orderId r →
  form r ≠ [] → method r = POST ∧ url r = Enhanced.signInUrl.
Proof.
  intros [[->| [->|H]] | ->] Hf; try (now contradict Hf). exact H.
Qed.

Lemma Enhanced_dispatch_sends (h : Host) (inp : Inputs) (c tn : string) (w : World) :
  ∃ more, sent (snd (Enhanced.dispatch h inp c tn w)) = (sent w ++ more)%list ∧
          (length more ≤ 6)%nat ∧
          (amazonSessionActive w = true → (length more ≤ 1)%nat) ∧
          Forall (amazonRequest tn) more.
Proof.
  unfold Enhanced.dispatch. destruct (String.eqb c "amazon").
  - destruct (sends_getAmazonTrackingWithLogin h inp tn w) as (l & E & L & F).
    exists l. repeat split; try assumption.
    intros Ha. rewrite (amazon_active h inp tn w Ha) in E.
    apply app_inv_head in E as <-. cbn. lia.
  - exists []. cbn. rewrite app_nil_r. repeat split; try lia. constructor.
Qed.

End Budget.

(** X13.  A run of the handler of the revision with the login flow makes
    at most six requests, each a call of [client.get] or [client.post],
    and at most one when the session is up at its start.  Each is a GET of the sign-in page, a GET of the order history,
    a POST to the sign-in page, or the GET of the details of the order
    asked for; form data, and with them the credentials, go nowhere but
    to the sign-in page, by POST. *)
Theorem X13_request_budget (h : Host) (inp : Inputs) (body : option string) (w : World) :
  ∃ more,
    sent (snd (Enhanced.track h inp body w)) = (sent w ++ more)%list ∧
    (length more ≤ 6)%nat ∧
    (amazonSessionActive w = true → (length more ≤ 1)%nat) ∧
    Forall (fun r => (∃ tn, body = Some tn ∧ amazonRequest tn r) ∧
                     (form r ≠ [] → method r = POST ∧ url r = Enhanced.signInUrl))
           more.
Proof.
  assert (Hnil : ∀ w', sent w' = sent w →
            ∃ more, sent w' = (sent w ++ more)%list ∧ (length more ≤ 6)%nat ∧
              (amazonSessionActive w = true → (length more ≤ 1)%nat) ∧
              Forall (fun r => (∃ tn, body = Some tn ∧ amazonRequest tn r) ∧
                        (form r ≠ [] → method r = POST ∧ url r = Enhanced.signInUrl))
                     more).
  { intros w' E. exists []. rewrite app_nil_r. cbn. repeat split; try lia; [exact E|constructor]. }
  pose proof (Enhanced_track_outcome h inp body w) as O.
  destruct (Enhanced.track h inp body w) as [res w'].
  inversion O as [msg Hr Hm|tn c e -> Hf Hd He Ht|tn c r w1 -> Hf Hd Hc Hdisp
                  |tn c m w1 -> Hf Hd Hc Hdisp]; subst; cbn [snd];
    try (now apply Hnil).
  - destruct (Enhanced_dispatch_sends h inp c tn (snd (calling c tn w)))
      as (l & E & L & L1 & F).
    rewrite Hdisp in E. cbn [snd calling modify sent withFetches] in E.
    exists l. cbn [sent withEmitted withCache]. repeat split; try assumption.
    eapply Forall_impl; [exact F|]. intros r0 Hr0. split; [now exists tn|].
    now apply (amazonRequest_form tn).
  - destruct (Enhanced_dispatch_sends h inp c tn (snd (calling c tn w)))
      as (l & E & L & L1 & F).
    rewrite Hdisp in E. cbn [snd calling modify sent withFetches] in E.
    exists l. repeat split; try assumption.
    eapply Forall_impl; [exact F|]. intros r0 Hr0. split; [now exists tn|].
    now apply (amazonRequest_form tn).
Qed.

Section Login.

Lemma bind_run {A B : Type} (m : M A) (f : A -> M B) (w w1 : World) (a : A) :
  m w = (Return a, w1) → (m ≫= f) w = f a w1.
Proof. intros H. unfold mbind, M_bind. now rewrite H. Qed.

Lemma bind_fail {A B : Type} (m : M A) (f : A -> M B) (w w1 : World) (e : string) :
  m w = (Throw e, w1) → (m ≫= f) w = (Throw e, w1).
Proof. intros H. unfold mbind, M_bind. now rewrite H. Qed.

Lemma request_run (h : Host) (r : Request) (w : World) (text : string) :
  http h (length (sent w)) r = Body text →
  request h r w = (Return text, withSent (sent w ++ [r])%list w).
Proof. intros H. unfold request. now rewrite H. Qed.

Lemma emailForm_run (h : Host) (form : option Element) (w w' : World)
    (formData : list (string * string)) :
  Enhanced.emailForm h form w = (Return formData, w') →
  w' = w ∧ JsMap.get "email" formData = Some (default EmptyString (AMZ_USER h)) ∧
  JsMap.get "create" formData = Some "0".
Proof.
  unfold Enhanced.emailForm. destruct form as [f|]; [|discriminate].
  intros [= <- <-]. split; [reflexivity|]. split.
  - rewrite JsObject_get_set_ne by discriminate. now apply JsObject_get_set.
  - now apply JsObject_get_set.
Qed.

Lemma passwordForm_run (h : Host) (form : option Element) (w w' : World)
    (formData : list (string * string)) :
  Enhanced.passwordForm h form w = (Return formData, w') →
  w' = w ∧ JsMap.get "password" formData = Some (default EmptyString (AMZ_PASS h)) ∧
  JsMap.get "rememberMe" formData = Some "true".
Proof.
  unfold Enhanced.passwordForm. destruct form as [f|]; [|discriminate].
  intros [= <- <-]. split; [reflexivity|]. split.
  - rewrite JsObject_get_set_ne by discriminate. now apply JsObject_get_set.
  - now apply JsObject_get_set.
Qed.

Lemma set_variable (v : option string) : unset v = false → Some (default EmptyString v) = v.
Proof. destruct v; [reflexivity|discriminate]. Qed.

Lemma ensure_login (h : Host) (w : World) :
  amazonSessionActive w = false →
  unset (AMZ_USER h) = false → unset (AMZ_PASS h) = false →
  Enhanced.ensureAmazonSession h w
  = tryCatch (Enhanced.login h)
      (fun message => _ ← modify (withSession false);
                      throw ("Amazon login process failed: " ++ message)) w.
Proof.
  intros Ha Hu Hp. unfold Enhanced.ensureAmazonSession, mbind at 1, M_bind at 1, gets.
  now rewrite Ha, Hu, Hp.
Qed.

End Login.

(** X14.  When the answer to the email has no sign-in form but says
    "Enter your password", the login goes on to read the hidden inputs of
    a form that is not there: it fails on that access, under the prefix
    of login failures, and the session flag stays down.  The password has
    not been sent: after the GETs that fetched the sign-in form, the one
    request is the POST of the form with the email. *)
Theorem X14_password_prompt_without_form (h : Host) (w w1 w2 : World)
    (form : option Element) (formData : list (string * string)) (response : string) :
  amazonSessionActive w = false →
  unset (AMZ_USER h) = false → unset (AMZ_PASS h) = false →
  Enhanced.loginForm h w = (Return form, w1) →
  Enhanced.emailForm h form w1 = (Return formData, w2) →
  http h (length (sent w2)) (Enhanced.httpPost Enhanced.signInUrl formData) = Body response →
  querySelector (JSDOM h response) SignInForm = None →
  Js.includes response "Enter your password" = true →
  let outcome := Enhanced.ensureAmazonSession h w in
  fst outcome = Throw (loginPrefix ++ nullFormMessage) ∧
  amazonSessionActive (snd outcome) = false ∧
  (∃ fetched, (length fetched ≤ 2)%nat ∧ Forall (fun r => method r = GET) fetched ∧
     sent (snd outcome)
     = (sent w ++ fetched ++ [Enhanced.httpPost Enhanced.signInUrl formData])%list) ∧
  JsMap.get "email" formData = AMZ_USER h.
Proof.
  intros Ha Hu Hp Hform Hemail Hhttp Hq Hpw. cbn zeta.
  rewrite (ensure_login h w Ha Hu Hp).
  unfold tryCatch, Enhanced.login. rewrite (bind_run _ _ _ _ _ Hform).
  unfold Enhanced.submit. rewrite (bind_run _ _ _ _ _ Hemail).
  rewrite (bind_run _ _ _ _ _ (request_run _ _ _ _ Hhttp)). cbv beta zeta. rewrite Hq.
  unfold Enhanced.intermediatePage. rewrite Hpw.
  unfold Enhanced.passwordForm, Enhanced.extractHiddenInputs.
  cbn [fst snd mbind M_bind mret M_ret throw modify amazonSessionActive withSession sent
       withSent].
  split; [reflexivity|]. split; [reflexivity|].
  apply emailForm_run in Hemail as (-> & He & _).
  split.
  - destruct (sends_loginForm (fun r => method r = GET) h eq_refl eq_refl w)
      as (l & E & L & F).
    rewrite Hform in E. cbn [snd] in E. exists l. split; [exact L|]. split; [exact F|].
    now rewrite E, app_assoc.
  - rewrite He. now apply set_variable.
Qed.

Lemma X14_witness :
  let h := scriptedHost [Body "<form name=signIn>"; Body "Enter your password"] in
  let outcome := Enhanced.ensureAmazonSession h boot in
  fst outcome = Throw (loginPrefix ++ nullFormMessage) ∧
  amazonSessionActive (snd outcome) = false ∧
  length (sent (snd outcome)) = 2%nat.
Proof.
  cbn zeta.
  destruct (X14_password_prompt_without_form
              (scriptedHost [Body "<form name=signIn>"; Body "Enter your password"]) boot
              (withSent [Enhanced.httpGet Enhanced.signInUrl] boot)
              (withSent [Enhanced.httpGet Enhanced.signInUrl] boot)
              (Some emptyNode)
              [("email", "user@example.com"); ("create", "0")]
              "Enter your password")
    as (H1 & H2 & _ & _); try reflexivity.
  split; [exact H1|]. split; [exact H2|]. reflexivity.
Defined.

(** X15.  A login that finds the sign-in form on the sign-in page and a
    sign-in form in the answer to the email sends, after the GET of the
    sign-in page, exactly three requests: the POST of the form with the
    email, the POST of the form with the password, and the GET of the
    order history.  It succeeds, with the session flag up, unless the
    order history says "redirectGet" or "/ap/signin"; then it fails with
    the text about the credentials under the prefix of login failures,
    with the flag down.  The two forms carry AMZ_USER as [email] and
    AMZ_PASS as [password], whatever hidden inputs the pages have. *)
Theorem X15_login_outcome (h : Host) (w w1 : World) (f1 f2 : Element)
    (fd1 fd2 : list (string * string)) (r2 r3 r4 : string) :
  amazonSessionActive w = false →
  unset (AMZ_USER h) = false → unset (AMZ_PASS h) = false →
  Enhanced.loginForm h w = (Return (Some f1), w1) →
  fst (Enhanced.emailForm h (Some f1) w1) = Return fd1 →
  http h (length (sent w1)) (Enhanced.httpPost Enhanced.signInUrl fd1) = Body r2 →
  querySelector (JSDOM h r2) SignInForm = Some f2 →
  fst (Enhanced.passwordForm h (Some f2) w1) = Return fd2 →
  http h (length (sent w1) + 1) (Enhanced.httpPost Enhanced.signInUrl fd2) = Body r3 →
  http h (length (sent w1) + 2) (Enhanced.httpGet Enhanced.orderHistoryUrl) = Body r4 →
  let outcome := Enhanced.ensureAmazonSession h w in
  let refused := Js.includes r4 "redirectGet" || Js.includes r4 "/ap/signin" in
  fst outcome = (if refused then Throw (loginPrefix ++ verificationMessage)
                 else Return true) ∧
  amazonSessionActive (snd outcome) = negb refused ∧
  sent (snd outcome)
  = (sent w1 ++ [Enhanced.httpPost Enhanced.signInUrl fd1;
                 Enhanced.httpPost Enhanced.signInUrl fd2;
                 Enhanced.httpGet Enhanced.orderHistoryUrl])%list ∧
  JsMap.get "email" fd1 = AMZ_USER h ∧
  JsMap.get "password" fd2 = AMZ_PASS h.
Proof.
  intros Ha Hu Hp Hform Hemail Hhttp Hq Hpass Hhttp2 Hhttp3. cbn zeta.
  assert (He : Enhanced.emailForm h (Some f1) w1 = (Return fd1, w1)).
  { revert Hemail. unfold Enhanced.emailForm. cbn. now intros [= <-]. }
  set (w2 := withSent (sent w1 ++ [Enhanced.httpPost Enhanced.signInUrl fd1])%list w1).
  assert (Hpw : Enhanced.passwordForm h (Some f2) w2 = (Return fd2, w2)).
  { revert Hpass. unfold Enhanced.passwordForm. cbn. now intros [= <-]. }
  set (w3 := withSent (sent w2 ++ [Enhanced.httpPost Enhanced.signInUrl fd2])%list w2).
  assert (H2 : http h (length (sent w2)) (Enhanced.httpPost Enhanced.signInUrl fd2) = Body r3).
  { unfold w2. cbn [sent withSent]. now rewrite length_app. }
  assert (H3 : http h (length (sent w3)) (Enhanced.httpGet Enhanced.orderHistoryUrl) = Body r4).
  { unfold w3, w2. cbn [sent withSent]. rewrite !length_app. cbn [length].
    now replace (length (sent w1) + 1 + 1)%nat with (length (sent w1) + 2)%nat by lia. }
  rewrite (ensure_login h w Ha Hu Hp).
  unfold tryCatch, Enhanced.login. rewrite (bind_run _ _ _ _ _ Hform).
  unfold Enhanced.submit. rewrite (bind_run _ _ _ _ _ He).
  rewrite (bind_run _ _ _ _ _ (request_run _ _ _ _ Hhttp)). cbv beta zeta. rewrite Hq.
  rewrite (bind_run (mret tt) _ _ _ tt eq_refl).
  fold w2. rewrite (bind_run _ _ _ _ _ Hpw).
  rewrite (bind_run _ _ _ _ _ (request_run _ _ _ _ H2)). fold w3.
  rewrite (bind_run _ _ _ _ _ (request_run _ _ _ _ H3)).
  apply emailForm_run in He as (_ & He & _). apply passwordForm_run in Hpw as (_ & Hpw & _).
  rewrite He, Hpw, (set_variable _ Hu), (set_variable _ Hp).
  destruct (Js.includes r4 "redirectGet" || Js.includes r4 "/ap/signin");
    cbn [fst snd mbind M_bind mret M_ret throw modify amazonSessionActive withSession sent
         withSent negb];
    unfold w3, w2; cbn [sent withSent]; rewrite <- !app_assoc; repeat split.
Qed.

Lemma X15_witness :
  let h := scriptedHost [Body "<form name=signIn>"; Body "<form name=signIn>";
                         Body "welcome"; Body "Your Orders"] in
  let outcome := Enhanced.ensureAmazonSession h boot in
  fst outcome = Return true ∧ amazonSessionActive (snd outcome) = true ∧
  length (sent (snd outcome)) = 4%nat.
Proof.
  cbn zeta.
  destruct (X15_login_outcome
              (scriptedHost [Body "<form name=signIn>"; Body "<form name=signIn>";
                             Body "welcome"; Body "Your Orders"]) boot
              (withSent [Enhanced.httpGet Enhanced.signInUrl] boot)
              emptyNode emptyNode
              [("email", "user@example.com"); ("create", "0")]
              [("password", "secret"); ("rememberMe", "true")]
              "<form name=signIn>" "welcome" "Your Orders")
    as (H1 & H2 & H3 & _); try reflexivity.
  split; [exact H1|]. split; [exact H2|]. now rewrite H3.
Defined.

(** ** [Map] and object keys *)

Section JsMapFacts.
Context {V : Type}.
Implicit Types (m : list (string * V)) (k : string) (v : V).

Lemma JsMap_get_None k m : JsMap.get k m = None ↔ k ∉ m.*1.
Proof.
  induction m as [|[k' v'] m IH]; cbn [JsMap.get fmap list_fmap fst].
  - split; [intros _; apply not_elem_of_nil|reflexivity].
  - rewrite not_elem_of_cons. destruct (String.eqb_spec k k') as [->|Hne].
    + split; [discriminate|intros [? _]; congruence].
    + rewrite IH. tauto.
Qed.

Lemma JsMap_get_in k v m : JsMap.get k m = Some v → (k, v) ∈ m.
Proof.
  induction m as [|[k' v'] m IH]; cbn [JsMap.get]; [discriminate|].
  destruct (String.eqb_spec k k') as [->|Hne].
  - intros [= ->]. left.
  - intros H. right. now apply IH.
Qed.

Lemma JsMap_in_get k v m : NoDup m.*1 → (k, v) ∈ m → JsMap.get k m = Some v.
Proof.
  induction m as [|[k' v'] m IH]; cbn [JsMap.get fmap list_fmap fst].
  - intros _ H. now apply elem_of_nil in H.
  - rewrite NoDup_cons, elem_of_cons. intros [Hk Hnd] [[= -> ->]|Hin].
    + now rewrite String.eqb_refl.
    + destruct (String.eqb_spec k k') as [->|Hne]; [|now apply IH].
      contradict Hk. apply list_elem_of_fmap. now exists (k', v).
Qed.

Lemma JsMap_keys_set k v m :
  (JsMap.set k v m).*1 = if JsMap.has k m then m.*1 else (m.*1 ++ [k])%list.
Proof.
  unfold JsMap.has.
  induction m as [|[k' v'] m IH]; cbn [JsMap.get JsMap.set fmap list_fmap fst app];
    [reflexivity|].
  destruct (String.eqb_spec k k') as [->|Hne]; [reflexivity|].
  cbn [fmap list_fmap fst]. rewrite IH. now destruct (JsMap.get k m).
Qed.

Lemma JsMap_NoDup_set k v m : NoDup m.*1 → NoDup (JsMap.set k v m).*1.
Proof.
  intros H. rewrite JsMap_keys_set. unfold JsMap.has.
  destruct (JsMap.get k m) eqn:E; [exact H|].
  apply NoDup_app. split; [exact H|]. split; [|apply NoDup_singleton].
  intros x Hx Hx'. apply list_elem_of_singleton in Hx' as ->.
  now apply JsMap_get_None in E.
Qed.

Lemma JsMap_in_set k v m k0 v0 :
  (k0, v0) ∈ JsMap.set k v m → (k0 = k ∧ v0 = v) ∨ (k0, v0) ∈ m.
Proof.
  induction m as [|[k' v'] m IH]; cbn [JsMap.set].
  - rewrite list_elem_of_singleton. intros [= -> ->]. now left.
  - destruct (String.eqb_spec k k') as [->|Hne]; rewrite !elem_of_cons.
    + intros [[= -> ->]|H]; [now left|right; now right].
    + intros [H|H]; [right; now left|]. destruct (IH H) as [?|?]; [now left|right; now right].
Qed.

Lemma JsMap_delete_set k v m : JsMap.get k m = None → JsMap.delete k (JsMap.set k v m) = m.
Proof.
  induction m as [|[k' v'] m IH]; cbn [JsMap.get JsMap.set JsMap.delete].
  - now rewrite String.eqb_refl.
  - destruct (String.eqb_spec k k') as [->|Hne]; [discriminate|].
    intros H. cbn [JsMap.delete]. apply String.eqb_neq in Hne as ->. now rewrite IH.
Qed.

Lemma JsMap_in_delete k m k0 v0 : (k0, v0) ∈ JsMap.delete k m → (k0, v0) ∈ m.
Proof.
  induction m as [|[k' v'] m IH]; cbn [JsMap.delete]; [easy|].
  destruct (String.eqb k k'); rewrite ?elem_of_cons; [now right|].
  intros [H|H]; [now left|right; now apply IH].
Qed.

Lemma filter_all {A : Type} (P : A -> Prop) `{∀ x, Decision (P x)} (l : list A) :
  Forall P l → filter P l = l.
Proof.
  induction 1 as [|x l Hx _ IH]; [reflexivity|].
  now rewrite filter_cons_True, IH.
Qed.

Lemma JsMap_keys_delete k m :
  NoDup m.*1 → (JsMap.delete k m).*1 = filter (fun s => s ≠ k) m.*1.
Proof.
  induction m as [|[k' v'] m IH]; cbn [JsMap.delete fmap list_fmap fst]; [reflexivity|].
  rewrite NoDup_cons. intros [Hk Hnd]. rewrite filter_cons.
  destruct (String.eqb_spec k k') as [->|Hne].
  - destruct (decide (k' ≠ k')) as [?|_]; [congruence|].
    symmetry. apply filter_all. apply Forall_forall. intros x Hx ->. contradiction.
  - destruct (decide (k' ≠ k)) as [_|Hn]; [|contradict Hn; congruence].
    cbn [fmap list_fmap fst]. now rewrite IH.
Qed.

Lemma JsMap_get_delete_ne k k' m : k ≠ k' → JsMap.get k (JsMap.delete k' m) = JsMap.get k m.
Proof.
  intros Hne. induction m as [|[k0 v0] m IH]; cbn [JsMap.get JsMap.delete]; [reflexivity|].
  destruct (String.eqb_spec k' k0) as [->|Hk].
  - now apply String.eqb_neq in Hne as ->.
  - cbn [JsMap.get]. now rewrite IH.
Qed.

Lemma JsMap_get_delete k m : NoDup m.*1 → JsMap.get k (JsMap.delete k m) = None.
Proof.
  intros H. apply JsMap_get_None. rewrite (JsMap_keys_delete k m H).
  intros Hin. apply list_elem_of_filter in Hin as [? _]. congruence.
Qed.

End JsMapFacts.

(** ** The forms and the pages of the Amazon strategy *)

Section Pages.

Lemma keys_has {V : Type} (k : string) (m : list (string * V)) :
  JsMap.has k m = true ↔ k ∈ m.*1.
Proof.
  unfold JsMap.has. destruct (JsMap.get k m) eqn:E.
  - split; [intros _|reflexivity].
    apply JsMap_get_in in E. apply list_elem_of_fmap. now exists (k, v).
  - apply JsMap_get_None in E. split; [discriminate|contradiction].
Qed.

Lemma place_elem (n : N) (k v x : string) (m : list (string * string)) :
  x ∈ (JsObject.place n k v m).*1 ↔ x = k ∨ x ∈ m.*1.
Proof.
  induction m as [|[k' v'] m IH]; cbn [JsObject.place fmap list_fmap fst].
  - rewrite list_elem_of_singleton, elem_of_nil. tauto.
  - destruct (JsObject.arrayIndex k') as [n'|]; [destruct (n <? n')%N|];
      cbn [fmap list_fmap fst]; rewrite ?elem_of_cons; [tauto| |tauto].
    rewrite IH. tauto.
Qed.

Lemma place_NoDup (n : N) (k v : string) (m : list (string * string)) :
  k ∉ m.*1 → NoDup m.*1 → NoDup (JsObject.place n k v m).*1.
Proof.
  induction m as [|[k' v'] m IH]; cbn [JsObject.place fmap list_fmap fst]; intros Hk Hnd.
  - apply NoDup_singleton.
  - apply not_elem_of_cons in Hk as [Hne Hk]. apply NoDup_cons in Hnd as [Hk' Hnd].
    assert (G : NoDup (k :: k' :: m.*1)).
    { apply NoDup_cons. split; [|now apply NoDup_cons].
      rewrite elem_of_cons. tauto. }
    destruct (JsObject.arrayIndex k') as [n'|]; [destruct (n <? n')%N|];
      cbn [fmap list_fmap fst]; try exact G.
    apply NoDup_cons. split; [|now apply IH].
    rewrite place_elem. intros [->|?]; contradiction.
Qed.

Lemma JsObject_NoDup_set (k v : string) (m : list (string * string)) :
  NoDup m.*1 → NoDup (JsObject.set k v m).*1.
Proof.
  intros H. unfold JsObject.set. destruct (String.eqb k "__proto__"); [exact H|].
  destruct (JsObject.arrayIndex k) as [n|]; [|now apply JsMap_NoDup_set].
  destruct (JsMap.has k m) eqn:E; [now apply JsMap_NoDup_set|].
  apply place_NoDup; [|exact H]. intros Hin. apply keys_has in Hin. congruence.
Qed.

Lemma ownKeyOrder_snoc (keys : list string) (k : string) :
  JsObject.arrayIndex k = None → ownKeyOrder keys → ownKeyOrder (keys ++ [k]).
Proof.
  intros Hk. induction keys as [|k' keys IH]; cbn [ownKeyOrder app].
  - rewrite Hk. intros _. split; [constructor|exact I].
  - intros [H Ho]. split; [|now apply IH].
    destruct (JsObject.arrayIndex k') as [n'|]; apply Forall_app; split; try exact H;
      apply Forall_singleton; now rewrite ?Hk.
Qed.

Lemma place_order (n : N) (k v : string) (m : list (string * string)) :
  JsObject.arrayIndex k = Some n → ownKeyOrder m.*1 →
  ownKeyOrder (JsObject.place n k v m).*1.
Proof.
  intros Hk. induction m as [|[k' v'] m IH]; cbn [JsObject.place fmap list_fmap fst].
  - intros _. cbn [ownKeyOrder]. rewrite Hk. split; [constructor|exact I].
  - intros Ho. pose proof Ho as [H Ho']. cbn [ownKeyOrder] in Ho.
    destruct (JsObject.arrayIndex k') as [n'|] eqn:Ek'.
    + destruct (N.ltb_spec n n') as [Hlt|Hge]; cbn [fmap list_fmap fst ownKeyOrder].
      * rewrite Hk. split; [|rewrite Ek'; exact Ho].
        apply Forall_cons. rewrite Ek'. split; [lia|].
        eapply Forall_impl; [exact H|]. intros x. cbn.
        destruct (JsObject.arrayIndex x); [lia|trivial].
      * rewrite Ek'. split; [|now apply IH].
        apply Forall_forall. intros x Hx. apply place_elem in Hx as [->|Hx].
        -- now rewrite Hk.
        -- rewrite Forall_forall in H. now apply H.
    + cbn [fmap list_fmap fst ownKeyOrder]. rewrite Hk, Ek'.
      split; [|exact Ho].
      apply Forall_cons. rewrite Ek'. split; [exact I|].
      eapply Forall_impl; [exact H|]. intros x Hx. cbn in Hx. now rewrite Hx.
Qed.

Lemma JsObject_order_set (k v : string) (m : list (string * string)) :
  ownKeyOrder m.*1 → ownKeyOrder (JsObject.set k v m).*1.
Proof.
  intros H. unfold JsObject.set. destruct (String.eqb k "__proto__"); [exact H|].
  destruct (JsObject.arrayIndex k) as [n|] eqn:Ek.
  - destruct (JsMap.has k m) eqn:E.
    + now rewrite JsMap_keys_set, E.
    + now apply place_order.
  - rewrite JsMap_keys_set. destruct (JsMap.has k m); [exact H|].
    now apply ownKeyOrder_snoc.
Qed.

Lemma place_names (n : N) (k v : string) (m : list (string * string)) :
  JsObject.arrayIndex k = Some n →
  filter (fun x => JsObject.arrayIndex x = None) (JsObject.place n k v m).*1
  = filter (fun x => JsObject.arrayIndex x = None) m.*1.
Proof.
  intros Hk.
  assert (Hoff : ∀ l, filter (fun x => JsObject.arrayIndex x = None) (k :: l)
                      = filter (fun x => JsObject.arrayIndex x = None) l).
  { intros l. apply filter_cons_False. now rewrite Hk. }
  induction m as [|[k' v'] m IH]; cbn [JsObject.place fmap list_fmap fst].
  - apply Hoff.
  - destruct (JsObject.arrayIndex k') as [n'|] eqn:Ek'; [destruct (n <? n')%N|];
      cbn [fmap list_fmap fst]; try apply Hoff.
    rewrite !(filter_cons_False (fun x => JsObject.arrayIndex x = None) k')
      by now rewrite Ek'.
    exact IH.
Qed.

Lemma firsts_ext (seen seen' l : list string) :
  (∀ x, x ∈ seen ↔ x ∈ seen') → firsts seen l = firsts seen' l.
Proof.
  revert seen seen'. induction l as [|x l IH]; intros seen seen' H; [reflexivity|].
  cbn [firsts]. destruct (decide (x ∈ seen)) as [Hx|Hx];
    destruct (decide (x ∈ seen')) as [Hx'|Hx']; try (apply H in Hx; contradiction);
    try (apply H in Hx'; contradiction).
  - now apply IH.
  - f_equal. apply IH. intros y. rewrite !elem_of_cons, H. tauto.
Qed.

Lemma hidden_fold (k : string) (inputs : list Element) (acc : list (string * string)) :
  JsMap.get k
    (fold_left (fun data input =>
                  if Js.falsy (name input) then data
                  else JsObject.set (name input) (value input) data) inputs acc)
  = match last (filter (fun input => name input = k) inputs) with
    | Some input => if fieldName k then Some (value input) else JsMap.get k acc
    | None => JsMap.get k acc
    end.
Proof.
  revert acc. induction inputs as [|i l IH]; intros acc; [reflexivity|].
  cbn [fold_left]. rewrite IH.
  destruct (decide (name i = k)) as [E|Hne].
  - rewrite (filter_cons_True (fun input => name input = k) i l E), last_cons. rewrite E.
    unfold fieldName. destruct (Js.falsy k) eqn:F; cbn [negb andb].
    + now destruct (last _).
    + destruct (String.eqb_spec k "__proto__") as [->|Hp]; cbn [negb].
      * now destruct (last _).
      * rewrite (JsObject_get_set k (value i) acc Hp). now destruct (last _).
  - rewrite (filter_cons_False (fun input => name input = k) i l Hne).
    destruct (Js.falsy (name i)); [reflexivity|].
    rewrite JsObject_get_set_ne by congruence. reflexivity.
Qed.

Lemma hidden_NoDup (inputs : list Element) (acc : list (string * string)) :
  NoDup acc.*1 →
  NoDup (fold_left (fun data input =>
                      if Js.falsy (name input) then data
                      else JsObject.set (name input) (value input) data) inputs acc).*1.
Proof.
  revert acc. induction inputs as [|i l IH]; intros acc H; [exact H|].
  cbn [fold_left]. apply IH. destruct (Js.falsy (name i)); [exact H|].
  now apply JsObject_NoDup_set.
Qed.

Lemma hidden_order (inputs : list Element) (acc : list (string * string)) :
  ownKeyOrder acc.*1 →
  ownKeyOrder (fold_left (fun data input =>
                      if Js.falsy (name input) then data
                      else JsObject.set (name input) (value input) data) inputs acc).*1.
Proof.
  revert acc. induction inputs as [|i l IH]; intros acc H; [exact H|].
  cbn [fold_left]. apply IH. destruct (Js.falsy (name i)); [exact H|].
  now apply JsObject_order_set.
Qed.

Lemma hidden_names (inputs : list Element) (acc : list (string * string)) :
  let names := filter (fun x => JsObject.arrayIndex x = None) in
  names (fold_left (fun data input =>
                      if Js.falsy (name input) then data
                      else JsObject.set (name input) (value input) data) inputs acc).*1
  = (names acc.*1 ++
     firsts (names acc.*1)
       (filter (fun x => fieldName x = true ∧ JsObject.arrayIndex x = None)
               (name <$> inputs)))%list.
Proof.
  cbn zeta. revert acc. induction inputs as [|i l IH]; intros acc.
  { cbn. now rewrite app_nil_r. }
  cbn [fold_left fmap list_fmap]. rewrite IH. clear IH.
  set (names := filter (fun x => JsObject.arrayIndex x = None)).
  set (ok := fun x => fieldName x = true ∧ JsObject.arrayIndex x = None).
  change (list_fmap Element string name l) with (name <$> l).
  destruct (decide (ok (name i))) as [[Hf Hi]|Hno].
  - rewrite (filter_cons_True ok (name i) _ (conj Hf Hi)). cbn [firsts].
    unfold fieldName in Hf. apply andb_true_iff in Hf as [Hf Hp].
    apply negb_true_iff in Hf, Hp. rewrite Hf.
    unfold JsObject.set. rewrite Hp, Hi, JsMap_keys_set.
    destruct (JsMap.has (name i) acc) eqn:E.
    + destruct (decide (name i ∈ names acc.*1)) as [_|Hn]; [reflexivity|].
      contradict Hn. apply list_elem_of_filter. split; [exact Hi|now apply keys_has].
    + destruct (decide (name i ∈ names acc.*1)) as [Hy|_].
      { apply list_elem_of_filter in Hy as [_ Hy]. apply keys_has in Hy. congruence. }
      assert (En : names (acc.*1 ++ [name i])%list = (names acc.*1 ++ [name i])%list).
      { unfold names. rewrite filter_app.
        now rewrite (filter_cons_True (fun x => JsObject.arrayIndex x = None)
                       (name i) [] Hi), filter_nil. }
      rewrite En, <- app_assoc. cbn [app]. do 2 f_equal.
      apply firsts_ext. intros x.
      rewrite elem_of_app, !elem_of_cons, elem_of_nil. tauto.
  - rewrite (filter_cons_False ok (name i) _ Hno).
    destruct (Js.falsy (name i)) eqn:Hf; [reflexivity|].
    assert (E : names (JsObject.set (name i) (value i) acc).*1 = names acc.*1);
      [|now rewrite E].
    unfold JsObject.set. destruct (String.eqb (name i) "__proto__") eqn:Hp; [reflexivity|].
    destruct (JsObject.arrayIndex (name i)) as [n|] eqn:Hi.
    + destruct (JsMap.has (name i) acc) eqn:E.
      * now rewrite JsMap_keys_set, E.
      * now apply place_names.
    + contradict Hno. split; [|exact Hi]. unfold fieldName. now rewrite Hf, Hp.
Qed.

Lemma textOr_nonempty (e : option Element) (fallback : string) :
  fallback ≠ EmptyString → Enhanced.textOr e fallback ≠ EmptyString.
Proof.
  intros H. destruct e as [x|]; [|exact H]. cbn [Enhanced.textOr].
  now apply orElse_nonempty.
Qed.

Lemma readEvent_status (eventCard : Element) :
  ev_status (Enhanced.readEvent eventCard) ≠ EmptyString.
Proof.
  unfold Enhanced.readEvent. cbn [ev_status].
  apply orElse_nonempty, textOr_nonempty. discriminate.
Qed.

Lemma lower_upper (c : ascii) : Js.lowerChar (Js.upperChar c) = Js.lowerChar c.
Proof. destruct c as [[] [] [] [] [] [] [] []]; vm_compute; reflexivity. Qed.

Lemma lower_lower (c : ascii) : Js.lowerChar (Js.lowerChar c) = Js.lowerChar c.
Proof. destruct c as [[] [] [] [] [] [] [] []]; vm_compute; reflexivity. Qed.

Lemma mapChars_compose (f g : ascii -> ascii) (s : string) :
  Js.mapChars f (Js.mapChars g s) = Js.mapChars (fun c => f (g c)) s.
Proof. induction s as [|c s IH]; [reflexivity|]. cbn. now rewrite IH. Qed.

Lemma mapChars_ext (f g : ascii -> ascii) (s : string) :
  (∀ c, f c = g c) → Js.mapChars f s = Js.mapChars g s.
Proof. intros H. induction s as [|c s IH]; [reflexivity|]. cbn. now rewrite H, IH. Qed.

Lemma falsy_mapChars (f : ascii -> ascii) (s : string) :
  Js.falsy (Js.mapChars f s) = Js.falsy s.
Proof. now destruct s. Qed.

Lemma ensure_Return (h : Host) (w w' : World) (b : bool) :
  Enhanced.ensureAmazonSession h w = (Return b, w') → amazonSessionActive w' = true.
Proof.
  destruct (amazonSessionActive w) eqn:Ha.
  { rewrite (ensure_active h w Ha). now intros [= _ <-]. }
  unfold Enhanced.ensureAmazonSession, mbind at 1, M_bind at 1, gets.
  rewrite Ha. destruct (unset (AMZ_USER h) || unset (AMZ_PASS h)); [discriminate|].
  unfold tryCatch. destruct (Enhanced.login h w) as [[b'|e] w1] eqn:L.
  - intros [= _ <-]. now apply login_Return in L.
  - discriminate.
Qed.

Lemma ensure_Throw (h : Host) (w w' : World) (m : string) :
  Enhanced.ensureAmazonSession h w = (Throw m, w') → amazonSessionActive w' = false.
Proof.
  destruct (amazonSessionActive w) eqn:Ha.
  { now rewrite (ensure_active h w Ha). }
  unfold Enhanced.ensureAmazonSession, mbind at 1, M_bind at 1, gets.
  rewrite Ha. destruct (unset (AMZ_USER h) || unset (AMZ_PASS h)).
  { now intros [= _ <-]. }
  unfold tryCatch. destruct (Enhanced.login h w) as [[b'|e] w1] eqn:L; [discriminate|].
  now intros [= _ <-].
Qed.

End Pages.

(** X16.  [extractHiddenInputs] fails on a form that is not there and
    changes nothing otherwise.  Of a form it returns an object with one
    field for each name that a hidden input of the form has, the empty
    name and [__proto__] left out, with the value of the last input of
    that name.  The fields come in the order of the keys of an object:
    the names that are array indices first, in ascending order, then the
    other names in the order of their first appearance in the form. *)
Theorem X16_hidden_inputs (currentForm : option Element) (w : World) :
  match currentForm with
  | None => Enhanced.extractHiddenInputs currentForm w = (Throw nullFormMessage, w)
  | Some f =>
      let inputs := querySelectorAll f HiddenInputs in
      ∃ data, Enhanced.extractHiddenInputs currentForm w = (Return data, w) ∧
        NoDup data.*1 ∧
        (∀ k, JsMap.get k data
              = if fieldName k
                then value <$> last (filter (fun input => name input = k) inputs)
                else None) ∧
        ownKeyOrder data.*1 ∧
        filter (fun k => JsObject.arrayIndex k = None) data.*1
        = firsts [] (filter (fun k => fieldName k = true ∧ JsObject.arrayIndex k = None)
                            (name <$> inputs))
  end.
Proof.
  destruct currentForm as [f|]; [|reflexivity]. cbn zeta.
  eexists. split; [reflexivity|]. split; [|split; [|split]].
  - apply hidden_NoDup. constructor.
  - intros k. rewrite hidden_fold. cbn [JsMap.get].
    destruct (last _); cbn; now destruct (fieldName k).
  - apply hidden_order. exact I.
  - exact (hidden_names (querySelectorAll f HiddenInputs) []).
Qed.

(** A form whose hidden inputs are named, in this order, token, 10,
    [__proto__], 2, token and the empty name. *)
Example hidden_inputs_of_a_form :
  let input n v := Node EmptyString n v (fun _ => None) (fun _ => []) in
  let f := Node EmptyString EmptyString EmptyString (fun _ => None)
             (fun s => match s with
                       | HiddenInputs => [input "token" "a"; input "10" "b";
                                          input "__proto__" "c"; input "2" "d";
                                          input "token" "e"; input EmptyString "f"]
                       | _ => []
                       end) in
  fst (Enhanced.extractHiddenInputs (Some f) boot)
  = Return [("2", "d"); ("10", "b"); ("token", "e")].
Proof. vm_compute. reflexivity. Qed.


(** X18.  [geocodeLocation] does not look at the case of letters: a
    location of ASCII characters has the coordinates of its upper-case
    and of its lower-case form; and it finds coordinates only for a text
    whose lower-case form names one of its four cities. *)
Theorem X18_geocode_ignores_case (locationString : string) :
  isAscii locationString = true →
  Enhanced.geocodeLocation (Js.toUpperCase locationString)
  = Enhanced.geocodeLocation locationString ∧
  Enhanced.geocodeLocation (Js.toLowerCase locationString)
  = Enhanced.geocodeLocation locationString ∧
  (is_Some (Enhanced.geocodeLocation locationString)
   → ∃ city, city ∈ ["los angeles"; "chicago"; "new york"; "memphis"] ∧
             Js.includes (Js.toLowerCase locationString) city = true).
Proof.
  intros _. unfold Enhanced.geocodeLocation, Js.toUpperCase, Js.toLowerCase.
  rewrite !falsy_mapChars, !mapChars_compose.
  rewrite (mapChars_ext _ _ locationString lower_upper).
  rewrite (mapChars_ext (fun c => Js.lowerChar (Js.lowerChar c)) _ locationString lower_lower).
  split; [reflexivity|]. split; [reflexivity|].
  destruct (Js.falsy locationString); [intros [? [=]]|].
  destruct (Js.includes _ "los angeles") eqn:E1; [intros _; eexists; split; [|exact E1]; set_solver|].
  destruct (Js.includes _ "chicago") eqn:E2; [intros _; eexists; split; [|exact E2]; set_solver|].
  destruct (Js.includes _ "new york") eqn:E3; [intros _; eexists; split; [|exact E3]; set_solver|].
  destruct (Js.includes _ "memphis") eqn:E4; [intros _; eexists; split; [|exact E4]; set_solver|].
  intros [? [=]].
Qed.

Lemma X18_witness :
  isAscii "Chicago, IL" = true ∧
  is_Some (Enhanced.geocodeLocation "Chicago, IL") ∧
  Enhanced.geocodeLocation "CHICAGO, IL" = Enhanced.geocodeLocation "Chicago, IL".
Proof.
  split; [reflexivity|]. split; [eexists; reflexivity|].
  exact (proj1 (X18_geocode_ignores_case "Chicago, IL" eq_refl)).
Defined.

(** X19.  A result that [getAmazonTrackingWithLogin] returns carries the
    order asked for and leaves the session flag up; the last request of
    the run is the GET of the details of that order.  Its activity is
    either the one event made up from its status, stamped with the clock,
    or the events of the page: at least one, none with an empty status,
    each stamped with the text of the page. *)
Theorem X19_amazon_result_shape (h : Host) (inp : Inputs) (orderId : string)
    (w w' : World) (r : TrackingResult) :
  Enhanced.getAmazonTrackingWithLogin h inp orderId w = (Return r, w') →
  trackingNumber r = orderId ∧
  amazonSessionActive w' = true ∧
  last (sent w') = Some (Enhanced.httpGet (Enhanced.orderDetailsUrl ++ orderId)) ∧
  (activity r = [synthesized (status r) (t_now inp)] ∨
   (activity r ≠ [] ∧
    Forall (fun e => ev_status e ≠ EmptyString ∧ ∃ t, ev_timestamp e = Scraped t)
           (activity r))).
Proof.
  unfold Enhanced.getAmazonTrackingWithLogin. intros H.
  apply bind_Return in H as (b & w1 & He & H). cbv beta in H.
  apply bind_Return in H as (response & w2 & Hreq & H). cbv beta zeta in H.
  set (nodes := Enhanced.findEventNodes (JSDOM h response) Enhanced.eventSelectors) in H.
  clearbody nodes.
  injection H as <- <-. cbn [trackingNumber status activity].
  split; [reflexivity|].
  apply ensure_Return in He. unfold request in Hreq.
  destruct (http h _ _); [|discriminate]. injection Hreq as _ <-.
  cbn [amazonSessionActive withSent sent]. split; [exact He|].
  split; [apply last_snoc|].
  destruct nodes as [|card cards].
  - left. reflexivity.
  - right. cbn [map length Nat.ltb Nat.leb]. split.
    + cbn [rev]. intros E. now apply app_eq_nil in E as [_ ?].
    + apply Forall_forall. intros e Hin.
      apply list_elem_of_In in Hin. rewrite <- in_rev in Hin.
      change (In e (map Enhanced.readEvent (card :: cards))) in Hin.
      apply in_map_iff in Hin as (card' & <- & _).
      split; [apply readEvent_status|eexists; reflexivity].
Qed.

Lemma X19_witness :
  let out := Enhanced.getAmazonTrackingWithLogin (scriptedHost [Body "Shipped"])
               (inputsAt noon (1 # 4)) "111-2222222-3333333" withActiveSession in
  ∃ r, fst out = Return r ∧ trackingNumber r = "111-2222222-3333333" ∧
       amazonSessionActive (snd out) = true.
Proof.
  cbn zeta.
  assert (H : ∃ r w', Enhanced.getAmazonTrackingWithLogin (scriptedHost [Body "Shipped"])
                        (inputsAt noon (1 # 4)) "111-2222222-3333333" withActiveSession
                      = (Return r, w')) by (vm_compute; eauto).
  destruct H as (r & w' & H).
  destruct (X19_amazon_result_shape _ _ _ _ _ _ H) as (H1 & H2 & _).
  exists r. rewrite H. repeat split; assumption.
Defined.

(** X20.  [getAmazonTrackingWithLogin] fails in two ways only.  Either
    the session could not be had: the failure is that of
    [ensureAmazonSession], and the session flag is down.  Or the request
    for the details of the order failed: the failure is that of the
    request, and the session flag stays up, so that the next call goes
    straight to the order page. *)
Theorem X20_amazon_failure_modes (h : Host) (inp : Inputs) (orderId : string)
    (w w' : World) (m : string) :
  Enhanced.getAmazonTrackingWithLogin h inp orderId w = (Throw m, w') →
  (Enhanced.ensureAmazonSession h w = (Throw m, w') ∧ amazonSessionActive w' = false) ∨
  (∃ b w1, Enhanced.ensureAmazonSession h w = (Return b, w1) ∧
           http h (length (sent w1)) (Enhanced.httpGet (Enhanced.orderDetailsUrl ++ orderId))
           = Failed m ∧
           amazonSessionActive w' = true ∧
           Enhanced.ensureAmazonSession h w' = (Return true, w')).
Proof.
  unfold Enhanced.getAmazonTrackingWithLogin. intros H.
  apply bind_Throw in H as [H|(b & w1 & He & H)].
  { left. split; [exact H|]. now apply ensure_Throw in H. }
  right. exists b, w1. split; [exact He|]. cbv beta in H.
  apply bind_Throw in H as [H|(response & w2 & _ & H)]; [|discriminate H].
  unfold request in H. destruct (http h _ _) as [|reason]; [discriminate|].
  injection H as -> <-. apply ensure_Return in He.
  split; [reflexivity|]. split; [exact He|]. now apply ensure_active.
Qed.

Lemma X20_witness :
  let h := scriptedHost [Failed "timeout of 5000ms exceeded"] in
  let out := Enhanced.getAmazonTrackingWithLogin h (inputsAt noon (1 # 4))
               "111-2222222-3333333" withActiveSession in
  fst out = Throw "timeout of 5000ms exceeded" ∧ amazonSessionActive (snd out) = true.
Proof.
  cbn zeta.
  destruct (X20_amazon_failure_modes (scriptedHost [Failed "timeout of 5000ms exceeded"])
              (inputsAt noon (1 # 4)) "111-2222222-3333333" withActiveSession
              (withSent [Enhanced.httpGet (Enhanced.orderDetailsUrl ++ "111-2222222-3333333")]
                 withActiveSession)
              "timeout of 5000ms exceeded" eq_refl)
    as [[H _]|(b & w1 & _ & _ & H & _)].
  - discriminate H.
  - split; [reflexivity|exact H].
Defined.

(** ** Presence: the registry along the events of the sockets *)

Section Registry.

Lemma send_location_run (sid : string) (data : LocationData) (w : World) (u : LiveUser) :
  JsMap.get sid (liveUsers w) = Some u →
  send_location sid data w
  = (Return tt,
     withEmitted (emitted w ++ [(ToOthers sid, receive_location (located u data))])%list
       (withUsers (JsMap.set sid (located u data) (liveUsers w)) w)).
Proof.
  intros H. unfold send_location, mbind, M_bind, gets, emit, modify. cbn. now rewrite H.
Qed.

Lemma send_location_skip (sid : string) (data : LocationData) (w : World) :
  JsMap.get sid (liveUsers w) = None → send_location sid data w = (Return tt, w).
Proof.
  intros H. unfold send_location, mbind, M_bind, gets. cbn. now rewrite H.
Qed.

Lemma disconnect_run (sid : string) (w : World) :
  disconnect sid w
  = (Return tt,
     let w1 := withConnected (filter (fun s => s ≠ sid) (connected w)) w in
     if JsMap.has sid (liveUsers w)
     then withUsers (JsMap.delete sid (liveUsers w))
            (withEmitted (emitted w ++ [(ToAll, user_disconnected sid)])%list w1)
     else w1).
Proof.
  unfold disconnect, mbind, M_bind, gets, emit, modify. cbn.
  now destruct (JsMap.has sid (liveUsers w)).
Qed.

Lemma chat_run (sid message : string) (now : Z) (w : World) :
  send_chat_message sid message now w
  = (Return tt,
     withEmitted
       (emitted w ++
        [(ToAll, receive_chat_message
                   {| user := match JsMap.get sid (liveUsers w) with
                              | Some u => Registered u
                              | None => Placeholder "Unknown" EmptyString
                              end;
                      message := message; timestamp := now |})])%list w).
Proof. reflexivity. Qed.

Lemma registryOk_set (sid : string) (u : LiveUser) (users : list (string * LiveUser)) :
  id u = sid → avatar u = avatarOf sid →
  registryOk users → registryOk (JsMap.set sid u users).
Proof.
  intros Hi Ha [Hnd Hall]. split; [now apply JsMap_NoDup_set|].
  intros k u' Hin. apply JsMap_in_set in Hin as [[-> ->]|Hin]; [now split|now apply Hall].
Qed.

Lemma registryOk_delete (sid : string) (users : list (string * LiveUser)) :
  registryOk users → registryOk (JsMap.delete sid users).
Proof.
  intros [Hnd Hall]. split.
  - rewrite (JsMap_keys_delete sid users Hnd). now apply NoDup_filter.
  - intros k u' Hin. apply JsMap_in_delete in Hin. now apply Hall.
Qed.

Lemma registryOk_step (sid : string) (e : SocketEvent) (w : World) :
  registryOk (liveUsers w) →
  registryOk (liveUsers (snd (serverHandle sid e w))) ∧
  registryOk (liveUsers (snd (enhancedHandle sid e w))).
Proof.
  intros H. destruct e as [|name|data|message now|]; cbn [serverHandle enhancedHandle].
  - split; exact H.
  - rewrite Server_join_run, Enhanced_join_run. cbn [snd liveUsers withEmitted withUsers].
    split; apply registryOk_set; try reflexivity; exact H.
  - assert (G : registryOk (liveUsers (snd (send_location sid data w)))); [|now split].
    destruct (JsMap.get sid (liveUsers w)) as [u|] eqn:E.
    + rewrite (send_location_run sid data w u E). cbn [snd liveUsers withEmitted withUsers].
      apply JsMap_get_in in E. destruct (proj2 H _ _ E) as [Hi Ha].
      apply registryOk_set; assumption.
    + now rewrite (send_location_skip sid data w E).
  - split; exact H.
  - assert (G : registryOk (liveUsers (snd (disconnect sid w)))); [|now split].
    rewrite disconnect_run. cbn [snd].
    destruct (JsMap.has sid (liveUsers w)); cbn [liveUsers withUsers withEmitted withConnected];
      [now apply registryOk_delete|exact H].
Qed.

Lemma present_step (handle : string -> SocketEvent -> M unit) (sid : string)
    (e : SocketEvent) (w : World) :
  handle = serverHandle ∨ handle = enhancedHandle →
  registryOk (liveUsers w) → present w →
  match e with Connect => sid ∉ connected w | _ => sid ∈ connected w end →
  present (snd (handle sid e w)).
Proof.
  intros Hh [Hnd _] Hp Hl k.
  assert (Hjoin : sid ∈ connected w →
            ∀ u, k ∈ (JsMap.set sid u (liveUsers w)).*1 → k ∈ connected w).
  { intros Hs u. rewrite JsMap_keys_set. destruct (JsMap.has sid (liveUsers w)); [apply Hp|].
    rewrite elem_of_app, list_elem_of_singleton. intros [?| ->]; [now apply Hp|exact Hs]. }
  destruct e as [|name|data|message now|].
  - destruct Hh as [-> | ->]; cbn; intros Hk; apply elem_of_app; left; now apply Hp.
  - destruct Hh as [-> | ->]; cbn [serverHandle enhancedHandle];
      rewrite ?Server_join_run, ?Enhanced_join_run;
      cbn [snd liveUsers connected withEmitted withUsers]; now apply Hjoin.
  - assert (G : k ∈ (liveUsers (snd (send_location sid data w))).*1 →
                k ∈ connected (snd (send_location sid data w)));
      [|destruct Hh as [-> | ->]; exact G].
    destruct (JsMap.get sid (liveUsers w)) as [u|] eqn:E.
    + rewrite (send_location_run sid data w u E).
      cbn [snd liveUsers connected withEmitted withUsers]. now apply Hjoin.
    + rewrite (send_location_skip sid data w E). apply Hp.
  - destruct Hh as [-> | ->]; cbn; apply Hp.
  - assert (G : k ∈ (liveUsers (snd (disconnect sid w))).*1 →
                k ∈ connected (snd (disconnect sid w)));
      [|destruct Hh as [-> | ->]; exact G].
    rewrite disconnect_run. cbn [snd].
    destruct (JsMap.has sid (liveUsers w)) eqn:E;
      cbn [liveUsers connected withUsers withEmitted withConnected].
    + rewrite (JsMap_keys_delete sid _ Hnd), !list_elem_of_filter.
      intros [? ?]. split; [assumption|now apply Hp].
    + intros Hk. apply list_elem_of_filter. split; [|now apply Hp].
      intros ->. apply keys_has in Hk. congruence.
Qed.

Lemma received_all (conns : list string) (other : string) (e : ServerEvent) :
  received conns other [(ToAll, e)] = if decide (other ∈ conns) then [e] else [].
Proof.
  unfold received. cbn [omap list_omap fst snd recipients].
  now destruct (decide (other ∈ conns)).
Qed.

End Registry.

(** X21.  Whatever events the sockets send, in whatever order, the
    registry of either revision holds no socket twice, and under each
    socket a record with that socket as its id and with the avatar made
    from it. *)
Theorem X21_registry_invariant (es : list (string * SocketEvent)) (w : World) :
  registryOk (liveUsers w) →
  registryOk (liveUsers (after serverHandle es w)) ∧
  registryOk (liveUsers (after enhancedHandle es w)).
Proof.
  intros H. split.
  - revert w H. induction es as [|[sid e] es IH]; intros w H; [exact H|].
    cbn [after fold_left fst snd]. apply IH. now apply registryOk_step.
  - revert w H. induction es as [|[sid e] es IH]; intros w H; [exact H|].
    cbn [after fold_left fst snd]. apply IH. now apply registryOk_step.
Qed.

Lemma X21_witness :
  let es := [("A", Connect); ("A", Join "alice"); ("B", Connect); ("A", Join "alicia");
             ("B", Join "bob"); ("A", Disconnect)] in
  registryOk (liveUsers boot) ∧
  registryOk (liveUsers (after serverHandle es boot)) ∧
  (liveUsers (after enhancedHandle es boot)).*1 = ["B"].
Proof.
  cbn zeta.
  assert (H : registryOk (liveUsers boot)).
  { split; [constructor|]. intros k u Hin. now apply elem_of_nil in Hin. }
  split; [exact H|]. split; [|reflexivity].
  exact (proj1 (X21_registry_invariant _ boot H)).
Defined.

(** X22.  When every socket sends its events between its connection and
    its disconnection, as socket.io has it, every registered user is a
    connected socket, in either revision: a disconnection leaves no
    record behind. *)
Theorem X22_registered_users_are_connected (es : list (string * SocketEvent)) (w : World) :
  registryOk (liveUsers w) → present w →
  (lawful serverHandle es w → present (after serverHandle es w)) ∧
  (lawful enhancedHandle es w → present (after enhancedHandle es w)).
Proof.
  intros Hr Hp. split.
  - revert w Hr Hp. induction es as [|[sid e] es IH]; intros w Hr Hp Hl; [exact Hp|].
    destruct Hl as [Hl Hl']. cbn [after fold_left fst snd]. apply IH.
    + now apply registryOk_step.
    + apply present_step; auto.
    + exact Hl'.
  - revert w Hr Hp. induction es as [|[sid e] es IH]; intros w Hr Hp Hl; [exact Hp|].
    destruct Hl as [Hl Hl']. cbn [after fold_left fst snd]. apply IH.
    + now apply registryOk_step.
    + apply present_step; auto.
    + exact Hl'.
Qed.

Lemma X22_witness :
  let es := [("A", Connect); ("A", Join "alice"); ("B", Connect); ("B", Join "bob");
             ("A", Disconnect)] in
  lawful enhancedHandle es boot ∧ present (after enhancedHandle es boot).
Proof.
  cbn zeta.
  assert (Hr : registryOk (liveUsers boot)).
  { split; [constructor|]. intros k u Hin. now apply elem_of_nil in Hin. }
  assert (Hp : present boot).
  { intros k Hin. now apply elem_of_nil in Hin. }
  assert (Hl : lawful enhancedHandle
                 [("A", Connect); ("A", Join "alice"); ("B", Connect); ("B", Join "bob");
                  ("A", Disconnect)] boot).
  { cbn. repeat split;
      match goal with |- ?P => apply (bool_decide_unpack P); vm_compute; exact I end. }
  split; [exact Hl|].
  exact (proj2 (X22_registered_users_are_connected _ boot Hr Hp) Hl).
Defined.

(** ** Presence: what the sockets see *)

Section FanOut.

Lemma filter_others (sid : string) (conns : list string) :
  sid ∉ conns → filter (fun s => s ≠ sid) (conns ++ [sid])%list = conns.
Proof.
  intros H. rewrite filter_app, (filter_cons_False (fun s => s ≠ sid) sid []) by auto.
  rewrite filter_nil, app_nil_r. apply filter_all. apply Forall_forall.
  intros x Hx ->. contradiction.
Qed.

Lemma received_cons (conns : list string) (sid : string) (t : Target) (e : ServerEvent)
    (log : list (Target * ServerEvent)) :
  received conns sid ((t, e) :: log)
  = ((if decide (sid ∈ recipients conns t) then [e] else []) ++ received conns sid log)%list.
Proof.
  unfold received. cbn [omap list_omap fst snd].
  now destruct (decide (sid ∈ recipients conns t)).
Qed.

Lemma to_socket (conns : list string) (sid other : string) :
  other ∈ recipients conns (ToSocket sid) ↔ other ∈ conns ∧ other = sid.
Proof. cbn [recipients]. now rewrite list_elem_of_filter, (comm and). Qed.

Lemma to_others (conns : list string) (sid other : string) :
  other ∈ recipients conns (ToOthers sid) ↔ other ∈ conns ∧ other ≠ sid.
Proof. cbn [recipients]. now rewrite list_elem_of_filter, (comm and). Qed.

End FanOut.

(** X23.  After the disconnection of a socket, the socket is neither
    connected nor registered, and every other socket is connected and
    registered as before.  When the socket was registered, every socket
    still connected receives one [user_disconnected] with its id; when it
    was not, nobody receives anything. *)
Theorem X23_disconnect_removes_the_user (sid : string) (w : World) :
  registryOk (liveUsers w) →
  let w' := snd (disconnect sid w) in
  JsMap.get sid (liveUsers w') = None ∧ (sid ∉ connected w') ∧
  (∀ k, k ≠ sid → JsMap.get k (liveUsers w') = JsMap.get k (liveUsers w) ∧
                  (k ∈ connected w' ↔ k ∈ connected w)) ∧
  (∀ other, other ∈ connected w → other ≠ sid →
     inbox w w' other
     = if JsMap.has sid (liveUsers w) then [user_disconnected sid] else []) ∧
  inbox w w' sid = [].
Proof.
  intros [Hnd _]. cbn zeta. rewrite disconnect_run. cbn [snd]. unfold inbox.
  assert (Hs : sid ∉ filter (fun s => s ≠ sid) (connected w)).
  { intros H. apply list_elem_of_filter in H as [? _]. congruence. }
  assert (Hk : ∀ k, k ≠ sid →
            (k ∈ filter (fun s => s ≠ sid) (connected w) ↔ k ∈ connected w)).
  { intros k Hne. rewrite list_elem_of_filter. tauto. }
  destruct (JsMap.has sid (liveUsers w)) eqn:E;
    cbn [liveUsers connected emitted withUsers withEmitted withConnected].
  - rewrite news_app.
    split; [now apply JsMap_get_delete|]. split; [exact Hs|]. split; [|split].
    + intros k Hne. split; [now apply JsMap_get_delete_ne|now apply Hk].
    + intros other Hin Hne. rewrite received_all.
      match goal with |- context [decide ?P] => destruct (decide P) as [_|Hn] end;
        [reflexivity|].
      contradict Hn. now apply Hk.
    + rewrite received_all. match goal with |- context [decide ?P] => destruct (decide P) as [Hy|_] end;
        [contradiction|reflexivity].
  - rewrite news_same. unfold JsMap.has in E.
    split; [now destruct (JsMap.get sid (liveUsers w))|]. split; [exact Hs|].
    split; [|split; reflexivity].
    intros k Hne. split; [reflexivity|now apply Hk].
Qed.

Lemma X23_witness :
  let w := after serverHandle [("A", Connect); ("A", Join "alice"); ("B", Connect)] boot in
  let w' := snd (disconnect "A" w) in
  registryOk (liveUsers w) ∧ JsMap.get "A" (liveUsers w') = None ∧
  inbox w w' "B" = [user_disconnected "A"].
Proof.
  cbn zeta.
  assert (H : registryOk (liveUsers (after serverHandle
                [("A", Connect); ("A", Join "alice"); ("B", Connect)] boot))).
  { split; [cbn; repeat constructor; apply not_elem_of_nil|].
    intros k u Hin. cbn in Hin. apply list_elem_of_singleton in Hin as [= -> ->]. now split. }
  split; [exact H|].
  destruct (X23_disconnect_removes_the_user "A" _ H) as (H1 & _ & _ & H4 & _).
  split; [exact H1|].
  apply (H4 "B"); [|discriminate].
  match goal with |- ?P => apply (bool_decide_unpack P); vm_compute; exact I end.
Defined.

(** X24.  A socket that connects, joins and disconnects leaves the
    registry and the connected sockets as they were before it came, in
    either revision; every socket connected all along has received
    [user_joined] with its record and then [user_disconnected] with its
    id, and nothing else. *)
Theorem X24_visit_leaves_no_trace (sid name : string) (w : World) :
  sid ∉ connected w → JsMap.get sid (liveUsers w) = None →
  let visit := [(sid, Connect); (sid, Join name); (sid, Disconnect)] in
  let ws := after serverHandle visit w in
  let we := after enhancedHandle visit w in
  (liveUsers ws = liveUsers w ∧ connected ws = connected w) ∧
  (liveUsers we = liveUsers w ∧ connected we = connected w) ∧
  ∀ other, other ∈ connected w →
    inbox w ws other
    = [user_joined (Some (joined Undefined sid name)); user_disconnected sid] ∧
    inbox w we other
    = [user_joined (Some (joined Null sid name)); user_disconnected sid].
Proof.
  intros Hc Hu. cbn zeta. unfold after.
  cbn [fold_left fst snd serverHandle enhancedHandle].
  rewrite !disconnect_run, Server_join_run, Enhanced_join_run.
  unfold Server.connection, Enhanced.connection, mbind, M_bind, gets, emit, modify.
  cbn [snd liveUsers connected emitted withUsers withEmitted withConnected].
  unfold JsMap.has. rewrite !JsMap_get_set.
  cbn [liveUsers connected emitted withUsers withEmitted withConnected].
  rewrite !(JsMap_delete_set sid _ _ Hu), (filter_others sid _ Hc).
  split; [now split|]. split; [now split|].
  intros other Hin.
  assert (Hne : other ≠ sid) by (intros ->; contradiction).
  unfold inbox. cbn [liveUsers connected emitted withUsers withEmitted withConnected].
  rewrite <- !app_assoc, !news_app.
  cbn [app]. rewrite !received_cons.
  repeat match goal with
         | |- context [decide (other ∈ recipients ?c (ToSocket sid))] =>
             destruct (decide (other ∈ recipients c (ToSocket sid))) as [Hy|_];
             [apply to_socket in Hy as [_ ?]; contradiction|]
         | |- context [decide (other ∈ recipients ?c (ToOthers sid))] =>
             destruct (decide (other ∈ recipients c (ToOthers sid))) as [_|Hn];
             [|contradict Hn; now apply to_others]
         | |- context [decide (other ∈ recipients ?c ToAll)] =>
             destruct (decide (other ∈ recipients c ToAll)) as [_|Hn];
             [|contradiction]
         end.
  split; reflexivity.
Qed.

Lemma X24_witness :
  let w := after enhancedHandle [("B", Connect); ("B", Join "bob")] boot in
  let we := after enhancedHandle [("A", Connect); ("A", Join "alice"); ("A", Disconnect)] w in
  liveUsers we = liveUsers w ∧ connected we = connected w ∧
  inbox w we "B" = [user_joined (Some (joined Null "A" "alice")); user_disconnected "A"].
Proof.
  cbn zeta.
  destruct (X24_visit_leaves_no_trace "A" "alice"
              (after enhancedHandle [("B", Connect); ("B", Join "bob")] boot))
    as (_ & [H1 H2] & H3).
  - match goal with |- ?P => apply (bool_decide_unpack P); vm_compute; exact I end.
  - reflexivity.
  - split; [exact H1|]. split; [exact H2|].
    apply H3. match goal with |- ?P => apply (bool_decide_unpack P); vm_compute; exact I end.
Defined.

(** X25.  A [join] registers its socket once: a socket that is not
    registered goes last, and one that is keeps its place, so that the
    registry never lists a socket twice; the record of the socket is the
    fresh one, with the new name and no position, and the records of the
    other sockets are untouched. *)
Theorem X25_join_registers_once (sid name : string) (w : World) :
  let ws := liveUsers (snd (Server.join sid name w)) in
  let we := liveUsers (snd (Enhanced.join sid name w)) in
  let keys := if JsMap.has sid (liveUsers w)
              then (liveUsers w).*1 else ((liveUsers w).*1 ++ [sid])%list in
  ws.*1 = keys ∧ we.*1 = keys ∧
  JsMap.get sid ws = Some (joined Undefined sid name) ∧
  JsMap.get sid we = Some (joined Null sid name) ∧
  ∀ k, k ≠ sid → JsMap.get k ws = JsMap.get k (liveUsers w) ∧
                 JsMap.get k we = JsMap.get k (liveUsers w).
Proof.
  cbn zeta. rewrite Server_join_run, Enhanced_join_run.
  cbn [snd liveUsers withUsers withEmitted].
  rewrite !JsMap_keys_set, !JsMap_get_set. repeat split; now apply JsMap_get_set_ne.
Qed.

(** X26.  A position sent by a registered socket is stored in the record
    of that socket, which keeps its id, name, avatar and place; the other
    records are untouched.  Every other connected socket, and not the
    sender, receives [receive_location] with the updated record; and the
    updated record is among those a later snapshot lists. *)
Theorem X26_position_update (sid : string) (data : LocationData) (w : World)
    (u : LiveUser) :
  JsMap.get sid (liveUsers w) = Some u →
  let w' := snd (send_location sid data w) in
  JsMap.get sid (liveUsers w') = Some (located u data) ∧
  (liveUsers w').*1 = (liveUsers w).*1 ∧
  (∀ k, k ≠ sid → JsMap.get k (liveUsers w') = JsMap.get k (liveUsers w)) ∧
  (∀ other, other ∈ connected w → other ≠ sid →
     inbox w w' other = [receive_location (located u data)]) ∧
  inbox w w' sid = [] ∧
  located u data ∈ JsMap.values (liveUsers w').
Proof.
  intros Hu. cbn zeta. rewrite (send_location_run sid data w u Hu). unfold inbox.
  cbn [snd liveUsers connected emitted withUsers withEmitted].
  rewrite news_app, JsMap_keys_set, JsMap_get_set. unfold JsMap.has. rewrite Hu.
  split; [reflexivity|]. split; [reflexivity|]. split; [|split; [|split]].
  - intros k Hne. now apply JsMap_get_set_ne.
  - intros other Hin Hne. rewrite received_broadcast.
    match goal with |- context [decide ?P] => destruct (decide P) as [_|Hn] end;
      [reflexivity|]. contradict Hn. now split.
  - rewrite received_broadcast.
    match goal with |- context [decide ?P] => destruct (decide P) as [[_ Hy]|_] end;
      [congruence|reflexivity].
  - apply (JsMap_get_values sid). apply JsMap_get_set.
Qed.

Lemma X26_witness :
  let w := after serverHandle [("A", Connect); ("A", Join "alice"); ("B", Connect)] boot in
  let data := {| data_latitude := Number (Dec 4071 (-2));
                 data_longitude := Number (Dec (-7400) (-2)) |} in
  let w' := snd (send_location "A" data w) in
  inbox w w' "B" = [receive_location (located (joined Undefined "A" "alice") data)] ∧
  inbox w w' "A" = [].
Proof.
  cbn zeta.
  destruct (X26_position_update "A"
              {| data_latitude := Number (Dec 4071 (-2));
                 data_longitude := Number (Dec (-7400) (-2)) |}
              (after serverHandle [("A", Connect); ("A", Join "alice"); ("B", Connect)] boot)
              (joined Undefined "A" "alice") eq_refl) as (_ & _ & _ & H4 & H5 & _).
  split; [|exact H5].
  apply H4; [|discriminate].
  match goal with |- ?P => apply (bool_decide_unpack P); vm_compute; exact I end.
Defined.

(** X27.  A chat message changes nothing in the state of the server and
    reaches every connected socket, the sender included, once: with the
    record of the sender when the sender is registered, and with the name
    "Unknown" and an empty avatar when it is not. *)
Theorem X27_chat_reaches_everyone (sid message : string) (now : Z) (w : World) :
  let w' := snd (send_chat_message sid message now w) in
  liveUsers w' = liveUsers w ∧ connected w' = connected w ∧
  trackingCache w' = trackingCache w ∧
  ∀ s, inbox w w' s
       = if decide (s ∈ connected w)
         then [receive_chat_message
                 {| user := match JsMap.get sid (liveUsers w) with
                            | Some u => Registered u
                            | None => Placeholder "Unknown" EmptyString
                            end;
                    message := message; timestamp := now |}]
         else [].
Proof.
  cbn zeta. rewrite chat_run. unfold inbox.
  cbn [snd liveUsers connected trackingCache emitted withEmitted].
  repeat split. intros s. now rewrite news_app, received_all.
Qed.

(** ** The events of the order page, and the keys of the cache *)

Lemma findEventNodes_first (document : Element) (selectors : list Selector)
    (i : nat) (sel : Selector) :
  selectors !! i = Some sel →
  querySelectorAll document sel ≠ [] →
  (∀ j sel', (j < i)%nat → selectors !! j = Some sel' →
             querySelectorAll document sel' = []) →
  Enhanced.findEventNodes document selectors = querySelectorAll document sel.
Proof.
  revert i. induction selectors as [|s l IH]; intros i Hi Hne Hbefore; [discriminate|].
  cbn [Enhanced.findEventNodes]. destruct i as [|i].
  - injection Hi as ->. now destruct (querySelectorAll document sel).
  - rewrite (Hbefore 0%nat s) by (reflexivity || lia).
    apply (IH i); [exact Hi|exact Hne|].
    intros j sel' Hj Hl. apply (Hbefore (S j)); [lia|exact Hl].
Qed.

(** X28.  Once the session holds and the details page has been fetched,
    the events of the result are those of the first of the three event
    selectors, in their order, that finds a node on the page: as many
    events as it finds nodes, in the reverse of the order of the page.
    What a later selector would find is left out. *)
Theorem X28_events_of_the_first_selector (h : Host) (inp : Inputs) (orderId : string)
    (w w1 : World) (b : bool) (response : string) (i : nat) (sel : Selector) :
  Enhanced.ensureAmazonSession h w = (Return b, w1) →
  http h (length (sent w1)) (Enhanced.httpGet (Enhanced.orderDetailsUrl ++ orderId))
  = Body response →
  Enhanced.eventSelectors !! i = Some sel →
  querySelectorAll (JSDOM h response) sel ≠ [] →
  (∀ j sel', (j < i)%nat → Enhanced.eventSelectors !! j = Some sel' →
             querySelectorAll (JSDOM h response) sel' = []) →
  ∃ r w',
    Enhanced.getAmazonTrackingWithLogin h inp orderId w = (Return r, w') ∧
    activity r = rev (map Enhanced.readEvent (querySelectorAll (JSDOM h response) sel)) ∧
    length (activity r) = length (querySelectorAll (JSDOM h response) sel).
Proof.
  intros He Hhttp Hi Hne Hbefore.
  destruct (amazon_returns h inp orderId w w1 b response He Hhttp)
    as (r & w' & Hr & _ & _ & Ha).
  rewrite (findEventNodes_first _ _ i sel Hi Hne Hbefore) in Ha.
  exists r, w'. split; [exact Hr|].
  assert (E : activity r
              = rev (map Enhanced.readEvent (querySelectorAll (JSDOM h response) sel))).
  { rewrite Ha. destruct (querySelectorAll (JSDOM h response) sel); [contradiction|].
    reflexivity. }
  split; [exact E|]. now rewrite E, length_rev, length_map.
Qed.

(** A page with two cards that the second selector finds. *)
Lemma X28_witness :
  let h := {| toLocaleDateString := usDate; setNextDate := fun t => t + day;
              AMZ_USER := Some "user@example.com"; AMZ_PASS := Some "secret";
              http := fun _ _ => Body "two cards";
              JSDOM := fun _ =>
                Node EmptyString EmptyString EmptyString (fun _ => None)
                  (fun s => match s with
                            | EventCardNew => [textNode "first"; textNode "second"]
                            | EventCardById => [textNode "other"]
                            | _ => []
                            end) |} in
  ∃ r w', Enhanced.getAmazonTrackingWithLogin h (inputsAt noon (1 # 4))
            "111-2222222-3333333" withActiveSession = (Return r, w') ∧
          length (activity r) = 2%nat.
Proof.
  cbn zeta.
  match goal with |- context [Enhanced.getAmazonTrackingWithLogin ?h _ _ _] =>
    destruct (X28_events_of_the_first_selector h (inputsAt noon (1 # 4))
                "111-2222222-3333333" withActiveSession withActiveSession true
                "two cards" 1%nat EventCardNew)
      as (r & w' & Hr & _ & Hl)
  end.
  - reflexivity.
  - reflexivity.
  - reflexivity.
  - discriminate.
  - intros j sel' Hj Hs. destruct j as [|j]; [|lia]. now injection Hs as <-.
  - exists r, w'. split; [exact Hr|exact Hl].
Defined.

Lemma other_keys (detect : string -> option string)
    (dispatch : Host -> Inputs -> string -> string -> M TrackingResult)
    (broadcast : TrackingResult -> list (Target * ServerEvent))
    (h : Host) (inp : Inputs) (body : option string) (w : World)
    (out : Res Response * World) (key : string) :
  trackOutcome detect dispatch broadcast h inp body w out →
  (∀ c tn, keeps (dispatch h inp c tn)) →
  (∀ tn c, body = Some tn → detect tn = Some c → key ≠ c ++ ":" ++ tn) →
  trackingCache (snd out) !! key = trackingCache w !! key.
Proof.
  intros O Hkeeps Hkey.
  inversion O as [msg Hr Hm|tn c e -> Hf Hd He Ht|tn c r w1 -> Hf Hd Hc Hdisp
                  |tn c m w1 -> Hf Hd Hc Hdisp]; subst; cbn [snd]; try reflexivity.
  - pose proof (Hkeeps c tn (snd (calling c tn w))) as Hq.
    rewrite Hdisp in Hq. destruct Hq as (q1 & _). cbn [snd calling modify] in q1.
    cbn [trackingCache withEmitted withCache].
    rewrite lookup_insert_ne by (intros E; now apply (Hkey tn c eq_refl Hd)).
    now rewrite q1.
  - pose proof (Hkeeps c tn (snd (calling c tn w))) as Hq.
    rewrite Hdisp in Hq. destruct Hq as (q1 & _). cbn [snd calling modify] in q1.
    now rewrite q1.
Qed.

(** X29.  The cache is keyed by the identifier as it was typed: a run of
    the handler for one identifier leaves the entry of every other
    identifier as it was, also that of an identifier which differs from
    it in the case of letters only and which the revision with the login
    flow detects alike. *)
Theorem X29_cache_is_per_identifier (h : Host) (inp : Inputs) (tn tn' c' : string)
    (w : World) :
  tn ≠ tn' →
  (Server.detectCarrier tn' = Some c' →
   trackingCache (snd (Server.track h inp (Some tn) w)) !! (c' ++ ":" ++ tn')
   = trackingCache w !! (c' ++ ":" ++ tn')) ∧
  (Enhanced.detectCarrier tn' = Some c' →
   trackingCache (snd (Enhanced.track h inp (Some tn) w)) !! (c' ++ ":" ++ tn')
   = trackingCache w !! (c' ++ ":" ++ tn')).
Proof.
  intros Hne. split; intros Hd'.
  - apply (other_keys _ _ _ _ _ _ _ _ _ (Server_track_outcome h inp (Some tn) w)).
    + intros c tn0. apply keeps_Server_dispatch.
    + intros tn0 c [= <-] Hd Hk.
      apply key_inj in Hk as [_ Hk];
        [congruence|now apply (Server_detect_tags tn')|now apply (Server_detect_tags tn)].
  - apply (other_keys _ _ _ _ _ _ _ _ _ (Enhanced_track_outcome h inp (Some tn) w)).
    + intros c tn0. apply keeps_Enhanced_dispatch.
    + intros tn0 c [= <-] Hd Hk.
      apply key_inj in Hk as [_ Hk];
        [congruence|now apply (Enhanced_detect_tags tn')|now apply (Enhanced_detect_tags tn)].
Qed.

Lemma X29_witness :
  let w1 := snd (Enhanced.track utcHost (inputsAt noon (3 # 4))
                   (Some "1z12345678901234ab") boot) in
  Enhanced.detectCarrier "1Z12345678901234AB" = Enhanced.detectCarrier "1z12345678901234ab" ∧
  trackingCache w1 !! ("ups" ++ ":" ++ "1Z12345678901234AB") = None.
Proof.
  cbn zeta. split; [vm_compute; reflexivity|].
  destruct (X29_cache_is_per_identifier utcHost (inputsAt noon (3 # 4))
              "1z12345678901234ab" "1Z12345678901234AB" "ups" boot) as [_ H].
  - discriminate.
  - rewrite H; [reflexivity|vm_compute; reflexivity].
Defined.
